(** * The create-image pipeline of the image router

    A shallow embedding of [imageRouter.createImage]
    (src/app/[variants]/(main)/image/features/ImageWorkspace/index.tsx,
    second document, lines 87-286): the request handler that writes a
    generation batch, its generations and their async tasks in one database
    transaction, dispatches one background call per task and returns.

    The relational store, the file service, the seed generator, the async
    caller and the task model are collaborators of the handler; they appear
    here as fields of [Env] and [Background], so every statement below is
    quantified over what they may answer.  JavaScript numbers are modelled
    by [Z] (the handler only counts with them) and strings by [string].

    Two neighbours of the handler follow it: the store actions
    [createImage] and [recreateImage] of the client, which send the request
    (src/store/image/slices/createImage/action.ts, module [Client]), and
    the system dependency check of the MCP service
    (src/server/services/mcp/deps/MCPSystemDepsCheckService.ts, module
    [McpDeps]). *)

From Stdlib Require Import ZArith NArith String Ascii List Lia.
From Stdlib Require Import DecimalString DecimalNat.
From Stdlib Require DecimalN.
From stdpp Require Import base decidable option list strings gmap.

Import ListNotations.
Local Open Scope string_scope.
Local Open Scope list_scope.

(* ===================================================================== *)
(** ** Values thrown by collaborators and carried by rejected promises *)
(* ===================================================================== *)

(** What a [catch] clause of the handler can receive.  The handler only
    looks at two things: whether the value is an [Error] instance and what
    its [message] property holds.  Thrown values are objects, as the ones
    the database driver and the tRPC caller produce; [null] and
    [undefined], on which reading [message] would itself throw, are not
    covered. *)
Inductive Thrown : Type :=
| ErrorInstance (msg : string)
| OtherValue (msg : option string).

#[export] Instance Thrown_eq_dec : EqDecision Thrown.
Proof. solve_decision. Defined.

(** [e.message] *)
Definition message (e : Thrown) : option string :=
  match e with
  | ErrorInstance m => Some m
  | OtherValue m => m
  end.

(** [e.message || fallback]: a missing message and the empty string are
    both falsy. *)
Definition messageOr (e : Thrown) (fallback : string) : string :=
  match message e with
  | Some m => if decide (m = EmptyString) then fallback else m
  | None => fallback
  end.

(** [e instanceof Error ? e.message : fallback] *)
Definition errorMessageOr (e : Thrown) (fallback : string) : string :=
  match e with
  | ErrorInstance m => m
  | OtherValue _ => fallback
  end.

(* ===================================================================== *)
(** ** Types from [@/types/asyncTask] and the input schema *)
(* ===================================================================== *)

(** Modelled from the spec: the enums and the error class of
    [@/types/asyncTask] are imported by the router but not part of the
    sources at hand.  The spec gives a task the statuses Pending, Success
    and Error and an optional structured error made of a kind and a
    message; the router only ever uses the kind [ServerError] and the task
    type [ImageGeneration]. *)
Inductive AsyncTaskStatus : Type := Pending | Success | Error.
Inductive AsyncTaskErrorType : Type := ServerError.
Inductive AsyncTaskType : Type := ImageGeneration.

Record AsyncTaskError : Type := mkAsyncTaskError {
  err_kind : AsyncTaskErrorType;
  err_message : string
}.

#[export] Instance AsyncTaskStatus_eq_dec : EqDecision AsyncTaskStatus.
Proof. solve_decision. Defined.
#[export] Instance AsyncTaskErrorType_eq_dec : EqDecision AsyncTaskErrorType.
Proof. solve_decision. Defined.
#[export] Instance AsyncTaskType_eq_dec : EqDecision AsyncTaskType.
Proof. solve_decision. Defined.
#[export] Instance AsyncTaskError_eq_dec : EqDecision AsyncTaskError.
Proof. solve_decision. Defined.

(** [createImageInputSchema.params]: [prompt] is required, the other known
    keys are optional, unknown keys pass through.  [seed] is
    [z.number().nullable().optional()]: the key may be absent ([None]),
    present with [null] ([Some None]) or present with a number. *)
Record Params : Type := mkParams {
  prompt : string;
  imageUrls : option (list string);
  width : option Z;
  height : option Z;
  seed : option (option Z);
  steps : option Z;
  cfg : option Z;
  passthrough : list (string * string)
}.

#[export] Instance Params_eq_dec : EqDecision Params.
Proof. solve_decision. Defined.

(** [{ ...params, imageUrls: keys }] *)
Definition withImageUrls (p : Params) (keys : list string) : Params :=
  {| prompt := prompt p; imageUrls := Some keys; width := width p;
     height := height p; seed := seed p; steps := steps p; cfg := cfg p;
     passthrough := passthrough p |}.

(** ['seed' in params] *)
Definition hasSeedKey (p : Params) : bool :=
  match seed p with Some _ => true | None => false end.

Record CreateImageInput : Type := mkInput {
  generationTopicId : string;
  provider : string;
  model : string;
  imageNum : Z;
  params : Params
}.

(** The part of the request context the handler reads. *)
Record Ctx : Type := mkCtx { userId : string }.

(* ===================================================================== *)
(** ** Rows of the three tables and the store *)
(* ===================================================================== *)

Record GenerationBatch : Type := mkBatch {
  batch_id : string;
  batch_userId : string;
  batch_generationTopicId : string;
  batch_provider : string;
  batch_model : string;
  batch_prompt : string;
  batch_width : option Z;
  batch_height : option Z;
  batch_config : Params
}.

Record Generation : Type := mkGeneration {
  gen_id : string;
  gen_userId : string;
  gen_generationBatchId : string;
  gen_seed : option Z;
  gen_asyncTaskId : option string
}.

Record AsyncTask : Type := mkTask {
  task_id : string;
  task_userId : string;
  task_status : AsyncTaskStatus;
  task_type : AsyncTaskType;
  task_error : option AsyncTaskError
}.

#[export] Instance GenerationBatch_eq_dec : EqDecision GenerationBatch.
Proof. solve_decision. Defined.
#[export] Instance Generation_eq_dec : EqDecision Generation.
Proof. solve_decision. Defined.
#[export] Instance AsyncTask_eq_dec : EqDecision AsyncTask.
Proof. solve_decision. Defined.

(** What [.values(...)] receives for the two inserts with a payload. *)
Record NewGenerationBatch : Type := mkNewBatch {
  nb_userId : string;
  nb_generationTopicId : string;
  nb_provider : string;
  nb_model : string;
  nb_prompt : string;
  nb_width : option Z;
  nb_height : option Z;
  nb_config : Params
}.

Record NewGeneration : Type := mkNewGeneration {
  ng_userId : string;
  ng_generationBatchId : string;
  ng_seed : option Z
}.

Record Store : Type := mkStore {
  generationBatches : list GenerationBatch;
  generations : list Generation;
  asyncTasks : list AsyncTask
}.

#[export] Instance Store_eq_dec : EqDecision Store.
Proof. solve_decision. Defined.

(** The database together with a counter of the requests made to it; the
    counter selects the answers of the collaborators in [Env]. *)
Record World : Type := mkWorld {
  store : Store;
  clock : nat
}.

Definition tick (w : World) : World :=
  {| store := store w; clock := S (clock w) |}.

Definition setStore (s : Store) (w : World) : World :=
  {| store := s; clock := clock w |}.

(* ===================================================================== *)
(** ** Collaborators *)
(* ===================================================================== *)

(** What the synchronous part of the handler depends on.
    - [getKeyFromFullUrl] is [fileService.getKeyFromFullUrl]; [inl e] is a
      throw.
    - [generateUniqueSeeds] is the function of [@/utils/number].
    - [idGenerator k] is the primary key the database default produces for
      the row inserted at time [k].
    - [txFault k] makes the statement issued at time [k] fail. *)
Record Env : Type := mkEnv {
  getKeyFromFullUrl : string -> Thrown + string;
  generateUniqueSeeds : Z -> list Z;
  idGenerator : nat -> string;
  txFault : nat -> option Thrown
}.

(** Modelled from the spec: [generateUniqueSeeds] of [@/utils/number] is
    imported by the router but its body is not part of the sources at
    hand.  The spec says it is used to "generate imageNum unique seeds":
    for a count [n] the result holds [n] numbers, pairwise distinct. *)
Definition UniqueSeeds (gen : Z -> list Z) (n : Z) : Prop :=
  length (gen n) = Z.to_nat n /\ NoDup (gen n).

(* ===================================================================== *)
(** ** Lines 94-116: the configuration stored with the batch *)
(* ===================================================================== *)

(** [urls.map(f)] where [f] may throw: the first throw aborts the map. *)
Fixpoint mapOrThrow {A B : Type} (f : A -> Thrown + B) (l : list A)
  : Thrown + list B :=
  match l with
  | [] => inr []
  | x :: rest =>
      match f x with
      | inl e => inl e
      | inr y =>
          match mapOrThrow f rest with
          | inl e => inl e
          | inr ys => inr (y :: ys)
          end
      end
  end.

(** [configForDatabase] after the [if] of lines 96-116. *)
Definition configForDatabase (env : Env) (p : Params) : Params :=
  match imageUrls p with
  | Some (url :: urls) =>
      match mapOrThrow (getKeyFromFullUrl env) (url :: urls) with
      | inr imageKeys => withImageUrls p imageKeys
      | inl _ => p
      end
  | _ => p
  end.

(* ===================================================================== *)
(** ** Statements inside a transaction *)
(* ===================================================================== *)

(** A statement either returns a value and a new world or throws. *)
Inductive Result (A : Type) : Type :=
| Ok (a : A) (w : World)
| Throw (e : Thrown).
Arguments Ok {A} a w.
Arguments Throw {A} e.

Definition Tx (A : Type) : Type := World -> Result A.

Definition ret {A : Type} (a : A) : Tx A := fun w => Ok a w.

Definition bind {A B : Type} (m : Tx A) (k : A -> Tx B) : Tx B :=
  fun w =>
    match m w with
    | Ok a w' => k a w'
    | Throw e => Throw e
    end.

Notation "'await' x '<-' m ';;' k" := (bind m (fun x => k))
  (at level 10, x name, m at level 99, k at level 200).

(** [Promise.all(items.map(async (item) => ...))] inside the transaction:
    the callbacks touch disjoint rows, so the committed state is the one
    obtained by running them in the order of the array. *)
Fixpoint forEachTx {A B : Type} (f : A -> Tx B) (items : list A)
  : Tx (list B) :=
  match items with
  | [] => ret []
  | x :: rest =>
      await y <- f x ;;
      await ys <- forEachTx f rest ;;
      ret (y :: ys)
  end.

Definition duplicateKey : Thrown :=
  ErrorInstance "duplicate key value violates unique constraint".

Definition emptyValues : Thrown :=
  ErrorInstance "values() must be called with at least one value".

Section Statements.
Context (env : Env).

(** Sending one statement to the database: it fails when the fault
    oracle says so. *)
Definition statement : Tx unit :=
  fun w =>
    match txFault env (clock w) with
    | Some e => Throw e
    | None => Ok tt (tick w)
    end.

(** The primary key of a new row; the insert fails when the key is
    already used in the table. *)
Definition freshId (used : list string) : Tx string :=
  fun w =>
    let id := idGenerator env (clock w) in
    if decide (id ∈ used) then Throw duplicateKey else Ok id (tick w).

Definition addBatch (row : GenerationBatch) : Tx unit :=
  fun w =>
    let s := store w in
    Ok tt (setStore {| generationBatches := generationBatches s ++ [row];
                       generations := generations s;
                       asyncTasks := asyncTasks s |} w).

Definition addGeneration (row : Generation) : Tx unit :=
  fun w =>
    let s := store w in
    Ok tt (setStore {| generationBatches := generationBatches s;
                       generations := generations s ++ [row];
                       asyncTasks := asyncTasks s |} w).

Definition addTask (row : AsyncTask) : Tx unit :=
  fun w =>
    let s := store w in
    Ok tt (setStore {| generationBatches := generationBatches s;
                       generations := generations s;
                       asyncTasks := asyncTasks s ++ [row] |} w).

Definition usedBatchIds : Tx (list string) :=
  fun w => Ok (map batch_id (generationBatches (store w))) w.
Definition usedGenerationIds : Tx (list string) :=
  fun w => Ok (map gen_id (generations (store w))) w.
Definition usedTaskIds : Tx (list string) :=
  fun w => Ok (map task_id (asyncTasks (store w))) w.

(** [tx.insert(generationBatches).values(newBatch).returning()] *)
Definition insertBatch (nb : NewGenerationBatch) : Tx GenerationBatch :=
  await _ <- statement ;;
  await used <- usedBatchIds ;;
  await id <- freshId used ;;
  let row :=
    {| batch_id := id; batch_userId := nb_userId nb;
       batch_generationTopicId := nb_generationTopicId nb;
       batch_provider := nb_provider nb; batch_model := nb_model nb;
       batch_prompt := nb_prompt nb; batch_width := nb_width nb;
       batch_height := nb_height nb; batch_config := nb_config nb |} in
  await _ <- addBatch row ;;
  ret row.

Definition insertGenerationRow (ng : NewGeneration) : Tx Generation :=
  await used <- usedGenerationIds ;;
  await id <- freshId used ;;
  let row :=
    {| gen_id := id; gen_userId := ng_userId ng;
       gen_generationBatchId := ng_generationBatchId ng;
       gen_seed := ng_seed ng; gen_asyncTaskId := None |} in
  await _ <- addGeneration row ;;
  ret row.

(** [tx.insert(generations).values(newGenerations).returning()]: one
    statement for all rows; the query builder refuses an empty array. *)
Definition insertGenerations (values : list NewGeneration)
  : Tx (list Generation) :=
  match values with
  | [] => fun _ => Throw emptyValues
  | _ :: _ =>
      await _ <- statement ;;
      forEachTx insertGenerationRow values
  end.

(** [tx.insert(asyncTasks).values({ userId, status, type }).returning()] *)
Definition insertAsyncTask (uid : string) (status : AsyncTaskStatus)
    (type : AsyncTaskType) : Tx AsyncTask :=
  await _ <- statement ;;
  await used <- usedTaskIds ;;
  await id <- freshId used ;;
  let row :=
    {| task_id := id; task_userId := uid; task_status := status;
       task_type := type; task_error := None |} in
  await _ <- addTask row ;;
  ret row.

Definition setAsyncTaskId (asyncTaskId : string) (g : Generation)
  : Generation :=
  {| gen_id := gen_id g; gen_userId := gen_userId g;
     gen_generationBatchId := gen_generationBatchId g;
     gen_seed := gen_seed g; gen_asyncTaskId := Some asyncTaskId |}.

(** The rows of [generations] after
    [update(generations).set({ asyncTaskId }).where(and(eq(id, gid),
    eq(userId, uid)))]. *)
Definition linkRows (gid uid asyncTaskId : string) (rows : list Generation)
  : list Generation :=
  map (fun g =>
         if decide (gen_id g = gid /\ gen_userId g = uid)
         then setAsyncTaskId asyncTaskId g else g) rows.

Definition updateGenerationTask (gid uid asyncTaskId : string) : Tx unit :=
  await _ <- statement ;;
  fun w =>
    let s := store w in
    Ok tt (setStore {| generationBatches := generationBatches s;
                       generations :=
                         linkRows gid uid asyncTaskId (generations s);
                       asyncTasks := asyncTasks s |} w).

End Statements.

(* ===================================================================== *)
(** ** Lines 119-189: the transactional write *)
(* ===================================================================== *)

(** The length [Array.from({ length: imageNum }, ...)] gives its result:
    a negative count gives the empty array. *)
Definition arrayLength (n : Z) : nat := Z.to_nat n.

Section Transaction.
Context (env : Env) (ctx : Ctx).

(** Lines 138-141. *)
Definition seedsFor (p : Params) (n : Z) : list (option Z) :=
  if hasSeedKey p
  then map Some (generateUniqueSeeds env n)
  else replicate (arrayLength n) None.

(** Lines 142-148; [seeds[index]] beyond the end of [seeds] is
    [undefined], stored as no seed. *)
Definition newGenerations (batch : GenerationBatch)
    (seeds : list (option Z)) (n : Z) : list NewGeneration :=
  map (fun index =>
         {| ng_userId := userId ctx;
            ng_generationBatchId := batch_id batch;
            ng_seed := default None (seeds !! index) |})
      (seq 0 (arrayLength n)).

(** Lines 160-181: the callback run for each created generation. *)
Definition createTaskFor (generation : Generation)
  : Tx (Generation * string) :=
  await createdAsyncTask <-
    insertAsyncTask env (userId ctx) Pending ImageGeneration ;;
  let asyncTaskId := task_id createdAsyncTask in
  await _ <-
    updateGenerationTask env (gen_id generation) (userId ctx) asyncTaskId ;;
  ret (generation, asyncTaskId).

(** The body passed to [serverDB.transaction]. *)
Definition createImageTransaction (input : CreateImageInput)
    (configForDb : Params)
  : Tx (GenerationBatch * list (Generation * string)) :=
  let p := params input in
  let newBatch :=
    {| nb_userId := userId ctx;
       nb_generationTopicId := generationTopicId input;
       nb_provider := provider input; nb_model := model input;
       nb_prompt := prompt p; nb_width := width p; nb_height := height p;
       nb_config := configForDb |} in
  await batch <- insertBatch env newBatch ;;
  let seeds := seedsFor p (imageNum input) in
  await createdGenerations <-
    insertGenerations env (newGenerations batch seeds (imageNum input)) ;;
  await generationsWithTasks <-
    forEachTx createTaskFor createdGenerations ;;
  ret (batch, generationsWithTasks).

End Transaction.

(** [serverDB.transaction(body)]: the writes of [body] are kept when it
    returns and discarded when it throws. *)
Definition transaction {A : Type} (body : Tx A) (w : World)
  : (Thrown + A) * World :=
  match body w with
  | Ok a w' => (inr a, w')
  | Throw e => (inl e, w)
  end.

(* ===================================================================== *)
(** ** Lines 196-269: dispatch and the status writes *)
(* ===================================================================== *)

(** The input of [asyncCaller.image.createImage]. *)
Record CreateImagePayload : Type := mkPayload {
  taskId : string;
  generationId : string;
  call_provider : string;
  call_model : string;
  call_params : Params
}.

#[export] Instance CreateImagePayload_eq_dec : EqDecision CreateImagePayload.
Proof. solve_decision. Defined.

(** How the promise of one remote call ends, if it ends. *)
Inductive CallOutcome : Type :=
| Fulfilled
| Rejected (e : Thrown)
| Unsettled.

(** The value passed to [asyncTaskModel.update]: [{ error, status }]. *)
Record TaskUpdate : Type := mkTaskUpdate {
  upd_error : option AsyncTaskError;
  upd_status : AsyncTaskStatus
}.

#[export] Instance TaskUpdate_eq_dec : EqDecision TaskUpdate.
Proof. solve_decision. Defined.

(** What the asynchronous part of the handler depends on.
    - [createAsyncCaller] is the outcome of [await createAsyncCaller(...)];
      [inl e] is a throw.
    - [createImageCall p] is the fate of the promise returned by
      [asyncCaller.image.createImage(p)].
    - [updateFault t] makes [asyncTaskModel.update(t, ...)] reject. *)
Record Background : Type := mkBackground {
  createAsyncCaller : Thrown + unit;
  createImageCall : CreateImagePayload -> CallOutcome;
  updateFault : string -> option Thrown
}.

(** The four [console.error] calls of the handler. *)
Inductive ConsoleError : Type :=
| TaskExecutionError (asyncTaskId : string) (e : Thrown)
| TaskUpdateFailed (asyncTaskId : string) (updateError : Thrown)
| ProcessAsyncTasksFailed (e : Thrown)
| BatchUpdateFailed (batchUpdateError : Thrown).

(** What the handler does to the outside, in order. *)
Inductive Effect : Type :=
| RemoteCall (p : CreateImagePayload)
| StatusWrite (asyncTaskId : string) (value : TaskUpdate)
| Console (m : ConsoleError).

#[export] Instance ConsoleError_eq_dec : EqDecision ConsoleError.
Proof. solve_decision. Defined.
#[export] Instance Effect_eq_dec : EqDecision Effect.
Proof. solve_decision. Defined.

Definition applyUpdate (value : TaskUpdate) (t : AsyncTask) : AsyncTask :=
  {| task_id := task_id t; task_userId := task_userId t;
     task_status := upd_status value; task_type := task_type t;
     task_error := upd_error value |}.

(** Modelled from the spec: [AsyncTaskModel.update] of
    [@/database/models/asyncTask] is called by the router but its body is
    not part of the sources at hand.  The spec describes the "update task"
    operation as a single-row mutation keyed by task id and owning user,
    with input [{taskId, status, error?}], that is a no-op when the task no
    longer exists and whose failure is seen as a rejected future. *)
Definition asyncTaskModel_update (bg : Background) (uid asyncTaskId : string)
    (value : TaskUpdate) (s : Store) : Thrown + Store :=
  match updateFault bg asyncTaskId with
  | Some e => inl e
  | None =>
      inr {| generationBatches := generationBatches s;
             generations := generations s;
             asyncTasks :=
               map (fun t =>
                      if decide (task_id t = asyncTaskId /\ task_userId t = uid)
                      then applyUpdate value t else t) (asyncTasks s) |}
  end.

(** [Promise.allSettled(promises)] is fulfilled with the settlements of
    the promises, rejected or not. *)
Definition allSettled {A : Type} (settlements : list (Thrown + A))
  : Thrown + list (Thrown + A) := inr settlements.

Section Dispatch.
Context (bg : Background) (ctx : Ctx).

(** Lines 219-225. *)
Definition payloadFor (input : CreateImageInput)
    (item : Generation * string) : CreateImagePayload :=
  {| taskId := snd item; generationId := gen_id (fst item);
     call_provider := provider input; call_model := model input;
     call_params := params input |}.

(** Lines 235-241. *)
Definition rejectionUpdate (e : Thrown) : TaskUpdate :=
  {| upd_error :=
       Some (mkAsyncTaskError ServerError (messageOr e "Unknown error"));
     upd_status := Error |}.

(** Lines 257-263. *)
Definition fallbackUpdate (e : Thrown) : TaskUpdate :=
  {| upd_error :=
       Some (mkAsyncTaskError ServerError
               (errorMessageOr e "Failed to process async tasks"));
     upd_status := Error |}.

(** Lines 229-245: the [.catch] continuation of one remote call. *)
Definition onRejected (asyncTaskId : string) (e : Thrown) (s : Store)
  : Store * list Effect :=
  let value := rejectionUpdate e in
  match asyncTaskModel_update bg (userId ctx) asyncTaskId value s with
  | inr s' =>
      (s', [Console (TaskExecutionError asyncTaskId e);
            StatusWrite asyncTaskId value])
  | inl updateError =>
      (s, [Console (TaskExecutionError asyncTaskId e);
           StatusWrite asyncTaskId value;
           Console (TaskUpdateFailed asyncTaskId updateError)])
  end.

(** Lines 226-245: what happens when the promise of [call] settles.  The
    [.then] branch only writes to the debug log. *)
Definition settle (call : CreateImagePayload) (s : Store)
  : Store * list Effect :=
  match createImageCall bg call with
  | Fulfilled => (s, [])
  | Rejected e => onRejected (taskId call) e s
  | Unsettled => (s, [])
  end.

(** Lines 256-264: the updates mapped over [generationsWithTasks], with
    the settlement of each. *)
Fixpoint issueFallbackUpdates (e : Thrown)
    (items : list (Generation * string)) (s : Store)
  : Store * list (Thrown + unit) * list Effect :=
  match items with
  | [] => (s, [], [])
  | (_, asyncTaskId) :: rest =>
      let value := fallbackUpdate e in
      let '(s1, settlement) :=
        match asyncTaskModel_update bg (userId ctx) asyncTaskId value s with
        | inr s' => (s', inr tt)
        | inl updateError => (s, inl updateError)
        end in
      let '(s2, settlements, effects) :=
        issueFallbackUpdates e rest s1 in
      (s2, settlement :: settlements,
       StatusWrite asyncTaskId value :: effects)
  end.

(** Lines 249-269: the [catch] around the dispatch. *)
Definition onDispatchFailure (e : Thrown)
    (items : list (Generation * string)) (s : Store)
  : Store * list Effect :=
  let '(s', settlements, effects) := issueFallbackUpdates e items s in
  match allSettled settlements with
  | inr _ => (s', Console (ProcessAsyncTasksFailed e) :: effects)
  | inl batchUpdateError =>
      (s', Console (ProcessAsyncTasksFailed e) :: effects
           ++ [Console (BatchUpdateFailed batchUpdateError)])
  end.

(** Lines 196-269. *)
Definition dispatch (input : CreateImageInput)
    (generationsWithTasks : list (Generation * string)) (s : Store)
  : Store * list Effect :=
  match createAsyncCaller bg with
  | inr _ => (s, map (fun item => RemoteCall (payloadFor input item))
                     generationsWithTasks)
  | inl e => onDispatchFailure e generationsWithTasks s
  end.

End Dispatch.

(* ===================================================================== *)
(** ** The handler and what follows it *)
(* ===================================================================== *)

(** The value returned at lines 278-284. *)
Record Response : Type := mkResponse {
  success : bool;
  data_batch : GenerationBatch;
  data_generations : list Generation
}.

#[export] Instance Response_eq_dec : EqDecision Response.
Proof. solve_decision. Defined.

(** A request seen from outside: what the caller receives ([inl e] is a
    failed request), the database, and the effects so far. *)
Record Run : Type := mkRun {
  response : Thrown + Response;
  db : Store;
  trace : list Effect
}.

(** [imageRouter.createImage], lines 88-285. *)
Definition createImage (env : Env) (bg : Background) (ctx : Ctx)
    (input : CreateImageInput) (w : World) : Run :=
  let configForDb := configForDatabase env (params input) in
  match transaction (createImageTransaction env ctx input configForDb) w with
  | (inl e, w') => {| response := inl e; db := store w'; trace := [] |}
  | (inr (createdBatch, generationsWithTasks), w') =>
      let '(s, effects) :=
        dispatch bg ctx input generationsWithTasks (store w') in
      let createdGenerations := map fst generationsWithTasks in
      {| response :=
           inr {| success := true; data_batch := createdBatch;
                  data_generations := createdGenerations |};
         db := s; trace := effects |}
  end.

(** The remote calls issued during a run. *)
Definition dispatched (effects : list Effect) : list CreateImagePayload :=
  omap (fun ef => match ef with RemoteCall p => Some p | _ => None end)
       effects.

(** The status writes issued during a run. *)
Definition statusWrites (effects : list Effect)
  : list (string * TaskUpdate) :=
  omap (fun ef =>
          match ef with StatusWrite t v => Some (t, v) | _ => None end)
       effects.

(** The console output of a run. *)
Definition consoleErrors (effects : list Effect) : list ConsoleError :=
  omap (fun ef => match ef with Console m => Some m | _ => None end)
       effects.

(** After the handler has returned, the promises of the remote calls
    settle in some order [order]; each settlement runs its continuation
    against the database of that moment. *)
Fixpoint background (bg : Background) (ctx : Ctx)
    (order : list CreateImagePayload) (r : Run) : Run :=
  match order with
  | [] => r
  | call :: rest =>
      let '(s, effects) := settle bg ctx call (db r) in
      background bg ctx rest
        {| response := response r; db := s; trace := trace r ++ effects |}
  end.

(* ===================================================================== *)
(** ** Vocabulary of the statements *)
(* ===================================================================== *)

(** What a created generation row owes to the value it was made from. *)
Definition rowOf (ng : NewGeneration) (g : Generation) : Prop :=
  gen_userId g = ng_userId ng
  /\ gen_generationBatchId g = ng_generationBatchId ng
  /\ gen_seed g = ng_seed ng
  /\ gen_asyncTaskId g = None.

(** What the rows created from [newGenerations] look like. *)
Definition freshGenerationOf (uid : string) (batch : GenerationBatch)
    (g : Generation) : Prop :=
  gen_userId g = uid
  /\ gen_generationBatchId g = batch_id batch
  /\ gen_asyncTaskId g = None.

(** What a created task row looks like. *)
Definition pendingTaskOf (uid : string) (t : AsyncTask) : Prop :=
  task_userId t = uid /\ task_status t = Pending
  /\ task_type t = ImageGeneration /\ task_error t = None.

(** A returned generation row, as the database holds it once it has been
    given its task. *)
Definition linked (item : Generation * string) : Generation :=
  setAsyncTaskId (snd item) (fst item).

(** The generation rows after the updates of the pairs [items], in
    order. *)
Definition linkAll (uid : string) (items : list (Generation * string))
    (rows : list Generation) : list Generation :=
  fold_left (fun acc item => linkRows (gen_id (fst item)) uid (snd item) acc)
            items rows.

(** Every primary key in use. *)
Definition allIds (s : Store) : list string :=
  map batch_id (generationBatches s) ++ map gen_id (generations s)
  ++ map task_id (asyncTasks s).

(** From world [w] on, no statement fails and the generated keys are new
    and pairwise distinct. *)
Definition Accepts (env : Env) (w : World) : Prop :=
  (forall k, txFault env k = None)
  /\ (forall k, clock w <= k -> idGenerator env k ∉ allIds (store w))
  /\ (forall j k, clock w <= j -> j < k ->
        idGenerator env j <> idGenerator env k).

(** [m] returns in every accepting world, and leaves it accepting. *)
Definition Succeeds (env : Env) {A : Type} (m : Tx A) : Prop :=
  forall w, Accepts env w -> exists a w', m w = Ok a w' /\ Accepts env w'.

(** Whether the fallback write reaches the row [t]. *)
Definition reached (bg : Background) (ctx : Ctx)
    (items : list (Generation * string)) (t : AsyncTask) : Prop :=
  task_id t ∈ map snd items /\ task_userId t = userId ctx
  /\ updateFault bg (task_id t) = None.

#[export] Instance reached_dec bg ctx items t :
  Decision (reached bg ctx items t).
Proof. unfold reached. apply _. Defined.

(** A row keeps its identity, and its status stays or becomes Error. *)
Definition statusStep (t t' : AsyncTask) : Prop :=
  task_id t' = task_id t
  /\ (task_status t' = task_status t \/ task_status t' = Error).



(* ===================================================================== *)
(** ** A concrete request *)
(* ===================================================================== *)

Module Demo.

(** Keys "id-0", "id-1", ... *)
Definition ids (k : nat) : string :=
  ("id-" ++ NilEmpty.string_of_uint (Nat.to_uint k))%string.

Definition resolver (url : string) : Thrown + string :=
  if decide (url = "https://cdn/x.png") then inr "files/x.png"
  else inl (ErrorInstance "Invalid URL").

Definition seeds (n : Z) : list Z :=
  map (fun i => (Z.of_nat i * 7919 + 13)%Z) (seq 0 (Z.to_nat n)).

Definition env : Env :=
  {| getKeyFromFullUrl := resolver; generateUniqueSeeds := seeds;
     idGenerator := ids; txFault := fun _ => None |}.

(** The same database, losing the connection at the eighth request:
    the insert of the second task. *)
Definition faultyEnv : Env :=
  {| getKeyFromFullUrl := resolver; generateUniqueSeeds := seeds;
     idGenerator := ids;
     txFault := fun k => if decide (k = 8) then
                           Some (ErrorInstance "connection lost")
                         else None |}.

Definition ctx : Ctx := {| userId := "user-1" |}.

Definition parameters : Params :=
  {| prompt := "a lighthouse at dusk";
     imageUrls := Some ["https://cdn/x.png"];
     width := Some 1024%Z; height := Some 768%Z;
     seed := Some None; steps := None; cfg := None;
     passthrough := [("style", "vivid")] |}.

Definition input : CreateImageInput :=
  {| generationTopicId := "topic-1"; provider := "openai";
     model := "gpt-image-1"; imageNum := 2; params := parameters |}.

(** The same request with a seed value and a URL the resolver refuses. *)
Definition otherInput : CreateImageInput :=
  {| generationTopicId := "topic-1"; provider := "openai";
     model := "gpt-image-1"; imageNum := 2;
     params :=
       {| prompt := "a lighthouse at dusk";
          imageUrls := Some ["https://cdn/x.png"; "blob:local"];
          width := Some 1024%Z; height := Some 768%Z;
          seed := Some (Some 42%Z); steps := None; cfg := None;
          passthrough := [] |} |}.

Definition emptyWorld : World :=
  {| store := {| generationBatches := []; generations := [];
                 asyncTasks := [] |};
     clock := 0 |}.

(** Every remote call is fulfilled. *)
Definition quiet : Background :=
  {| createAsyncCaller := inr tt; createImageCall := fun _ => Fulfilled;
     updateFault := fun _ => None |}.

Definition lostReply : Thrown := ErrorInstance "fetch failed".

(** The call of the first task rejects, the other one is fulfilled. *)
Definition firstRejects : Background :=
  {| createAsyncCaller := inr tt;
     createImageCall := fun call =>
       if decide (taskId call = "id-6") then Rejected lostReply
       else Fulfilled;
     updateFault := fun _ => None |}.

(** The caller cannot be built and the status write of the second task
    fails. *)
Definition noCaller : Background :=
  {| createAsyncCaller := inl (ErrorInstance "caller unavailable");
     createImageCall := fun _ => Unsettled;
     updateFault := fun t => if decide (t = "id-9") then
                               Some (ErrorInstance "connection lost")
                             else None |}.

Definition batch : GenerationBatch :=
  {| batch_id := "id-1"; batch_userId := "user-1";
     batch_generationTopicId := "topic-1"; batch_provider := "openai";
     batch_model := "gpt-image-1"; batch_prompt := "a lighthouse at dusk";
     batch_width := Some 1024%Z; batch_height := Some 768%Z;
     batch_config := withImageUrls parameters ["files/x.png"] |}.

Definition generation1 : Generation :=
  {| gen_id := "id-3"; gen_userId := "user-1";
     gen_generationBatchId := "id-1"; gen_seed := Some 13%Z;
     gen_asyncTaskId := None |}.

Definition generation2 : Generation :=
  {| gen_id := "id-4"; gen_userId := "user-1";
     gen_generationBatchId := "id-1"; gen_seed := Some 7932%Z;
     gen_asyncTaskId := None |}.

Definition items : list (Generation * string) :=
  [(generation1, "id-6"); (generation2, "id-9")].

Definition reply : Response :=
  {| success := true; data_batch := batch;
     data_generations := [generation1; generation2] |}.

Definition call1 : CreateImagePayload := payloadFor input (generation1, "id-6").
Definition call2 : CreateImagePayload := payloadFor input (generation2, "id-9").

Definition committed : World :=
  {| store :=
       {| generationBatches := [batch];
          generations := [setAsyncTaskId "id-6" generation1;
                          setAsyncTaskId "id-9" generation2];
          asyncTasks :=
            [ {| task_id := "id-6"; task_userId := "user-1";
                 task_status := Pending; task_type := ImageGeneration;
                 task_error := None |};
              {| task_id := "id-9"; task_userId := "user-1";
                 task_status := Pending; task_type := ImageGeneration;
                 task_error := None |} ] |};
     clock := 11 |}.

End Demo.


(* ===================================================================== *)
(** ** The settlements, row by row *)
(* ===================================================================== *)

(** The task row [t] once the promise of [call] has settled. *)
Definition settleRow (bg : Background) (ctx : Ctx) (call : CreateImagePayload)
    (t : AsyncTask) : AsyncTask :=
  match createImageCall bg call with
  | Rejected e =>
      if decide (task_id t = taskId call /\ task_userId t = userId ctx
                 /\ updateFault bg (taskId call) = None)
      then applyUpdate (rejectionUpdate e) t else t
  | _ => t
  end.

(** The task row [t] once the promises of [order] have settled, in that
    order. *)
Definition settledRow (bg : Background) (ctx : Ctx)
    (order : list CreateImagePayload) (t : AsyncTask) : AsyncTask :=
  fold_left (fun row call => settleRow bg ctx call row) order t.




(* ===================================================================== *)
(** ** The client store: [createImage] and [recreateImage]
       (src/store/image/slices/createImage/action.ts) *)
(* ===================================================================== *)

Module Client.

(** [`${n}`] for a non-negative integer. *)
Definition decimal (n : N) : string := NilEmpty.string_of_uint (N.to_uint n).

(** The placeholder rows of [@/types/generation] that [createTempBatch]
    builds; [tg_createdAt] and [tb_createdAt] hold the clock reading of
    [new Date()]. *)
Record Task : Type := mkTask {
  tt_id : string;
  tt_status : AsyncTaskStatus
}.

Record Generation : Type := mkGeneration {
  tg_id : string;
  tg_asset : option string;
  tg_seed : option Z;
  tg_createdAt : N;
  tg_asyncTaskId : option string;
  tg_task : Task
}.

Record GenerationBatch : Type := mkGenerationBatch {
  tb_id : string;
  tb_provider : string;
  tb_model : string;
  tb_prompt : string;
  tb_width : option Z;
  tb_height : option Z;
  tb_config : Params;
  tb_createdAt : N;
  tb_generations : list Generation
}.

(** [value || null] on an optional number: zero is falsy. *)
Definition orNull (value : option Z) : option Z :=
  match value with
  | Some 0%Z => None
  | _ => value
  end.

(** Lines 37-49: the loop of [createTempBatch], [count] iterations from
    index [i] on.  [now k] is the [k]-th reading of the clock since the
    action started; an iteration reads it three times, for the id, for
    [createdAt] and for the task id. *)
Fixpoint tempGenerations (now : nat -> N) (count i k : nat)
  : list Generation * nat :=
  match count with
  | O => ([], k)
  | S count' =>
      let generation :=
        {| tg_id := "temp-gen-" +:+ decimal (now k) +:+ "-"
                    +:+ decimal (N.of_nat i);
           tg_asset := None;
           tg_seed := None;
           tg_createdAt := now (S k);
           tg_asyncTaskId := None;
           tg_task :=
             {| tt_id := "temp-task-" +:+ decimal (now (S (S k))) +:+ "-"
                         +:+ decimal (N.of_nat i);
                tt_status := Pending |} |} in
      let '(rest, k') := tempGenerations now count' (S i) (S (S (S k))) in
      (generation :: rest, k')
  end.

(** Lines 24-62.  The loop [for (let i = 0; i < imageNum; i++)] runs
    [imageNum] times, and not at all for a count below one. *)
Definition createTempBatch (now : nat -> N) (provider model prompt : string)
    (config : Params) (imageNum : Z) (width height : option Z) (k : nat)
  : GenerationBatch * nat :=
  let tempBatchId := "temp-" +:+ decimal (now k) in
  let '(tempGenerations, k') :=
    tempGenerations now (Z.to_nat imageNum) 0 (S k) in
  ({| tb_id := tempBatchId; tb_provider := provider; tb_model := model;
      tb_prompt := prompt; tb_width := orNull width;
      tb_height := orNull height; tb_config := config;
      tb_createdAt := now k'; tb_generations := tempGenerations |},
   S k').

(** What the two actions read from the store through the selectors. *)
Record ImageStore : Type := mkImageStore {
  s_imageNum : Z;
  s_parameters : option Params;
  s_provider : string;
  s_model : string;
  s_activeGenerationTopicId : option string;
  s_generationBatch : string -> option GenerationBatch
}.

(** The collaborators of the actions: the clock, two store actions that
    return promises, the image service and the refresh of the batches.
    [inl e] is a rejection with [e]. *)
Record Services : Type := mkServices {
  now : nat -> N;
  createGenerationTopic : list string -> Thrown + string;
  removeGenerationBatch : string -> string -> Thrown + unit;
  imageService_createImage : CreateImageInput -> Thrown + unit;
  refreshGenerationBatches : Thrown + unit
}.

(** What an action does to the store and to its collaborators, in
    order.  The synchronous store actions -- [set],
    [addOptimisticGenerationBatch] and [switchGenerationTopic] -- are taken
    to return normally. *)
Inductive Call : Type :=
| SetIsCreating (value : bool)
| CreateGenerationTopic (prompts : list string)
| AddOptimisticGenerationBatch (topicId : string) (batch : GenerationBatch)
| SwitchGenerationTopic (topicId : string)
| RemoveGenerationBatch (batchId topicId : string)
| ImageServiceCreateImage (payload : CreateImageInput)
| RefreshGenerationBatches.

Record Outcome : Type := mkOutcome {
  result : Thrown + unit;
  calls : list Call
}.

(** [isCreating] after the calls, starting from [before]. *)
Definition isCreatingAfter (before : bool) (cs : list Call) : bool :=
  fold_left (fun flag c =>
               match c with SetIsCreating value => value | _ => flag end)
            cs before.

(** The requests sent to the image service among the calls. *)
Definition requests (cs : list Call) : list CreateImageInput :=
  omap (fun c =>
          match c with ImageServiceCreateImage payload => Some payload
                  | _ => None end) cs.

(** The value [x] when [!x] is false: a string that is present and not
    empty. *)
Definition present (x : option string) : option string :=
  match x with
  | Some EmptyString => None
  | _ => x
  end.

(** Lines 129-143 and 176-190: the [try { ... } finally { ... }] both
    actions end with. *)
Definition requestAndRefresh (sv : Services) (payload : CreateImageInput)
    (before : list Call) : Outcome :=
  match imageService_createImage sv payload with
  | inl e =>
      {| result := inl e;
         calls := before ++ [ImageServiceCreateImage payload;
                             SetIsCreating false] |}
  | inr _ =>
      match refreshGenerationBatches sv with
      | inl e =>
          {| result := inl e;
             calls := before ++ [ImageServiceCreateImage payload;
                                 RefreshGenerationBatches;
                                 SetIsCreating false] |}
      | inr _ =>
          {| result := inr tt;
             calls := before ++ [ImageServiceCreateImage payload;
                                 RefreshGenerationBatches;
                                 SetIsCreating false] |}
      end
  end.

(** Lines 72-144. *)
Definition createImage (sv : Services) (store : ImageStore) : Outcome :=
  let started := [SetIsCreating true] in
  match s_parameters store with
  | None =>
      {| result := inl (ErrorInstance "parameters is not initialized");
         calls := started |}
  | Some parameters =>
      if decide (prompt parameters = EmptyString) then
        {| result := inl (ErrorInstance "prompt is empty");
           calls := started |}
      else
        let tempBatch :=
          fst (createTempBatch (now sv) (s_provider store) (s_model store)
                 (prompt parameters) parameters (s_imageNum store)
                 (width parameters) (height parameters) 0) in
        let payload generationTopicId :=
          {| generationTopicId := generationTopicId;
             provider := s_provider store; model := s_model store;
             imageNum := s_imageNum store; params := parameters |} in
        match present (s_activeGenerationTopicId store) with
        | None =>
            let prompts := [prompt parameters] in
            match createGenerationTopic sv prompts with
            | inl e =>
                {| result := inl e;
                   calls := started ++ [CreateGenerationTopic prompts] |}
            | inr generationTopicId =>
                requestAndRefresh sv (payload generationTopicId)
                  (started
                   ++ [CreateGenerationTopic prompts;
                       AddOptimisticGenerationBatch generationTopicId
                         tempBatch;
                       SwitchGenerationTopic generationTopicId])
            end
        | Some generationTopicId =>
            requestAndRefresh sv (payload generationTopicId)
              (started
               ++ [AddOptimisticGenerationBatch generationTopicId tempBatch])
        end
  end.

(** Reading [batch.provider] when the selector found no batch. *)
Definition batchIsUndefined : Thrown :=
  ErrorInstance "Cannot read properties of undefined (reading 'provider')".

(** Lines 146-191. *)
Definition recreateImage (sv : Services) (store : ImageStore)
    (generationBatchId : string) : Outcome :=
  let started := [SetIsCreating true] in
  match present (s_activeGenerationTopicId store) with
  | None =>
      {| result := inl (ErrorInstance "No active generation topic");
         calls := started |}
  | Some activeGenerationTopicId =>
      let removed :=
        started
        ++ [RemoveGenerationBatch generationBatchId
              activeGenerationTopicId] in
      match removeGenerationBatch sv generationBatchId
              activeGenerationTopicId with
      | inl e => {| result := inl e; calls := removed |}
      | inr _ =>
          match s_generationBatch store generationBatchId with
          | None => {| result := inl batchIsUndefined; calls := removed |}
          | Some batch =>
              let tempBatch :=
                fst (createTempBatch (now sv) (tb_provider batch)
                       (tb_model batch) (tb_prompt batch) (tb_config batch)
                       (s_imageNum store) (tb_width batch) (tb_height batch)
                       0) in
              requestAndRefresh sv
                {| generationTopicId := activeGenerationTopicId;
                   provider := tb_provider batch; model := tb_model batch;
                   imageNum := s_imageNum store;
                   params := tb_config batch |}
                (removed
                 ++ [AddOptimisticGenerationBatch activeGenerationTopicId
                       tempBatch])
          end
      end
  end.

(** How an action ends with respect to the request: a refresh only after
    an accepted request, success only after request and refresh, and a
    rejected request passed on without a refresh. *)
Definition endsAsRequested (sv : Services) (o : Outcome) : Prop :=
  (In RefreshGenerationBatches (calls o) ->
   exists payload,
     payload ∈ requests (calls o)
     /\ imageService_createImage sv payload = inr tt)
  /\ (result o = inr tt ->
      exists before payload,
        calls o
        = before ++ [ImageServiceCreateImage payload;
                     RefreshGenerationBatches;
                     SetIsCreating false]
        /\ imageService_createImage sv payload = inr tt
        /\ refreshGenerationBatches sv = inr tt)
  /\ (forall payload e,
        payload ∈ requests (calls o) ->
        imageService_createImage sv payload = inl e ->
        result o = inl e
        /\ ~ In RefreshGenerationBatches (calls o)).

End Client.

(* ===================================================================== *)
(** ** The MCP system dependency check
       (src/server/services/mcp/deps/MCPSystemDepsCheckService.ts) *)
(* ===================================================================== *)

Module McpDeps.

(** The fields of [SystemDependency] the service reads.  An absent
    [versionParsingRequired] counts as [false]. *)
Record SystemDependency : Type := mkSystemDependency {
  dep_name : string;
  dep_checkCommand : option string;
  dep_requiredVersion : option string;
  dep_versionParsingRequired : bool
}.

Record SystemDependencyCheckResult : Type := mkCheckResult {
  res_error : option string;
  res_installed : bool;
  res_meetRequirement : bool;
  res_name : string;
  res_version : option string
}.

(** What the service takes from the JavaScript runtime and from the
    operating system: numbers with [parseFloat] and their comparisons,
    [String.prototype.trim], and [execPromise], whose [k]-th call gives
    [(stdout, stderr)] or rejects. *)
Record Runtime : Type := mkRuntime {
  number : Type;
  parseFloat : string -> number;
  greaterOrEqual : number -> number -> bool;
  greater : number -> number -> bool;
  lessOrEqual : number -> number -> bool;
  less : number -> number -> bool;
  strictEqual : number -> number -> bool;
  trim : string -> string;
  execPromise : nat -> string -> Thrown + (string * string)
}.

(** [\d] *)
Definition isDigit (c : ascii) : bool :=
  (48 <=? nat_of_ascii c)%nat && (nat_of_ascii c <=? 57)%nat.

(** [[<=>]] *)
Definition isOperator (c : ascii) : bool :=
  (c =? "<")%char || (c =? "=")%char || (c =? ">")%char.

(** [[Vv]] *)
Definition isV (c : ascii) : bool := (c =? "V")%char || (c =? "v")%char.

(** Whether every character of [s] satisfies [p]. *)
Fixpoint allChars (p : ascii -> bool) (s : string) : bool :=
  match s with
  | String c rest => p c && allChars p rest
  | EmptyString => true
  end.

Definition notDigit (c : ascii) : bool := negb (isDigit c).

(** What [\d*(\.\d+)*] takes, greedily, from the front of [s]. *)
Fixpoint numberTail (s : string) : string :=
  match s with
  | String c rest =>
      if isDigit c then String c (numberTail rest)
      else if (c =? ".")%char then
        match rest with
        | String d _ => if isDigit d then String c (numberTail rest)
                        else EmptyString
        | EmptyString => EmptyString
        end
      else EmptyString
  | EmptyString => EmptyString
  end.

(** The texts that [\d+(\.\d+)*] matches as a whole: digits, in groups
    that single dots separate. *)
Inductive Numeral : string -> Prop :=
| Numeral_digit c : isDigit c = true -> Numeral (String c EmptyString)
| Numeral_more c m : isDigit c = true -> Numeral m -> Numeral (String c m)
| Numeral_group c m :
    isDigit c = true -> Numeral m -> Numeral (String c (String "." m)).

(** The match of [\d+(\.\d+)*] at the front of [s], if any. *)
Definition numberAt (s : string) : option string :=
  match s with
  | String c rest => if isDigit c then Some (String c (numberTail rest))
                     else None
  | EmptyString => None
  end.

(** The longest run of operator characters at the front of [s], and what
    follows it. *)
Fixpoint operatorRun (s : string) : string * string :=
  match s with
  | String c rest =>
      if isOperator c then
        let '(run, after) := operatorRun rest in (String c run, after)
      else (EmptyString, s)
  | EmptyString => (EmptyString, EmptyString)
  end.

(** The match at the front of [s] of the requirement pattern, an optional
    group [[<=>]+] followed by a group [\d+(\.\d+)*]: the two groups.  A
    run of operator characters only takes part when a digit follows it
    directly. *)
Definition requirementAt (s : string) : option (option string * string) :=
  let '(run, after) := operatorRun s in
  match run, numberAt after with
  | String _ _, Some required => Some (Some run, required)
  | _, _ =>
      match numberAt s with
      | Some required => Some (None, required)
      | None => None
      end
  end.

(** [requiredVersion.match(...)] with the requirement pattern: the
    leftmost match. *)
Fixpoint matchRequirement (s : string) : option (option string * string) :=
  match s with
  | EmptyString => None
  | String _ rest =>
      match requirementAt s with
      | Some groups => Some groups
      | None => matchRequirement rest
      end
  end.

(** The match at the front of [s] of the version pattern, an optional
    [[Vv]] followed by [\d+(\.\d+)*]: the whole match. *)
Definition versionAt (s : string) : option string :=
  match s with
  | String c rest =>
      if isV c then
        match numberAt rest with
        | Some digits => Some (String c digits)
        | None => numberAt s
        end
      else numberAt s
  | EmptyString => None
  end.

(** [output.match(...)] with the version pattern: the leftmost match. *)
Fixpoint matchVersion (s : string) : option string :=
  match s with
  | EmptyString => None
  | String _ rest =>
      match versionAt s with
      | Some found => Some found
      | None => matchVersion rest
      end
  end.

(** [version.replace(/^[Vv]/, '')] *)
Definition stripV (s : string) : string :=
  match s with
  | String c rest => if isV c then rest else s
  | EmptyString => EmptyString
  end.

(** Lines 75-97: the [switch] on the operator. *)
Definition compareVersions (rt : Runtime) (operator : string)
    (currentVersionNum requiredNum : number rt) : bool :=
  if decide (operator = ">=") then
    greaterOrEqual rt currentVersionNum requiredNum
  else if decide (operator = ">") then greater rt currentVersionNum requiredNum
  else if decide (operator = "<=") then
    lessOrEqual rt currentVersionNum requiredNum
  else if decide (operator = "<") then less rt currentVersionNum requiredNum
  else strictEqual rt currentVersionNum requiredNum.

(** [x || fallback] for an optional string. *)
Definition orElse (x : option string) (fallback : string) : string :=
  match x with
  | Some (String c s) => String c s
  | _ => fallback
  end.

(** Lines 36: the command that is run. *)
Definition checkCommandOf (dependency : SystemDependency) : string :=
  orElse (dep_checkCommand dependency) (dep_name dependency +:+ " --version").

(** Lines 49-59: the reported version. *)
Definition versionOf (rt : Runtime) (dependency : SystemDependency)
    (stdout : string) : string :=
  let output := trim rt stdout in
  if dep_versionParsingRequired dependency then
    match matchVersion output with
    | Some versionMatch => versionMatch
    | None => output
    end
  else output.

(** Lines 61-99. *)
Definition meetsRequirement (rt : Runtime) (dependency : SystemDependency)
    (version : string) : bool :=
  match dep_requiredVersion dependency with
  | Some (String c s) =>
      let currentVersionNum := parseFloat rt (stripV version) in
      match matchRequirement (String c s) with
      | Some (operator, requiredVersion) =>
          compareVersions rt (default "=" operator) currentVersionNum
            (parseFloat rt requiredVersion)
      | None => true
      end
  | _ => true
  end.

(** Lines 33-119; [k] numbers the call of [execPromise]. *)
Definition checkSystemDependency (rt : Runtime) (k : nat)
    (dependency : SystemDependency) : SystemDependencyCheckResult :=
  match execPromise rt k (checkCommandOf dependency) with
  | inl error =>
      {| res_error := Some (errorMessageOr error "Unknown error");
         res_installed := false; res_meetRequirement := false;
         res_name := dep_name dependency; res_version := None |}
  | inr (stdout, stderr) =>
      if decide (stderr <> EmptyString /\ stdout = EmptyString) then
        {| res_error := Some stderr;
           res_installed := false; res_meetRequirement := false;
           res_name := dep_name dependency; res_version := None |}
      else
        let version := versionOf rt dependency stdout in
        {| res_error := None;
           res_installed := true;
           res_meetRequirement := meetsRequirement rt dependency version;
           res_name := dep_name dependency; res_version := Some version |}
  end.

(** The fields of [DeploymentOption] the service reads. *)
Record Connection : Type := mkConnection {
  conn_url : option string;
  conn_fields : list (string * string)
}.

Record DeploymentOption : Type := mkDeploymentOption {
  opt_systemDependencies : option (list SystemDependency);
  opt_installationMethod : string;
  opt_installationDetails : list (string * string);
  opt_connection : Connection;
  opt_isRecommended : option bool
}.

Record PackageInstallCheckResult : Type := mkPackageResult {
  pkg_installed : bool
}.

(** [InstallationChecker.checkPackageInstalled]; [inl e] is a
    rejection. *)
Definition InstallationChecker : Type :=
  list (string * string) -> Thrown + PackageInstallCheckResult.

(** [{ ...option.connection, type }] *)
Record CheckedConnection : Type := mkCheckedConnection {
  cc_connection : Connection;
  cc_type : string
}.

Record DeployOptionCheck : Type := mkDeployOptionCheck {
  allDependenciesMet : bool;
  connection : CheckedConnection;
  isRecommended : option bool;
  packageInstalled : bool;
  systemDependencies : list SystemDependencyCheckResult
}.

(** The prefixes of a required version that the leftmost match of the
    requirement pattern passes over: nothing, or characters without a
    digit among them, the last of which is neither a digit nor an
    operator character. *)
Definition skipped (pre : string) : Prop :=
  pre = EmptyString
  \/ exists junk sep,
       pre = junk +:+ String sep EmptyString
       /\ allChars notDigit junk = true
       /\ isDigit sep = false
       /\ isOperator sep = false.

(** The [V] or [v] that ends [s], if one does. *)
Fixpoint lastV (s : string) : string :=
  match s with
  | String c EmptyString => if isV c then s else EmptyString
  | String _ rest => lastV rest
  | EmptyString => EmptyString
  end.

(** Lines 25-28. *)
Definition registerChecker (method : string) (checker : InstallationChecker)
    (checkers : gmap string InstallationChecker)
  : gmap string InstallationChecker :=
  <[method := checker]> checkers.

(** Lines 135-138: the loop over the dependencies. *)
Fixpoint checkAll (rt : Runtime) (k : nat) (deps : list SystemDependency)
  : list SystemDependencyCheckResult :=
  match deps with
  | [] => []
  | dep :: rest => checkSystemDependency rt k dep :: checkAll rt (S k) rest
  end.

(** Lines 124-175. *)
Definition checkDeployOption (rt : Runtime)
    (checkers : gmap string InstallationChecker) (k : nat)
    (option : DeploymentOption) : Thrown + DeployOptionCheck :=
  let systemDependenciesResults :=
    match opt_systemDependencies option with
    | Some deps => checkAll rt k deps
    | None => []
    end in
  let finish packageInstalled :=
    {| allDependenciesMet :=
         forallb res_meetRequirement systemDependenciesResults;
       connection :=
         {| cc_connection := opt_connection option;
            cc_type :=
              match conn_url (opt_connection option) with
              | Some (String _ _) => "http"
              | _ => "stdio"
              end |};
       isRecommended := opt_isRecommended option;
       packageInstalled := packageInstalled;
       systemDependencies := systemDependenciesResults |} in
  match checkers !! opt_installationMethod option with
  | Some checker =>
      match checker (opt_installationDetails option) with
      | inl e => inl e
      | inr packageResult => inr (finish (pkg_installed packageResult))
      end
  | None => inr (finish false)
  end.

End McpDeps.

(* ===================================================================== *)
(** ** Sample data of the client store and of the dependency check *)
(* ===================================================================== *)

Module ClientDemo.

(** A clock that stands still, a topic service that answers "topic-9", and
    collaborators that all succeed. *)
Definition services : Client.Services :=
  {| Client.now := fun _ => 1700000000000%N;
     Client.createGenerationTopic := fun _ => inr "topic-9";
     Client.removeGenerationBatch := fun _ _ => inr tt;
     Client.imageService_createImage := fun _ => inr tt;
     Client.refreshGenerationBatches := inr tt |}.

Definition oldBatch : Client.GenerationBatch :=
  {| Client.tb_id := "batch-1"; Client.tb_provider := "openai";
     Client.tb_model := "dall-e-3";
     Client.tb_prompt := "a lighthouse at dusk";
     Client.tb_width := Some 1024%Z; Client.tb_height := Some 768%Z;
     Client.tb_config := Demo.parameters; Client.tb_createdAt := 0%N;
     Client.tb_generations := [] |}.

(** No topic is active. *)
Definition store : Client.ImageStore :=
  {| Client.s_imageNum := 2%Z; Client.s_parameters := Some Demo.parameters;
     Client.s_provider := "openai"; Client.s_model := "gpt-image-1";
     Client.s_activeGenerationTopicId := None;
     Client.s_generationBatch :=
       fun id => if decide (id = "batch-1") then Some oldBatch else None |}.

(** "topic-1" is active. *)
Definition storeWithTopic : Client.ImageStore :=
  {| Client.s_imageNum := 2%Z; Client.s_parameters := Some Demo.parameters;
     Client.s_provider := "openai"; Client.s_model := "gpt-image-1";
     Client.s_activeGenerationTopicId := Some "topic-1";
     Client.s_generationBatch :=
       fun id => if decide (id = "batch-1") then Some oldBatch else None |}.

Definition request : CreateImageInput :=
  {| generationTopicId := "topic-9"; provider := "openai";
     model := "gpt-image-1"; imageNum := 2; params := Demo.parameters |}.

Definition repeated : CreateImageInput :=
  {| generationTopicId := "topic-1"; provider := "openai";
     model := "dall-e-3"; imageNum := 2; params := Demo.parameters |}.

End ClientDemo.

Module McpDemo.

(** The digits at the front of [s] as a number, [acc] being the digits
    read so far. *)
Fixpoint leadingDigits (s : string) (acc : N) : N :=
  match s with
  | String c rest =>
      if McpDeps.isDigit c then
        leadingDigits rest (10 * acc + (N_of_ascii c - 48))%N
      else acc
  | EmptyString => acc
  end.

(** A runtime whose numbers are the naturals: [parseFloat] reads the
    digits before the first other character, [trim] finds nothing to
    remove, and two commands are installed. *)
Definition runtime : McpDeps.Runtime :=
  {| McpDeps.number := N;
     McpDeps.parseFloat := fun s => leadingDigits s 0%N;
     McpDeps.greaterOrEqual := fun a b => (b <=? a)%N;
     McpDeps.greater := fun a b => (b <? a)%N;
     McpDeps.lessOrEqual := N.leb;
     McpDeps.less := N.ltb;
     McpDeps.strictEqual := N.eqb;
     McpDeps.trim := fun s => s;
     McpDeps.execPromise := fun _ command =>
       if decide (command = "node --version") then
         inr ("v20.11.0", EmptyString)
       else if decide (command = "python3 --version") then
         inr ("Python 3.11.4", EmptyString)
       else inl (ErrorInstance "command not found") |}.

Definition node : McpDeps.SystemDependency :=
  {| McpDeps.dep_name := "node"; McpDeps.dep_checkCommand := None;
     McpDeps.dep_requiredVersion := Some ">= 18";
     McpDeps.dep_versionParsingRequired := true |}.

Definition python : McpDeps.SystemDependency :=
  {| McpDeps.dep_name := "python3"; McpDeps.dep_checkCommand := None;
     McpDeps.dep_requiredVersion := Some "latest";
     McpDeps.dep_versionParsingRequired := true |}.

Definition uv : McpDeps.SystemDependency :=
  {| McpDeps.dep_name := "uv"; McpDeps.dep_checkCommand := Some "uv -V";
     McpDeps.dep_requiredVersion := None;
     McpDeps.dep_versionParsingRequired := false |}.

Definition deployment : McpDeps.DeploymentOption :=
  {| McpDeps.opt_systemDependencies := Some [node; python; uv];
     McpDeps.opt_installationMethod := "npm";
     McpDeps.opt_installationDetails := [("packageName", "mcp-server")];
     McpDeps.opt_connection :=
       {| McpDeps.conn_url := None; McpDeps.conn_fields := [] |};
     McpDeps.opt_isRecommended := Some true |}.

Definition npmChecker : McpDeps.InstallationChecker :=
  fun _ => inr {| McpDeps.pkg_installed := true |}.

Definition checkers : gmap string McpDeps.InstallationChecker :=
  McpDeps.registerChecker "npm" npmChecker ∅.

(** What [checkDeployOption] reports for [deployment]: node 20 fails the
    requirement ">= 18", which is read as an equality, and uv is not
    installed. *)
Definition checked : McpDeps.DeployOptionCheck :=
  {| McpDeps.allDependenciesMet := false;
     McpDeps.connection :=
       {| McpDeps.cc_connection :=
            {| McpDeps.conn_url := None; McpDeps.conn_fields := [] |};
          McpDeps.cc_type := "stdio" |};
     McpDeps.isRecommended := Some true;
     McpDeps.packageInstalled := true;
     McpDeps.systemDependencies :=
       [ {| McpDeps.res_error := None; McpDeps.res_installed := true;
            McpDeps.res_meetRequirement := false;
            McpDeps.res_name := "node";
            McpDeps.res_version := Some "v20.11.0" |};
         {| McpDeps.res_error := None; McpDeps.res_installed := true;
            McpDeps.res_meetRequirement := true;
            McpDeps.res_name := "python3";
            McpDeps.res_version := Some "3.11.4" |};
         {| McpDeps.res_error := Some "command not found";
            McpDeps.res_installed := false;
            McpDeps.res_meetRequirement := false;
            McpDeps.res_name := "uv";
            McpDeps.res_version := None |} ] |}.

End McpDemo.

Module RouterDemo.

(** Every remote call rejects. *)
Definition allReject : Background :=
  {| createAsyncCaller := inr tt;
     createImageCall := fun _ => Rejected Demo.lostReply;
     updateFault := fun _ => None |}.

(** The request of [Demo.input], sent a second time. *)
Definition second : Run :=
  createImage Demo.env allReject Demo.ctx Demo.input Demo.committed.

End RouterDemo.


(* ===================================================================== *)
(** ** Reasoning about statements *)
(* ===================================================================== *)

Lemma bind_Ok {A B : Type} (m : Tx A) (k : A -> Tx B) w b w2 :
  bind m k w = Ok b w2 ->
  exists a w1, m w = Ok a w1 /\ k a w1 = Ok b w2.
Proof.
  unfold bind. destruct (m w) as [a w1 | e] eqn:Hm; [| discriminate].
  intros Hk. exists a, w1. split; [reflexivity | exact Hk].
Qed.

Lemma bind_Throw_l {A B : Type} (m : Tx A) (k : A -> Tx B) w e :
  m w = Throw e -> bind m k w = Throw e.
Proof. unfold bind. intros ->. reflexivity. Qed.

Lemma ret_Ok {A : Type} (a b : A) w w' : ret a w = Ok b w' -> a = b /\ w = w'.
Proof. unfold ret. intros [= -> ->]. split; reflexivity. Qed.

Lemma statement_Ok env w u w' :
  statement env w = Ok u w' -> txFault env (clock w) = None /\ w' = tick w.
Proof.
  unfold statement. destruct (txFault env (clock w)); [discriminate |].
  intros [= _ <-]. split; reflexivity.
Qed.

Lemma freshId_Ok env used w id w' :
  freshId env used w = Ok id w' ->
  id = idGenerator env (clock w) /\ (id ∉ used) /\ w' = tick w.
Proof.
  unfold freshId. case_decide as Hin; [discriminate |].
  intros [= <- <-]. repeat split; [exact Hin].
Qed.

(** Inverts a successful [await x <- m ;; k]: names the value and the
    world after [m] and the fact that [m] returned them. *)
Tactic Notation "tx_bind" hyp(H) "as" ident(a) ident(w) ident(Hm) :=
  apply bind_Ok in H; destruct H as (a & w & Hm & H).

Section Shape.
Context (env : Env) (ctx : Ctx).

Lemma insertBatch_Ok nb w row w' :
  insertBatch env nb w = Ok row w' ->
  generationBatches (store w') = generationBatches (store w) ++ [row]
  /\ generations (store w') = generations (store w)
  /\ asyncTasks (store w') = asyncTasks (store w)
  /\ batch_config row = nb_config nb
  /\ batch_userId row = nb_userId nb
  /\ (batch_id row ∉ map batch_id (generationBatches (store w))).
Proof.
  unfold insertBatch. intros H.
  tx_bind H as u w1 H1. apply statement_Ok in H1 as [_ ->].
  tx_bind H as used w2 H2. unfold usedBatchIds in H2.
  injection H2 as <- <-.
  tx_bind H as id w3 H3. apply freshId_Ok in H3 as (-> & Hfresh & ->).
  tx_bind H as u' w4 H4. unfold addBatch in H4. injection H4 as <- <-.
  apply ret_Ok in H as [<- <-].
  simpl. repeat split; try reflexivity. exact Hfresh.
Qed.

Lemma insertGenerationRow_Ok ng w row w' :
  insertGenerationRow env ng w = Ok row w' ->
  generationBatches (store w') = generationBatches (store w)
  /\ generations (store w') = generations (store w) ++ [row]
  /\ asyncTasks (store w') = asyncTasks (store w)
  /\ rowOf ng row
  /\ (gen_id row ∉ map gen_id (generations (store w))).
Proof.
  unfold insertGenerationRow. intros H.
  tx_bind H as used w1 H1. unfold usedGenerationIds in H1.
  injection H1 as <- <-.
  tx_bind H as id w2 H2. apply freshId_Ok in H2 as (-> & Hfresh & ->).
  tx_bind H as u w3 H3. unfold addGeneration in H3. injection H3 as <- <-.
  apply ret_Ok in H as [<- <-].
  simpl. repeat split; try reflexivity. exact Hfresh.
Qed.

Lemma insertGenerationRows_Ok values : forall w rows w',
  forEachTx (insertGenerationRow env) values w = Ok rows w' ->
  generationBatches (store w') = generationBatches (store w)
  /\ generations (store w') = generations (store w) ++ rows
  /\ asyncTasks (store w') = asyncTasks (store w)
  /\ Forall2 rowOf values rows
  /\ NoDup (map gen_id rows)
  /\ (forall g, g ∈ rows -> gen_id g ∉ map gen_id (generations (store w))).
Proof.
  induction values as [| ng values IH]; intros w rows w' H; simpl in H.
  - apply ret_Ok in H as [<- <-]. rewrite app_nil_r.
    repeat split; try constructor. intros g Hg. inversion Hg.
  - tx_bind H as row w1 H1. apply insertGenerationRow_Ok in H1
      as (Hb & Hg & Ht & Hrow & Hfresh).
    tx_bind H as rest w2 H2.
    apply IH in H2 as (Hb' & Hg' & Ht' & Hrows & Hnd & Hnew).
    apply ret_Ok in H as [<- <-].
    rewrite Hb', Hb, Hg', Hg, Ht', Ht, <- app_assoc. simpl.
    repeat split; try reflexivity.
    + constructor; assumption.
    + constructor; [| exact Hnd].
      intros Hin. apply list_elem_of_fmap in Hin as (g & Hid & Hin).
      apply (Hnew g Hin). rewrite Hg, map_app, <- Hid.
      apply elem_of_app. right. simpl. left.
    + intros g Hin. apply elem_of_cons in Hin as [-> | Hin].
      * exact Hfresh.
      * intros Hold. apply (Hnew g Hin). rewrite Hg, map_app.
        apply elem_of_app. left. exact Hold.
Qed.

Lemma insertGenerations_Ok values w rows w' :
  insertGenerations env values w = Ok rows w' ->
  values <> []
  /\ generationBatches (store w') = generationBatches (store w)
  /\ generations (store w') = generations (store w) ++ rows
  /\ asyncTasks (store w') = asyncTasks (store w)
  /\ Forall2 rowOf values rows
  /\ NoDup (map gen_id rows)
  /\ (forall g, g ∈ rows -> gen_id g ∉ map gen_id (generations (store w))).
Proof.
  unfold insertGenerations. destruct values as [| ng values];
    [discriminate |].
  intros H. tx_bind H as u w1 H1. apply statement_Ok in H1 as [_ ->].
  split; [discriminate |].
  apply insertGenerationRows_Ok in H. exact H.
Qed.

Lemma insertAsyncTask_Ok uid status type w row w' :
  insertAsyncTask env uid status type w = Ok row w' ->
  generationBatches (store w') = generationBatches (store w)
  /\ generations (store w') = generations (store w)
  /\ asyncTasks (store w') = asyncTasks (store w) ++ [row]
  /\ task_userId row = uid /\ task_status row = status
  /\ task_type row = type /\ task_error row = None
  /\ (task_id row ∉ map task_id (asyncTasks (store w))).
Proof.
  unfold insertAsyncTask. intros H.
  tx_bind H as u w1 H1. apply statement_Ok in H1 as [_ ->].
  tx_bind H as used w2 H2. unfold usedTaskIds in H2.
  injection H2 as <- <-.
  tx_bind H as id w3 H3. apply freshId_Ok in H3 as (-> & Hfresh & ->).
  tx_bind H as u' w4 H4. unfold addTask in H4. injection H4 as <- <-.
  apply ret_Ok in H as [<- <-].
  simpl. repeat split; try reflexivity. exact Hfresh.
Qed.

Lemma updateGenerationTask_Ok gid uid tid w u w' :
  updateGenerationTask env gid uid tid w = Ok u w' ->
  generationBatches (store w') = generationBatches (store w)
  /\ generations (store w') = linkRows gid uid tid (generations (store w))
  /\ asyncTasks (store w') = asyncTasks (store w).
Proof.
  unfold updateGenerationTask. intros H.
  tx_bind H as u1 w1 H1. apply statement_Ok in H1 as [_ ->].
  injection H as <- <-. simpl. repeat split; reflexivity.
Qed.

Lemma createTasks_Ok gs : forall w items w',
  forEachTx (createTaskFor env ctx) gs w = Ok items w' ->
  exists tasks,
    generationBatches (store w') = generationBatches (store w)
    /\ generations (store w')
       = linkAll (userId ctx) items (generations (store w))
    /\ asyncTasks (store w') = asyncTasks (store w) ++ tasks
    /\ map fst items = gs
    /\ map snd items = map task_id tasks
    /\ Forall (pendingTaskOf (userId ctx)) tasks
    /\ NoDup (map task_id tasks)
    /\ (forall t, t ∈ tasks ->
          task_id t ∉ map task_id (asyncTasks (store w))).
Proof.
  induction gs as [| g gs IH]; intros w items w' H; simpl in H.
  - apply ret_Ok in H as [<- <-]. exists []. rewrite app_nil_r.
    repeat split; try constructor. intros t Ht. inversion Ht.
  - tx_bind H as item w1 H1. unfold createTaskFor in H1.
    tx_bind H1 as task w2 H2. apply insertAsyncTask_Ok in H2
      as (Hb & Hg & Ht & Hu & Hst & Hty & Her & Hfresh).
    tx_bind H1 as u w3 H3.
    apply updateGenerationTask_Ok in H3 as (Hb1 & Hg1 & Ht1).
    apply ret_Ok in H1 as [<- <-].
    tx_bind H as rest w4 H4.
    apply IH in H4 as (tasks & Hb2 & Hg2 & Ht2 & Hfst & Hsnd
                         & Hpend & Hnd & Hnew).
    apply ret_Ok in H as [<- <-].
    exists (task :: tasks). simpl.
    rewrite Hb2, Hb1, Hb, Hg2, Hg1, Hg, Ht2, Ht1, Ht, <- app_assoc.
    simpl. rewrite Hfst, Hsnd.
    repeat split; try reflexivity.
    + constructor; [| exact Hpend]. repeat split; assumption.
    + constructor; [| exact Hnd].
      intros Hin. apply list_elem_of_fmap in Hin as (t & Hid & Hin).
      apply (Hnew t Hin). rewrite Ht1, Ht, map_app, <- Hid.
      apply elem_of_app. right. simpl. left.
    + intros t Hin. apply elem_of_cons in Hin as [-> | Hin].
      * exact Hfresh.
      * intros Hold. apply (Hnew t Hin). rewrite Ht1, Ht, map_app.
        apply elem_of_app. left. exact Hold.
Qed.


Lemma linkRows_miss gid uid tid (rows : list Generation) :
  gid ∉ map gen_id rows -> linkRows gid uid tid rows = rows.
Proof.
  induction rows as [| g rows IH]; intros Hmiss; [reflexivity |].
  simpl in *. apply not_elem_of_cons in Hmiss as [Hne Hmiss].
  rewrite (IH Hmiss). case_decide as Hhit; [| reflexivity].
  destruct Hhit as [Hid _]. congruence.
Qed.

Lemma linkAll_new uid items : forall pre,
  NoDup (map gen_id (map fst items)) ->
  (forall g, g ∈ map fst items -> gen_id g ∉ map gen_id pre) ->
  Forall (fun g => gen_userId g = uid) (map fst items) ->
  linkAll uid items (pre ++ map fst items) = pre ++ map linked items.
Proof.
  induction items as [| [g tid] items IH]; intros pre Hnd Hnew Hu;
    [reflexivity |].
  simpl in *. apply NoDup_cons in Hnd as [Hg Hnd].
  apply Forall_cons in Hu as [Hug Hu].
  unfold linkRows at 1. rewrite map_app. simpl.
  fold (linkRows (gen_id g) uid tid pre).
  fold (linkRows (gen_id g) uid tid (map fst items)).
  rewrite (linkRows_miss _ _ _ pre) by (apply Hnew; left).
  rewrite (linkRows_miss _ _ _ (map fst items)) by exact Hg.
  rewrite decide_True by (split; [reflexivity | exact Hug]).
  change (pre ++ setAsyncTaskId tid g :: map fst items)
    with (pre ++ [linked (g, tid)] ++ map fst items).
  rewrite app_assoc.
  rewrite IH.
  - rewrite <- app_assoc. reflexivity.
  - exact Hnd.
  - intros g' Hg'. rewrite map_app. intros Hin.
    apply elem_of_app in Hin as [Hin | Hin].
    + apply (Hnew g'); [right; exact Hg' | exact Hin].
    + simpl in Hin. apply list_elem_of_singleton in Hin.
      apply Hg. rewrite <- Hin. apply list_elem_of_fmap.
      exists g'. split; [reflexivity | exact Hg'].
  - exact Hu.
Qed.

Lemma newGenerations_length batch seeds n :
  length (newGenerations ctx batch seeds n) = arrayLength n.
Proof. unfold newGenerations. rewrite length_map, length_seq. reflexivity. Qed.

Lemma rowOf_newGenerations batch seeds n gs :
  Forall2 rowOf (newGenerations ctx batch seeds n) gs ->
  length gs = arrayLength n
  /\ Forall (freshGenerationOf (userId ctx) batch) gs
  /\ map gen_seed gs
     = map (fun index => default None (seeds !! index))
           (seq 0 (arrayLength n)).
Proof.
  intros Hrows. split.
  { apply Forall2_length in Hrows.
    rewrite newGenerations_length in Hrows. symmetry. exact Hrows. }
  revert Hrows. unfold newGenerations.
  generalize (seq 0 (arrayLength n)) as indices.
  intros indices Hrows. split.
  - revert gs Hrows.
    induction indices as [| i indices IH]; intros gs Hrows;
      inversion Hrows as [| ng g values gens Hrow Hrest]; subst;
      constructor.
    + destruct Hrow as (Hu & Hb & _ & Ha). repeat split; assumption.
    + apply IH, Hrest.
  - revert gs Hrows.
    induction indices as [| i indices IH]; intros gs Hrows;
      inversion Hrows as [| ng g values gens Hrow Hrest]; subst;
      [reflexivity |].
    simpl. rewrite (IH _ Hrest). destruct Hrow as (_ & _ & -> & _).
    reflexivity.
Qed.

(** The committed state of a successful transactional write. *)
Lemma commit_shape input configForDb w batch items wc :
  createImageTransaction env ctx input configForDb w = Ok (batch, items) wc ->
  exists tasks,
    generationBatches (store wc) = generationBatches (store w) ++ [batch]
    /\ generations (store wc) = generations (store w) ++ map linked items
    /\ asyncTasks (store wc) = asyncTasks (store w) ++ tasks
    /\ batch_config batch = configForDb
    /\ length items = arrayLength (imageNum input)
    /\ Forall (freshGenerationOf (userId ctx) batch) (map fst items)
    /\ map gen_seed (map fst items)
       = map (fun index =>
                default None
                  (seedsFor env (params input) (imageNum input) !! index))
             (seq 0 (arrayLength (imageNum input)))
    /\ map snd items = map task_id tasks
    /\ Forall (pendingTaskOf (userId ctx)) tasks
    /\ NoDup (map task_id tasks)
    /\ (forall t, t ∈ tasks ->
          task_id t ∉ map task_id (asyncTasks (store w)))
    /\ (1 <= imageNum input)%Z.
Proof.
  unfold createImageTransaction. intros H.
  tx_bind H as b w1 H1.
  apply insertBatch_Ok in H1 as (Hb & Hg & Ht & Hcfg & _ & _).
  tx_bind H as gens w2 H2.
  apply insertGenerations_Ok in H2
    as (Hne & Hb2 & Hg2 & Ht2 & Hrows & Hnd & Hnew).
  tx_bind H as gwt w3 H3.
  apply createTasks_Ok in H3
    as (tasks & Hb3 & Hg3 & Ht3 & Hfst & Hsnd & Hpend & Hndt & Hnewt).
  apply ret_Ok in H as [[= <- <-] <-].
  apply rowOf_newGenerations in Hrows as (Hlen & Hfresh & Hseeds).
  exists tasks. rewrite Hb3, Hb2, Hb, Hg3, Hg2, Hg, Ht3, Ht2, Ht, Hfst.
  repeat split; try assumption; try reflexivity.
  - rewrite <- Hfst. apply linkAll_new.
    + rewrite Hfst. exact Hnd.
    + rewrite Hfst. intros g Hin. rewrite <- Hg. apply Hnew, Hin.
    + rewrite Hfst. eapply Forall_impl; [exact Hfresh |].
      intros g (Hu & _). exact Hu.
  - rewrite <- Hlen, <- Hfst. rewrite length_map. reflexivity.
  - intros t Hin. rewrite <- Ht, <- Ht2. apply Hnewt, Hin.
  - unfold arrayLength in Hlen. destruct gens as [| g gens].
    + exfalso. apply Hne. apply length_zero_iff_nil.
      rewrite newGenerations_length. unfold arrayLength.
      simpl in Hlen. lia.
    + simpl in Hlen. lia.
Qed.

End Shape.

(* ===================================================================== *)
(** ** A database that accepts every write *)
(* ===================================================================== *)

Section Progress.
Context (env : Env) (ctx : Ctx).

Lemma Succeeds_ret {A : Type} (a : A) : Succeeds env (ret a).
Proof. intros w Hw. exists a, w. split; [reflexivity | exact Hw]. Qed.

Lemma Succeeds_bind {A B : Type} (m : Tx A) (k : A -> Tx B) :
  Succeeds env m -> (forall a, Succeeds env (k a)) ->
  Succeeds env (bind m k).
Proof.
  intros Hm Hk w Hw. destruct (Hm w Hw) as (a & w1 & Hrun & Hw1).
  destruct (Hk a w1 Hw1) as (b & w2 & Hrun2 & Hw2).
  exists b, w2. split; [| exact Hw2]. unfold bind. rewrite Hrun. exact Hrun2.
Qed.

Lemma Succeeds_forEachTx {A B : Type} (f : A -> Tx B) (items : list A) :
  (forall x, Succeeds env (f x)) -> Succeeds env (forEachTx f items).
Proof.
  intros Hf. induction items as [| x items IH]; simpl.
  - apply Succeeds_ret.
  - apply Succeeds_bind; [apply Hf |]. intros y.
    apply Succeeds_bind; [exact IH |]. intros ys. apply Succeeds_ret.
Qed.

Lemma Accepts_tick w : Accepts env w -> Accepts env (tick w).
Proof.
  intros (Hf & Hnew & Hinj). repeat split; simpl.
  - exact Hf.
  - intros k Hk. apply Hnew. lia.
  - intros j k Hj Hjk. apply Hinj; lia.
Qed.

Lemma Succeeds_statement : Succeeds env (statement env).
Proof.
  intros w Hw. exists tt, (tick w). unfold statement.
  destruct Hw as (Hf & Hw). rewrite Hf.
  split; [reflexivity |]. apply Accepts_tick. split; [exact Hf | exact Hw].
Qed.

(** Adding a row keyed by the identifier drawn at the previous instant
    keeps the world accepting. *)
Lemma Accepts_add w s :
  Accepts env w ->
  (forall id, id ∈ allIds s ->
     id ∈ allIds (store w) \/ id = idGenerator env (clock w)) ->
  Accepts env (setStore s (tick w)).
Proof.
  intros (Hf & Hnew & Hinj) Hs. repeat split; simpl.
  - exact Hf.
  - intros k Hk Hin. destruct (Hs _ Hin) as [Hold | Heq].
    + apply (Hnew k); [lia | exact Hold].
    + apply (Hinj (clock w) k); [lia | lia | symmetry; exact Heq].
  - intros j k Hj Hjk. apply Hinj; lia.
Qed.

Lemma freshId_accepts w used :
  Accepts env w -> used ⊆ allIds (store w) ->
  freshId env used w = Ok (idGenerator env (clock w)) (tick w).
Proof.
  intros (_ & Hnew & _) Hsub. unfold freshId.
  rewrite decide_False; [reflexivity |].
  intros Hin. apply (Hnew (clock w)); [lia |]. apply Hsub, Hin.
Qed.

Lemma Succeeds_insertBatch nb : Succeeds env (insertBatch env nb).
Proof.
  intros w Hw. unfold insertBatch.
  destruct (Succeeds_statement w Hw) as (u & w1 & H1 & Hw1).
  unfold bind at 1. rewrite H1.
  unfold bind at 1. unfold usedBatchIds at 1.
  unfold bind at 1. rewrite (freshId_accepts w1) by
    (try exact Hw1; unfold allIds; intros x Hx; apply elem_of_app; left; exact Hx).
  eexists _, _. split; [reflexivity |].
  apply Accepts_add; [exact Hw1 |].
  intros id. unfold allIds. simpl. rewrite map_app. simpl.
  rewrite !elem_of_app, list_elem_of_singleton. tauto.
Qed.

Lemma Succeeds_insertGenerationRow ng :
  Succeeds env (insertGenerationRow env ng).
Proof.
  intros w Hw. unfold insertGenerationRow.
  unfold bind at 1. unfold usedGenerationIds at 1.
  unfold bind at 1. rewrite (freshId_accepts w) by
    (try exact Hw; unfold allIds; intros x Hx; apply elem_of_app; right;
     apply elem_of_app; left; exact Hx).
  eexists _, _. split; [reflexivity |].
  apply Accepts_add; [exact Hw |].
  intros id. unfold allIds. simpl. rewrite map_app. simpl.
  rewrite !elem_of_app, list_elem_of_singleton. tauto.
Qed.

Lemma Succeeds_insertGenerations values :
  values <> [] -> Succeeds env (insertGenerations env values).
Proof.
  intros Hne. unfold insertGenerations.
  destruct values as [| ng values]; [contradiction |].
  apply Succeeds_bind; [apply Succeeds_statement |]. intros _.
  apply Succeeds_forEachTx, Succeeds_insertGenerationRow.
Qed.

Lemma Succeeds_insertAsyncTask uid status type :
  Succeeds env (insertAsyncTask env uid status type).
Proof.
  intros w Hw. unfold insertAsyncTask.
  destruct (Succeeds_statement w Hw) as (u & w1 & H1 & Hw1).
  unfold bind at 1. rewrite H1.
  unfold bind at 1. unfold usedTaskIds at 1.
  unfold bind at 1. rewrite (freshId_accepts w1) by
    (try exact Hw1; unfold allIds; intros x Hx; apply elem_of_app; right;
     apply elem_of_app; right; exact Hx).
  eexists _, _. split; [reflexivity |].
  apply Accepts_add; [exact Hw1 |].
  intros id. unfold allIds. simpl. rewrite map_app. simpl.
  rewrite !elem_of_app, list_elem_of_singleton. tauto.
Qed.

Lemma linkRows_ids gid uid tid rows :
  map gen_id (linkRows gid uid tid rows) = map gen_id rows.
Proof.
  unfold linkRows. rewrite map_map. apply map_ext.
  intros g. case_decide; reflexivity.
Qed.

Lemma Succeeds_updateGenerationTask gid uid tid :
  Succeeds env (updateGenerationTask env gid uid tid).
Proof.
  intros w Hw. unfold updateGenerationTask.
  destruct (Succeeds_statement w Hw) as ([] & w1 & H1 & Hw1).
  unfold bind. rewrite H1.
  eexists _, _. split; [reflexivity |].
  destruct Hw1 as (Hf & Hnew & Hinj). repeat split; simpl.
  - exact Hf.
  - unfold allIds. simpl. rewrite linkRows_ids. exact Hnew.
  - exact Hinj.
Qed.

Lemma Succeeds_createTaskFor g : Succeeds env (createTaskFor env ctx g).
Proof.
  unfold createTaskFor.
  apply Succeeds_bind; [apply Succeeds_insertAsyncTask |]. intros t.
  apply Succeeds_bind; [apply Succeeds_updateGenerationTask |]. intros _.
  apply Succeeds_ret.
Qed.

(** With a count of at least one, the transactional write commits in
    every accepting world. *)
Lemma createImageTransaction_commits input configForDb w :
  Accepts env w -> (1 <= imageNum input)%Z ->
  exists batch items wc,
    transaction (createImageTransaction env ctx input configForDb) w
    = (inr (batch, items), wc).
Proof.
  intros Hw Hn.
  assert (Hs : Succeeds env
                 (createImageTransaction env ctx input configForDb)).
  { unfold createImageTransaction.
    apply Succeeds_bind; [apply Succeeds_insertBatch |]. intros batch.
    apply Succeeds_bind.
    - apply Succeeds_insertGenerations. intros Hnil.
      apply (f_equal length) in Hnil.
      rewrite newGenerations_length in Hnil. unfold arrayLength in Hnil.
      simpl in Hnil. lia.
    - intros gens. apply Succeeds_bind.
      + apply Succeeds_forEachTx, Succeeds_createTaskFor.
      + intros items. apply Succeeds_ret. }
  destruct (Hs w Hw) as ([batch items] & wc & Hrun & _).
  exists batch, items, wc. unfold transaction. rewrite Hrun. reflexivity.
Qed.

End Progress.

(* ===================================================================== *)
(** ** The handler around the transaction *)
(* ===================================================================== *)

Lemma transaction_commit {A : Type} (body : Tx A) w a wc :
  transaction body w = (inr a, wc) <-> body w = Ok a wc.
Proof.
  unfold transaction. destruct (body w) as [a' w' | e]; split;
    intros H; try discriminate; injection H as <- <-; reflexivity.
Qed.

Lemma transaction_rollback {A : Type} (body : Tx A) w e :
  body w = Throw e -> transaction body w = (inl e, w).
Proof. unfold transaction. intros ->. reflexivity. Qed.

Lemma createImage_committed env bg ctx input w batch items wc :
  transaction
    (createImageTransaction env ctx input
       (configForDatabase env (params input))) w
  = (inr (batch, items), wc) ->
  createImage env bg ctx input w
  = {| response := inr {| success := true; data_batch := batch;
                          data_generations := map fst items |};
       db := fst (dispatch bg ctx input items (store wc));
       trace := snd (dispatch bg ctx input items (store wc)) |}.
Proof.
  intros H. unfold createImage. rewrite H.
  destruct (dispatch bg ctx input items (store wc)); reflexivity.
Qed.

Lemma createImage_success env bg ctx input w resp :
  response (createImage env bg ctx input w) = inr resp ->
  exists items wc,
    transaction
      (createImageTransaction env ctx input
         (configForDatabase env (params input))) w
    = (inr (data_batch resp, items), wc)
    /\ resp = {| success := true; data_batch := data_batch resp;
                 data_generations := map fst items |}.
Proof.
  unfold createImage.
  destruct (transaction _ w) as [[e | [batch items]] wc] eqn:Htx;
    [discriminate |].
  destruct (dispatch bg ctx input items (store wc)) as [s effects].
  simpl. intros [= <-]. exists items, wc. split; reflexivity.
Qed.

Lemma linked_asyncTaskId items :
  map gen_asyncTaskId (map linked items) = map Some (map snd items).
Proof. rewrite !map_map. reflexivity. Qed.

Lemma linked_seed items :
  map gen_seed (map linked items) = map gen_seed (map fst items).
Proof. rewrite !map_map. reflexivity. Qed.

(** C1.  A successful create-image call with [imageNum = N] commits one
    batch row, exactly N generation rows and exactly N task rows; the task
    rows are Pending, their identifiers are pairwise distinct and new, and
    in the committed state the i-th generation row already carries the
    identifier of the i-th task row. *)
Theorem createImage_creates_rows env bg ctx input w resp :
  response (createImage env bg ctx input w) = inr resp ->
  exists items wc gens tasks,
    transaction
      (createImageTransaction env ctx input
         (configForDatabase env (params input))) w
    = (inr (data_batch resp, items), wc)
    /\ generationBatches (store wc)
       = generationBatches (store w) ++ [data_batch resp]
    /\ generations (store wc) = generations (store w) ++ gens
    /\ asyncTasks (store wc) = asyncTasks (store w) ++ tasks
    /\ Z.of_nat (length gens) = imageNum input
    /\ Z.of_nat (length tasks) = imageNum input
    /\ Forall (fun g => gen_generationBatchId g = batch_id (data_batch resp))
              gens
    /\ Forall (fun t => task_status t = Pending) tasks
    /\ map gen_asyncTaskId gens = map (fun t => Some (task_id t)) tasks
    /\ NoDup (map task_id tasks)
    /\ (forall t, t ∈ tasks ->
          task_id t ∉ map task_id (asyncTasks (store w))).
Proof.
  intros Hresp.
  apply createImage_success in Hresp as (items & wc & Htx & _).
  pose proof Htx as Hrun. apply transaction_commit in Hrun.
  apply commit_shape in Hrun
    as (tasks & Hb & Hg & Ht & _ & Hlen & Hfresh & _ & Hsnd & Hpend
          & Hnd & Hnew & Hn).
  exists items, wc, (map linked items), tasks.
  repeat split; try assumption.
  - rewrite length_map, Hlen. unfold arrayLength. lia.
  - assert (Hl : length tasks = length items).
    { apply (f_equal length) in Hsnd. rewrite !length_map in Hsnd.
      congruence. }
    rewrite Hl, Hlen. unfold arrayLength. lia.
  - rewrite Forall_map in Hfresh. rewrite Forall_map.
    eapply Forall_impl; [exact Hfresh |].
    intros item (_ & Hbatch & _). exact Hbatch.
  - eapply Forall_impl; [exact Hpend |]. intros t (_ & Hst & _). exact Hst.
  - rewrite linked_asyncTaskId, Hsnd, map_map. reflexivity.
Qed.

(** C2.  When the transactional write throws, whatever statement failed,
    the request fails with the thrown value, the database is the one from
    before the request (no batch, generation or task row of it is visible)
    and nothing has been dispatched, written or logged. *)
Theorem createImage_all_or_nothing env bg ctx input w e :
  createImageTransaction env ctx input
    (configForDatabase env (params input)) w = Throw e ->
  response (createImage env bg ctx input w) = inl e
  /\ db (createImage env bg ctx input w) = store w
  /\ trace (createImage env bg ctx input w) = [].
Proof.
  intros Hthrow. unfold createImage.
  rewrite (transaction_rollback _ _ _ Hthrow). simpl.
  repeat split; reflexivity.
Qed.

(** A fault at the first statement each insert sends aborts the write. *)
Lemma insertAsyncTask_fault env uid status type w e :
  txFault env (clock w) = Some e ->
  insertAsyncTask env uid status type w = Throw e.
Proof.
  intros Hf. unfold insertAsyncTask. apply bind_Throw_l.
  unfold statement. rewrite Hf. reflexivity.
Qed.

Lemma insertBatch_fault env nb w e :
  txFault env (clock w) = Some e -> insertBatch env nb w = Throw e.
Proof.
  intros Hf. unfold insertBatch. apply bind_Throw_l.
  unfold statement. rewrite Hf. reflexivity.
Qed.

Lemma forEachTx_Throw {A B : Type} (f : A -> Tx B) (done rest : list A) x :
  forall w results w1 e,
    forEachTx f done w = Ok results w1 -> f x w1 = Throw e ->
    forEachTx f (done ++ x :: rest) w = Throw e.
Proof.
  induction done as [| y done IH]; intros w results w1 e Hdone Hx; simpl in *.
  - apply ret_Ok in Hdone as [_ <-]. apply bind_Throw_l. exact Hx.
  - tx_bind Hdone as r w2 H2. tx_bind Hdone as rs w3 H3.
    apply ret_Ok in Hdone as [_ <-].
    unfold bind at 1. rewrite H2.
    apply bind_Throw_l. eapply IH; eassumption.
Qed.

(* ===================================================================== *)
(** ** Status writes *)
(* ===================================================================== *)

Lemma update_tasks_lookup bg uid tid value s s' :
  asyncTaskModel_update bg uid tid value s = inr s' ->
  generationBatches s' = generationBatches s
  /\ generations s' = generations s
  /\ length (asyncTasks s') = length (asyncTasks s)
  /\ forall (i : nat) t, asyncTasks s !! i = Some t ->
       asyncTasks s' !! i
       = Some (if decide (task_id t = tid /\ task_userId t = uid)
               then applyUpdate value t else t).
Proof.
  unfold asyncTaskModel_update. destruct (updateFault bg tid); [discriminate |].
  intros [= <-]. simpl. repeat split; try reflexivity.
  - apply length_map.
  - intros i t Hi. rewrite list_lookup_fmap, Hi. reflexivity.
Qed.

Lemma update_fault bg uid tid value s e :
  updateFault bg tid = Some e ->
  asyncTaskModel_update bg uid tid value s = inl e.
Proof. unfold asyncTaskModel_update. intros ->. reflexivity. Qed.

Lemma update_no_fault bg uid tid value s :
  updateFault bg tid = None ->
  exists s', asyncTaskModel_update bg uid tid value s = inr s'.
Proof. unfold asyncTaskModel_update. intros ->. eexists. reflexivity. Qed.

(** C3.  When the remote call of a task rejects with [e], the handler
    issues one status write for that task and no other: status Error with
    the error kind ServerError and, as message, the message of [e] -- or
    "Unknown error" when [e] has no message or an empty one.  If the write
    succeeds, the rows of that task and user carry it; if it fails, the
    failure is written to the console and nothing else happens.  In both
    cases no other task row, no generation row and no batch row changes,
    and no remote call is issued again. *)
Theorem rejected_call_marks_task_error bg ctx call e s :
  createImageCall bg call = Rejected e ->
  exists msg,
    (forall m, message e = Some m -> m <> EmptyString -> msg = m)
    /\ (message e = None \/ message e = Some EmptyString ->
        msg = "Unknown error")
    /\ let value :=
         {| upd_error := Some (mkAsyncTaskError ServerError msg);
            upd_status := Error |} in
       let s' := fst (settle bg ctx call s) in
       let effects := snd (settle bg ctx call s) in
       statusWrites effects = [(taskId call, value)]
       /\ dispatched effects = []
       /\ consoleErrors effects
          = TaskExecutionError (taskId call) e
            :: match updateFault bg (taskId call) with
               | Some updateError =>
                   [TaskUpdateFailed (taskId call) updateError]
               | None => []
               end
       /\ generationBatches s' = generationBatches s
       /\ generations s' = generations s
       /\ length (asyncTasks s') = length (asyncTasks s)
       /\ forall (i : nat) t, asyncTasks s !! i = Some t ->
            asyncTasks s' !! i
            = Some (if decide (task_id t = taskId call
                               /\ task_userId t = userId ctx
                               /\ updateFault bg (taskId call) = None)
                    then {| task_id := task_id t;
                            task_userId := task_userId t;
                            task_status := Error;
                            task_type := task_type t;
                            task_error :=
                              Some (mkAsyncTaskError ServerError msg) |}
                    else t).
Proof.
  intros Hrej. exists (messageOr e "Unknown error"). split; [| split].
  - intros m Hm Hne. unfold messageOr. rewrite Hm.
    rewrite decide_False by exact Hne. reflexivity.
  - intros [Hm | Hm]; unfold messageOr; rewrite Hm; reflexivity.
  - unfold settle. rewrite Hrej. unfold onRejected.
    fold (rejectionUpdate e).
    destruct (updateFault bg (taskId call)) as [ue |] eqn:Hfault.
    + rewrite (update_fault _ _ _ _ _ _ Hfault). simpl.
      repeat split; try reflexivity.
      intros i t Hi. rewrite Hi. f_equal.
      rewrite decide_False; [reflexivity |]. intros (_ & _ & [=]).
    + destruct (update_no_fault bg (userId ctx) (taskId call)
                  (rejectionUpdate e) s Hfault) as (s' & Hupd).
      rewrite Hupd. simpl.
      apply update_tasks_lookup in Hupd as (Hb & Hg & Hlen & Hrows).
      repeat split; try assumption; try reflexivity.
      intros i t Hi. rewrite (Hrows i t Hi). f_equal.
      destruct (decide (task_id t = taskId call /\ task_userId t = userId ctx))
        as [[Hid Hu] | Hmiss].
      * rewrite decide_True by (repeat split; assumption). reflexivity.
      * rewrite decide_False; [reflexivity |].
        intros (Hid & Hu & _). apply Hmiss. split; assumption.
Qed.

(* ===================================================================== *)
(** ** The response *)
(* ===================================================================== *)

Lemma background_response bg ctx order : forall r,
  response (background bg ctx order r) = response r.
Proof.
  induction order as [| call order IH]; intros r; simpl; [reflexivity |].
  destruct (settle bg ctx call (db r)) as [s effects]. rewrite IH.
  reflexivity.
Qed.

(** C5.  Once the transactional write has committed, the caller receives
    [{success: true, data: {batch, generations}}] with the batch and the
    generation rows returned by the inserts.  The value is the same for
    every behaviour of the asynchronous collaborators -- whether the
    caller could be built, how each remote call ends, whether status
    writes fail -- and for every order in which the calls settle. *)
Theorem response_independent_of_background env ctx input w batch items wc :
  transaction
    (createImageTransaction env ctx input
       (configForDatabase env (params input))) w
  = (inr (batch, items), wc) ->
  forall bg1 bg2 order1 order2,
    response (background bg1 ctx order1 (createImage env bg1 ctx input w))
    = inr {| success := true; data_batch := batch;
             data_generations := map fst items |}
    /\ response (background bg1 ctx order1 (createImage env bg1 ctx input w))
       = response (background bg2 ctx order2
                     (createImage env bg2 ctx input w)).
Proof.
  intros Htx bg1 bg2 order1 order2.
  rewrite !background_response.
  rewrite (createImage_committed env bg1 ctx input w batch items wc Htx).
  rewrite (createImage_committed env bg2 ctx input w batch items wc Htx).
  split; reflexivity.
Qed.

(* ===================================================================== *)
(** ** Seeds *)
(* ===================================================================== *)

Lemma lookup_all_indices {A : Type} (d : A) (l : list A) :
  map (fun index => default d (l !! index)) (seq 0 (length l)) = l.
Proof.
  induction l as [| x l IH] using rev_ind; [reflexivity |].
  rewrite length_app. simpl. rewrite Nat.add_1_r, seq_S, map_app. simpl.
  rewrite list_lookup_middle by reflexivity. simpl. f_equal.
  rewrite <- IH at 2. apply map_ext_in. intros i Hi.
  apply in_seq in Hi. rewrite lookup_app_l by lia. reflexivity.
Qed.

Lemma lookup_replicate_none (n : nat) (indices : list nat) :
  Forall (fun s : option Z => s = None)
    (map (fun index => default None (replicate n (@None Z) !! index)) indices).
Proof.
  apply Forall_map, Forall_forall. intros i _.
  destruct (replicate n None !! i) as [s |] eqn:Hi; [| reflexivity].
  apply lookup_replicate in Hi as [-> _]. reflexivity.
Qed.

(** C7.  In a committed write the seeds of the new generation rows are:
    with a seed key in the parameters, the [imageNum] seeds produced by
    one call of the generator, in order, hence pairwise distinct; without
    a seed key, no seed at all. *)
Theorem seeds_assigned_in_order env ctx input w batch items wc :
  transaction
    (createImageTransaction env ctx input
       (configForDatabase env (params input))) w
  = (inr (batch, items), wc) ->
  (is_Some (seed (params input)) ->
   UniqueSeeds (generateUniqueSeeds env) (imageNum input)) ->
  exists gens,
    generations (store wc) = generations (store w) ++ gens
    /\ Z.of_nat (length gens) = imageNum input
    /\ match seed (params input) with
       | Some _ =>
           map gen_seed gens
           = map Some (generateUniqueSeeds env (imageNum input))
           /\ NoDup (map gen_seed gens)
       | None => Forall (fun g => gen_seed g = None) gens
       end.
Proof.
  intros Htx Hgen. apply transaction_commit in Htx.
  apply commit_shape in Htx
    as (tasks & _ & Hg & _ & _ & Hlen & _ & Hseeds & _ & _ & _ & _ & Hn).
  exists (map linked items). split; [exact Hg |]. split.
  { rewrite length_map, Hlen. unfold arrayLength. lia. }
  assert (Hstored : map gen_seed (map linked items)
                    = map (fun index =>
                             default None
                               (seedsFor env (params input) (imageNum input)
                                !! index))
                          (seq 0 (arrayLength (imageNum input)))).
  { rewrite linked_seed. exact Hseeds. }
  unfold seedsFor, hasSeedKey in Hstored.
  destruct (seed (params input)) as [v |].
  - destruct Hgen as [Hcount Hdistinct]; [eexists; reflexivity |].
    unfold arrayLength in Hstored. rewrite <- Hcount in Hstored.
    rewrite <- (length_map Some (generateUniqueSeeds env (imageNum input)))
      in Hstored.
    rewrite lookup_all_indices in Hstored. rewrite Hstored.
    split; [reflexivity |].
    apply NoDup_fmap; [| exact Hdistinct]. intros x y [= ->]. reflexivity.
  - apply Forall_map with (f := gen_seed) (P := fun s => s = None).
    rewrite Hstored. apply lookup_replicate_none.
Qed.

(* ===================================================================== *)
(** ** The stored configuration and the dispatched payload *)
(* ===================================================================== *)

Lemma mapOrThrow_all {A B : Type} (f : A -> Thrown + B) l ys :
  Forall2 (fun x y => f x = inr y) l ys -> mapOrThrow f l = inr ys.
Proof.
  induction 1 as [| x y l ys Hx _ IH]; simpl; [reflexivity |].
  rewrite Hx, IH. reflexivity.
Qed.

Lemma mapOrThrow_some {A B : Type} (f : A -> Thrown + B) l x e :
  x ∈ l -> f x = inl e -> exists e', mapOrThrow f l = inl e'.
Proof.
  induction l as [| y l IH]; intros Hin Hx; [inversion Hin |]. simpl.
  destruct (f y) as [e1 | y'] eqn:Hy; [eexists; reflexivity |].
  apply elem_of_cons in Hin as [-> | Hin]; [congruence |].
  destruct (IH Hin Hx) as (e' & ->). eexists; reflexivity.
Qed.

Lemma configForDatabase_keys env p urls keys :
  imageUrls p = Some urls -> urls <> [] ->
  Forall2 (fun url key => getKeyFromFullUrl env url = inr key) urls keys ->
  configForDatabase env p = withImageUrls p keys.
Proof.
  intros Hurls Hne Hkeys. unfold configForDatabase. rewrite Hurls.
  destruct urls as [| url urls]; [contradiction |].
  rewrite (mapOrThrow_all _ _ _ Hkeys). reflexivity.
Qed.

Lemma configForDatabase_throw env p urls url e :
  imageUrls p = Some urls -> url ∈ urls ->
  getKeyFromFullUrl env url = inl e ->
  configForDatabase env p = p.
Proof.
  intros Hurls Hin He. unfold configForDatabase. rewrite Hurls.
  destruct urls as [| u urls]; [reflexivity |].
  destruct (mapOrThrow_some _ _ _ _ Hin He) as (e' & ->). reflexivity.
Qed.

Lemma issueFallbackUpdates_frame bg ctx e items : forall s,
  let s' := fst (fst (issueFallbackUpdates bg ctx e items s)) in
  generationBatches s' = generationBatches s
  /\ generations s' = generations s.
Proof.
  induction items as [| [g tid] items IH]; intros s; simpl;
    [split; reflexivity |].
  destruct (asyncTaskModel_update bg (userId ctx) tid (fallbackUpdate e) s)
    as [ue | s1] eqn:Hupd.
  - specialize (IH s). simpl in IH.
    destruct (issueFallbackUpdates bg ctx e items s) as [[s2 st] ef].
    simpl in *. exact IH.
  - apply update_tasks_lookup in Hupd as (Hb & Hg & _).
    specialize (IH s1). simpl in IH.
    destruct (issueFallbackUpdates bg ctx e items s1) as [[s2 st] ef].
    simpl in *. destruct IH as [-> ->]. split; assumption.
Qed.

Lemma dispatch_frame bg ctx input items s :
  generationBatches (fst (dispatch bg ctx input items s)) = generationBatches s
  /\ generations (fst (dispatch bg ctx input items s)) = generations s.
Proof.
  unfold dispatch. destruct (createAsyncCaller bg) as [e | u];
    [| split; reflexivity].
  unfold onDispatchFailure.
  pose proof (issueFallbackUpdates_frame bg ctx e items s) as H.
  destruct (issueFallbackUpdates bg ctx e items s) as [[s' st] ef].
  simpl in *. exact H.
Qed.

(** C8.  Against a database that accepts the write (and a count of at
    least one) the request succeeds whatever the key resolver does, and
    the batch row it stores holds: when [imageUrls] is a non-empty array
    and every URL resolves, the resolved keys as [imageUrls] and every
    other parameter as received; the parameters as received, URLs
    included, when resolving some URL throws. *)
Theorem stored_config_uses_keys_or_original env bg ctx input w :
  Accepts env w -> (1 <= imageNum input)%Z ->
  exists resp,
    response (createImage env bg ctx input w) = inr resp
    /\ success resp = true
    /\ data_batch resp ∈ generationBatches (db (createImage env bg ctx input w))
    /\ (forall urls keys,
          imageUrls (params input) = Some urls -> urls <> [] ->
          Forall2 (fun url key => getKeyFromFullUrl env url = inr key)
                  urls keys ->
          let config := batch_config (data_batch resp) in
          imageUrls config = Some keys
          /\ prompt config = prompt (params input)
          /\ width config = width (params input)
          /\ height config = height (params input)
          /\ seed config = seed (params input)
          /\ steps config = steps (params input)
          /\ cfg config = cfg (params input)
          /\ passthrough config = passthrough (params input))
    /\ (forall urls url e,
          imageUrls (params input) = Some urls -> url ∈ urls ->
          getKeyFromFullUrl env url = inl e ->
          batch_config (data_batch resp) = params input
          /\ imageUrls (batch_config (data_batch resp)) = Some urls).
Proof.
  intros Hw Hn.
  destruct (createImageTransaction_commits env ctx input
              (configForDatabase env (params input)) w Hw Hn)
    as (batch & items & wc & Htx).
  rewrite (createImage_committed env bg ctx input w batch items wc Htx).
  simpl. eexists. split; [reflexivity |]. simpl.
  apply transaction_commit, commit_shape in Htx
    as (tasks & Hb & _ & _ & Hcfg & _).
  split; [reflexivity |]. split; [| split].
  - destruct (dispatch_frame bg ctx input items (store wc)) as [-> _].
    rewrite Hb. apply elem_of_app. right. left.
  - intros urls keys Hurls Hne Hkeys. rewrite Hcfg.
    rewrite (configForDatabase_keys env (params input) urls keys
               Hurls Hne Hkeys).
    simpl. split; [reflexivity |]. split; [reflexivity |].
    split; [reflexivity |]. split; [reflexivity |].
    split; [reflexivity |]. split; [reflexivity |].
    split; reflexivity.
  - intros urls url e Hurls Hin He. rewrite Hcfg.
    rewrite (configForDatabase_throw env (params input) urls url e
               Hurls Hin He).
    split; [reflexivity | exact Hurls].
Qed.


(** C10.  Whether seeds are generated depends on the presence of the seed
    key only.  For two requests with the same count whose parameters both
    hold a seed key -- with any values, [null] included, and whatever else
    differs -- the new generation rows carry the same seeds: those a call
    of the generator with the count alone gives. *)
Theorem seed_value_never_used env ctx input1 input2 v1 v2 w1 w2
    batch1 items1 wc1 batch2 items2 wc2 :
  seed (params input1) = Some v1 ->
  seed (params input2) = Some v2 ->
  imageNum input1 = imageNum input2 ->
  transaction
    (createImageTransaction env ctx input1
       (configForDatabase env (params input1))) w1
  = (inr (batch1, items1), wc1) ->
  transaction
    (createImageTransaction env ctx input2
       (configForDatabase env (params input2))) w2
  = (inr (batch2, items2), wc2) ->
  exists gens1 gens2,
    generations (store wc1) = generations (store w1) ++ gens1
    /\ generations (store wc2) = generations (store w2) ++ gens2
    /\ map gen_seed gens1 = map gen_seed gens2
    /\ map gen_seed gens1
       = map (fun index =>
                default None
                  (map Some (generateUniqueSeeds env (imageNum input1))
                   !! index))
             (seq 0 (arrayLength (imageNum input1))).
Proof.
  intros Hs1 Hs2 Hn Htx1 Htx2.
  apply transaction_commit, commit_shape in Htx1
    as (tasks1 & _ & Hg1 & _ & _ & _ & _ & Hseeds1 & _).
  apply transaction_commit, commit_shape in Htx2
    as (tasks2 & _ & Hg2 & _ & _ & _ & _ & Hseeds2 & _).
  exists (map linked items1), (map linked items2).
  rewrite !linked_seed, Hseeds1, Hseeds2.
  unfold seedsFor, hasSeedKey. rewrite Hs1, Hs2, Hn.
  repeat split; try assumption; reflexivity.
Qed.

(* ===================================================================== *)
(** ** The whole-batch fallback *)
(* ===================================================================== *)

Section Fallback.
Context (bg : Background) (ctx : Ctx) (e : Thrown).

Lemma issueFallbackUpdates_effects items : forall s,
  snd (issueFallbackUpdates bg ctx e items s)
  = map (fun item => StatusWrite (snd item) (fallbackUpdate e)) items.
Proof.
  induction items as [| [g tid] items IH]; intros s; simpl; [reflexivity |].
  destruct (asyncTaskModel_update bg (userId ctx) tid (fallbackUpdate e) s)
    as [ue | s1].
  - specialize (IH s).
    destruct (issueFallbackUpdates bg ctx e items s) as [[s2 st] ef].
    simpl in *. rewrite IH. reflexivity.
  - specialize (IH s1).
    destruct (issueFallbackUpdates bg ctx e items s1) as [[s2 st] ef].
    simpl in *. rewrite IH. reflexivity.
Qed.

Lemma reached_cons g tid items t :
  reached bg ctx ((g, tid) :: items) t
  <-> (task_id t = tid /\ task_userId t = userId ctx
       /\ updateFault bg tid = None)
      \/ reached bg ctx items t.
Proof.
  unfold reached. simpl. rewrite elem_of_cons. split.
  - intros ([Hid | Hin] & Hu & Hf).
    + left. rewrite <- Hid. repeat split; assumption.
    + right. repeat split; assumption.
  - intros [(Hid & Hu & Hf) | (Hin & Hu & Hf)].
    + repeat split; [left; exact Hid | exact Hu |]. rewrite Hid. exact Hf.
    + repeat split; [right; exact Hin | exact Hu | exact Hf].
Qed.

Lemma issueFallbackUpdates_rows items : forall s,
  let s' := fst (fst (issueFallbackUpdates bg ctx e items s)) in
  forall (i : nat) t, asyncTasks s !! i = Some t ->
    asyncTasks s' !! i
    = Some (if decide (reached bg ctx items t)
            then applyUpdate (fallbackUpdate e) t else t).
Proof.
  induction items as [| [g tid] items IH]; intros s; simpl.
  - intros i t Hi. rewrite Hi. reflexivity.
  - intros i t Hi.
    destruct (asyncTaskModel_update bg (userId ctx) tid (fallbackUpdate e) s)
      as [ue | s1] eqn:Hupd.
    + specialize (IH s i t Hi). simpl in IH.
      destruct (issueFallbackUpdates bg ctx e items s) as [[s2 st] ef].
      simpl in *. rewrite IH. f_equal.
      assert (Hfault : updateFault bg tid <> None).
      { unfold asyncTaskModel_update in Hupd.
        destruct (updateFault bg tid); [discriminate | discriminate]. }
      destruct (decide (reached bg ctx items t)) as [Hr | Hr].
      * rewrite decide_True; [reflexivity |].
        apply reached_cons. right. exact Hr.
      * rewrite decide_False; [reflexivity |].
        intros Hc. apply reached_cons in Hc as [(_ & _ & Hf) | Hc];
          [exact (Hfault Hf) | exact (Hr Hc)].
    + pose proof Hupd as Hnofault.
      unfold asyncTaskModel_update in Hnofault.
      destruct (updateFault bg tid) eqn:Hf0; [discriminate |].
      clear Hnofault.
      apply update_tasks_lookup in Hupd as (_ & _ & _ & Hrows).
      specialize (Hrows i t Hi).
      specialize (IH s1 i _ Hrows). simpl in IH.
      destruct (issueFallbackUpdates bg ctx e items s1) as [[s2 st] ef].
      simpl in *. rewrite IH. f_equal.
      destruct (decide (task_id t = tid /\ task_userId t = userId ctx))
        as [[Hid Hu] | Hmiss].
      * rewrite (decide_True (P := reached bg ctx ((g, tid) :: items) t)).
        2:{ apply reached_cons. left. repeat split; assumption. }
        destruct (decide (reached bg ctx items (applyUpdate (fallbackUpdate e) t)));
          reflexivity.
      * destruct (decide (reached bg ctx items t)) as [Hr | Hr].
        -- rewrite decide_True; [reflexivity |].
           apply reached_cons. right. exact Hr.
        -- rewrite decide_False; [reflexivity |].
           intros Hc. apply reached_cons in Hc as [(Hid & Hu & _) | Hc];
             [apply Hmiss; split; assumption | exact (Hr Hc)].
Qed.

End Fallback.

(** The projections of a trace, effect by effect. *)
Lemma dispatched_cons ef l :
  dispatched (ef :: l)
  = match ef with RemoteCall p => p :: dispatched l | _ => dispatched l end.
Proof. destruct ef; reflexivity. Qed.

Lemma statusWrites_cons ef l :
  statusWrites (ef :: l)
  = match ef with
    | StatusWrite t v => (t, v) :: statusWrites l
    | _ => statusWrites l
    end.
Proof. destruct ef; reflexivity. Qed.

Lemma consoleErrors_cons ef l :
  consoleErrors (ef :: l)
  = match ef with Console m => m :: consoleErrors l | _ => consoleErrors l end.
Proof. destruct ef; reflexivity. Qed.


(** The three projections of a trace made of status writes only. *)
Lemma writes_only_trace {A : Type} (f : A -> string) (g : A -> TaskUpdate)
    (l : list A) :
  dispatched (map (fun x => StatusWrite (f x) (g x)) l) = []
  /\ statusWrites (map (fun x => StatusWrite (f x) (g x)) l)
     = map (fun x => (f x, g x)) l
  /\ consoleErrors (map (fun x => StatusWrite (f x) (g x)) l) = [].
Proof.
  induction l as [| x l (IH1 & IH2 & IH3)]; [repeat split |].
  simpl map. rewrite dispatched_cons, statusWrites_cons, consoleErrors_cons.
  rewrite IH1, IH2, IH3. repeat split.
Qed.

(** The projections of a trace made of remote calls only. *)
Lemma calls_only_trace {A : Type} (f : A -> CreateImagePayload) (l : list A) :
  dispatched (map (fun x => RemoteCall (f x)) l) = map f l
  /\ statusWrites (map (fun x => RemoteCall (f x)) l) = []
  /\ consoleErrors (map (fun x => RemoteCall (f x)) l) = [].
Proof.
  induction l as [| x l (IH1 & IH2 & IH3)]; [repeat split |].
  simpl map. rewrite dispatched_cons, statusWrites_cons, consoleErrors_cons.
  rewrite IH1, IH2, IH3. repeat split.
Qed.

(** What a request does when the caller cannot be built, in terms of
    [fallbackUpdate]. *)
Lemma dispatch_failure_effects env bg ctx input w batch items wc e :
  transaction
    (createImageTransaction env ctx input
       (configForDatabase env (params input))) w
  = (inr (batch, items), wc) ->
  createAsyncCaller bg = inl e ->
  let r := createImage env bg ctx input w in
  response r = inr {| success := true; data_batch := batch;
                      data_generations := map fst items |}
  /\ dispatched (trace r) = []
  /\ statusWrites (trace r)
     = map (fun item => (snd item, fallbackUpdate e)) items
  /\ consoleErrors (trace r) = [ProcessAsyncTasksFailed e]
  /\ forall (i : nat) t, asyncTasks (store wc) !! i = Some t ->
       asyncTasks (db r) !! i
       = Some (if decide (reached bg ctx items t)
               then applyUpdate (fallbackUpdate e) t else t).
Proof.
  intros Htx Hcaller r. subst r.
  rewrite (createImage_committed env bg ctx input w batch items wc Htx).
  simpl. unfold dispatch. rewrite Hcaller. unfold onDispatchFailure.
  pose proof (issueFallbackUpdates_effects bg ctx e items (store wc)) as Hef.
  pose proof (issueFallbackUpdates_rows bg ctx e items (store wc)) as Hrows.
  destruct (issueFallbackUpdates bg ctx e items (store wc)) as [[s' st] ef].
  simpl in *. subst ef.
  destruct (writes_only_trace snd (fun _ => fallbackUpdate e) items)
    as (H1 & H2 & H3).
  rewrite H1, H2, H3. repeat split. exact Hrows.
Qed.

(** X7: what a request does when the caller cannot be built.  No remote
    call is issued.  One status write per created task is issued, in
    order, each with the status Error and an error of kind ServerError
    whose message is the message of the thrown value when that is an
    Error instance and "Failed to process async tasks" otherwise.  Each
    write that does not fail turns the row of its task into one with that
    status and error; every other row stays as it is.  The console
    receives the dispatch failure and nothing about the writes, and the
    caller still receives the success response. *)
Theorem fallback_marks_every_task env bg ctx input w batch items wc e :
  transaction
    (createImageTransaction env ctx input
       (configForDatabase env (params input))) w
  = (inr (batch, items), wc) ->
  createAsyncCaller bg = inl e ->
  exists msg,
    (forall m, e = ErrorInstance m -> msg = m)
    /\ (forall m, e = OtherValue m -> msg = "Failed to process async tasks")
    /\ let value :=
         {| upd_error := Some (mkAsyncTaskError ServerError msg);
            upd_status := Error |} in
       let r := createImage env bg ctx input w in
       response r = inr {| success := true; data_batch := batch;
                           data_generations := map fst items |}
       /\ dispatched (trace r) = []
       /\ statusWrites (trace r) = map (fun item => (snd item, value)) items
       /\ consoleErrors (trace r) = [ProcessAsyncTasksFailed e]
       /\ forall (i : nat) t, asyncTasks (store wc) !! i = Some t ->
            asyncTasks (db r) !! i
            = Some (if decide (task_id t ∈ map snd items
                               /\ task_userId t = userId ctx
                               /\ updateFault bg (task_id t) = None)
                    then {| task_id := task_id t;
                            task_userId := task_userId t;
                            task_status := Error;
                            task_type := task_type t;
                            task_error :=
                              Some (mkAsyncTaskError ServerError msg) |}
                    else t).
Proof.
  intros Htx Hcaller.
  exists (errorMessageOr e "Failed to process async tasks").
  split; [intros m ->; reflexivity |].
  split; [intros m ->; reflexivity |].
  exact (dispatch_failure_effects env bg ctx input w batch items wc e
           Htx Hcaller).
Qed.

(* ===================================================================== *)
(** ** How the status of a task moves *)
(* ===================================================================== *)

Lemma statusStep_refl (l : list AsyncTask) : Forall2 statusStep l l.
Proof.
  apply Forall_Forall2_diag, Forall_forall. intros t _.
  split; [reflexivity | left; reflexivity].
Qed.

Lemma statusStep_trans (a b c : list AsyncTask) :
  Forall2 statusStep a b -> Forall2 statusStep b c -> Forall2 statusStep a c.
Proof.
  apply Forall2_trans. intros x y z [Hid1 Hs1] [Hid2 Hs2]. split.
  - congruence.
  - destruct Hs2 as [Hs2 | Hs2]; [| right; exact Hs2].
    destruct Hs1 as [Hs1 | Hs1]; [left | right]; congruence.
Qed.

Lemma update_statusStep bg uid tid value s s' :
  upd_status value = Error ->
  asyncTaskModel_update bg uid tid value s = inr s' ->
  Forall2 statusStep (asyncTasks s) (asyncTasks s').
Proof.
  intros Hv. unfold asyncTaskModel_update.
  destruct (updateFault bg tid); [discriminate |]. intros [= <-]. simpl.
  apply Forall2_fmap_r, Forall_Forall2_diag, Forall_forall. intros t _.
  simpl. case_decide; split; simpl; auto.
Qed.

Section Writes.
Context (bg : Background) (ctx : Ctx).







Lemma issueFallbackUpdates_statusStep e items : forall s,
  Forall2 statusStep (asyncTasks s)
    (asyncTasks (fst (fst (issueFallbackUpdates bg ctx e items s)))).
Proof.
  induction items as [| [g tid] items IH]; intros s; simpl;
    [apply statusStep_refl |].
  destruct (asyncTaskModel_update bg (userId ctx) tid (fallbackUpdate e) s)
    as [ue | s1] eqn:Hupd.
  - specialize (IH s).
    destruct (issueFallbackUpdates bg ctx e items s) as [[s2 st] ef].
    exact IH.
  - specialize (IH s1).
    destruct (issueFallbackUpdates bg ctx e items s1) as [[s2 st] ef].
    simpl in *. eapply statusStep_trans; [| exact IH].
    eapply update_statusStep; [| exact Hupd]. reflexivity.
Qed.

End Writes.

Lemma NoDup_fmap_subseteq {A B : Type} (f : A -> B) (l k : list A) :
  NoDup l -> l ⊆ k -> NoDup (map f k) -> NoDup (map f l).
Proof.
  intros Hl Hsub Hk. apply NoDup_fmap_2_strong; [| exact Hl].
  intros x y Hx Hy Hxy. apply Hsub in Hx, Hy.
  clear -Hk Hx Hy Hxy. induction k as [| z k IH]; [inversion Hx |].
  simpl in Hk. apply NoDup_cons in Hk as [Hz Hk].
  apply elem_of_cons in Hx as [-> | Hx]; apply elem_of_cons in Hy as [-> | Hy].
  - reflexivity.
  - exfalso. apply Hz. rewrite Hxy. apply list_elem_of_fmap. eauto.
  - exfalso. apply Hz. rewrite <- Hxy. apply list_elem_of_fmap. eauto.
  - apply IH; assumption.
Qed.


(* ===================================================================== *)
(** ** The concrete request, run *)
(* ===================================================================== *)

Lemma demo_ids_inj j k : Demo.ids j = Demo.ids k -> j = k.
Proof.
  unfold Demo.ids.
  generalize (NilEmpty.usu (Nat.to_uint j)), (NilEmpty.usu (Nat.to_uint k)).
  generalize (NilEmpty.string_of_uint (Nat.to_uint j)) as a.
  generalize (NilEmpty.string_of_uint (Nat.to_uint k)) as b.
  intros b a Ha Hb H.
  injection H as H. change (a = b) in H. subst b.
  rewrite Ha in Hb. injection Hb as H.
  apply Unsigned.to_uint_inj, H.
Qed.

Lemma demo_accepts : Accepts Demo.env Demo.emptyWorld.
Proof.
  repeat split.
  - intros k _ Hin. inversion Hin.
  - intros j k _ Hjk Heq. apply demo_ids_inj in Heq. lia.
Qed.

Lemma createImage_creates_rows_witness :
  response (createImage Demo.env Demo.quiet Demo.ctx Demo.input
              Demo.emptyWorld) = inr Demo.reply
  /\ exists items wc gens tasks,
       transaction
         (createImageTransaction Demo.env Demo.ctx Demo.input
            (configForDatabase Demo.env (params Demo.input))) Demo.emptyWorld
       = (inr (data_batch Demo.reply, items), wc)
       /\ generationBatches (store wc)
          = generationBatches (store Demo.emptyWorld) ++ [data_batch Demo.reply]
       /\ generations (store wc)
          = generations (store Demo.emptyWorld) ++ gens
       /\ asyncTasks (store wc) = asyncTasks (store Demo.emptyWorld) ++ tasks
       /\ Z.of_nat (length gens) = imageNum Demo.input
       /\ Z.of_nat (length tasks) = imageNum Demo.input
       /\ Forall (fun g => gen_generationBatchId g
                           = batch_id (data_batch Demo.reply)) gens
       /\ Forall (fun t => task_status t = Pending) tasks
       /\ map gen_asyncTaskId gens = map (fun t => Some (task_id t)) tasks
       /\ NoDup (map task_id tasks)
       /\ (forall t, t ∈ tasks ->
             task_id t ∉ map task_id (asyncTasks (store Demo.emptyWorld))).
Proof.
  split; [vm_compute; reflexivity |].
  apply (createImage_creates_rows Demo.env Demo.quiet Demo.ctx Demo.input
           Demo.emptyWorld Demo.reply).
  vm_compute. reflexivity.
Defined.

Lemma createImage_all_or_nothing_witness :
  createImageTransaction Demo.faultyEnv Demo.ctx Demo.input
    (configForDatabase Demo.faultyEnv (params Demo.input)) Demo.emptyWorld
  = Throw (ErrorInstance "connection lost")
  /\ response (createImage Demo.faultyEnv Demo.quiet Demo.ctx Demo.input
                 Demo.emptyWorld)
     = inl (ErrorInstance "connection lost")
  /\ db (createImage Demo.faultyEnv Demo.quiet Demo.ctx Demo.input
           Demo.emptyWorld)
     = store Demo.emptyWorld
  /\ trace (createImage Demo.faultyEnv Demo.quiet Demo.ctx Demo.input
              Demo.emptyWorld) = [].
Proof.
  split; [vm_compute; reflexivity |].
  apply (createImage_all_or_nothing Demo.faultyEnv Demo.quiet Demo.ctx
           Demo.input Demo.emptyWorld (ErrorInstance "connection lost")).
  vm_compute. reflexivity.
Defined.

Lemma rejected_call_marks_task_error_witness :
  createImageCall Demo.firstRejects Demo.call1 = Rejected Demo.lostReply
  /\ exists msg,
       (forall m, message Demo.lostReply = Some m -> m <> EmptyString ->
                  msg = m)
       /\ (message Demo.lostReply = None
           \/ message Demo.lostReply = Some EmptyString ->
           msg = "Unknown error")
       /\ let value :=
            {| upd_error := Some (mkAsyncTaskError ServerError msg);
               upd_status := Error |} in
          let s := store Demo.committed in
          let s' := fst (settle Demo.firstRejects Demo.ctx Demo.call1 s) in
          let effects :=
            snd (settle Demo.firstRejects Demo.ctx Demo.call1 s) in
          statusWrites effects = [(taskId Demo.call1, value)]
          /\ dispatched effects = []
          /\ consoleErrors effects
             = TaskExecutionError (taskId Demo.call1) Demo.lostReply
               :: match updateFault Demo.firstRejects (taskId Demo.call1) with
                  | Some updateError =>
                      [TaskUpdateFailed (taskId Demo.call1) updateError]
                  | None => []
                  end
          /\ generationBatches s' = generationBatches s
          /\ generations s' = generations s
          /\ length (asyncTasks s') = length (asyncTasks s)
          /\ forall (i : nat) t, asyncTasks s !! i = Some t ->
               asyncTasks s' !! i
               = Some (if decide (task_id t = taskId Demo.call1
                                  /\ task_userId t = userId Demo.ctx
                                  /\ updateFault Demo.firstRejects
                                       (taskId Demo.call1) = None)
                       then {| task_id := task_id t;
                               task_userId := task_userId t;
                               task_status := Error;
                               task_type := task_type t;
                               task_error :=
                                 Some (mkAsyncTaskError ServerError msg) |}
                       else t).
Proof.
  split; [vm_compute; reflexivity |].
  apply (rejected_call_marks_task_error Demo.firstRejects Demo.ctx Demo.call1
           Demo.lostReply (store Demo.committed)).
  vm_compute. reflexivity.
Defined.

Lemma response_independent_of_background_witness :
  transaction
    (createImageTransaction Demo.env Demo.ctx Demo.input
       (configForDatabase Demo.env (params Demo.input))) Demo.emptyWorld
  = (inr (Demo.batch, Demo.items), Demo.committed)
  /\ response (background Demo.quiet Demo.ctx [Demo.call1; Demo.call2]
                 (createImage Demo.env Demo.quiet Demo.ctx Demo.input
                    Demo.emptyWorld))
     = inr {| success := true; data_batch := Demo.batch;
              data_generations := map fst Demo.items |}
  /\ response (background Demo.quiet Demo.ctx [Demo.call1; Demo.call2]
                 (createImage Demo.env Demo.quiet Demo.ctx Demo.input
                    Demo.emptyWorld))
     = response (background Demo.noCaller Demo.ctx []
                   (createImage Demo.env Demo.noCaller Demo.ctx Demo.input
                      Demo.emptyWorld)).
Proof.
  split; [vm_compute; reflexivity |].
  apply (response_independent_of_background Demo.env Demo.ctx Demo.input
           Demo.emptyWorld Demo.batch Demo.items Demo.committed).
  vm_compute. reflexivity.
Defined.

Lemma seeds_assigned_in_order_witness :
  transaction
    (createImageTransaction Demo.env Demo.ctx Demo.input
       (configForDatabase Demo.env (params Demo.input))) Demo.emptyWorld
  = (inr (Demo.batch, Demo.items), Demo.committed)
  /\ UniqueSeeds (generateUniqueSeeds Demo.env) (imageNum Demo.input)
  /\ exists gens,
       generations (store Demo.committed)
       = generations (store Demo.emptyWorld) ++ gens
       /\ Z.of_nat (length gens) = imageNum Demo.input
       /\ match seed (params Demo.input) with
          | Some _ =>
              map gen_seed gens
              = map Some (generateUniqueSeeds Demo.env (imageNum Demo.input))
              /\ NoDup (map gen_seed gens)
          | None => Forall (fun g => gen_seed g = None) gens
          end.
Proof.
  assert (Hunique : UniqueSeeds (generateUniqueSeeds Demo.env)
                      (imageNum Demo.input)).
  { split; [reflexivity |]. vm_compute.
    apply (bool_decide_unpack _). vm_compute. exact I. }
  split; [vm_compute; reflexivity |]. split; [exact Hunique |].
  apply (seeds_assigned_in_order Demo.env Demo.ctx Demo.input Demo.emptyWorld
           Demo.batch Demo.items Demo.committed).
  - vm_compute. reflexivity.
  - intros _. exact Hunique.
Defined.

Lemma stored_config_uses_keys_or_original_witness :
  Accepts Demo.env Demo.emptyWorld
  /\ (exists resp,
        response (createImage Demo.env Demo.quiet Demo.ctx Demo.input
                    Demo.emptyWorld) = inr resp
        /\ imageUrls (params Demo.input) = Some ["https://cdn/x.png"]
        /\ imageUrls (batch_config (data_batch resp))
           = Some ["files/x.png"]
        /\ prompt (batch_config (data_batch resp))
           = prompt (params Demo.input)
        /\ passthrough (batch_config (data_batch resp))
           = passthrough (params Demo.input))
  /\ (exists resp,
        response (createImage Demo.env Demo.quiet Demo.ctx Demo.otherInput
                    Demo.emptyWorld) = inr resp
        /\ batch_config (data_batch resp) = params Demo.otherInput
        /\ imageUrls (batch_config (data_batch resp))
           = Some ["https://cdn/x.png"; "blob:local"]).
Proof.
  split; [exact demo_accepts |]. split.
  - destruct (stored_config_uses_keys_or_original Demo.env Demo.quiet Demo.ctx
                Demo.input Demo.emptyWorld demo_accepts)
      as (resp & Hresp & _ & _ & Hkeys & _); [simpl; lia |].
    exists resp. split; [exact Hresp |]. split; [reflexivity |].
    destruct (Hkeys ["https://cdn/x.png"] ["files/x.png"])
      as (Hurls & Hprompt & _ & _ & _ & _ & _ & Hpass);
      [reflexivity | discriminate | |].
    + constructor; [reflexivity | constructor].
    + split; [exact Hurls |]. split; [exact Hprompt | exact Hpass].
  - destruct (stored_config_uses_keys_or_original Demo.env Demo.quiet Demo.ctx
                Demo.otherInput Demo.emptyWorld demo_accepts)
      as (resp & Hresp & _ & _ & _ & Horiginal); [simpl; lia |].
    exists resp. split; [exact Hresp |].
    apply (Horiginal ["https://cdn/x.png"; "blob:local"] "blob:local"
             (ErrorInstance "Invalid URL")); [reflexivity | | reflexivity].
    right. left.
Defined.



Lemma seed_value_never_used_witness :
  seed (params Demo.input) = Some None
  /\ seed (params Demo.otherInput) = Some (Some 42%Z)
  /\ exists gens1 gens2,
       generations (store Demo.committed)
       = generations (store Demo.emptyWorld) ++ gens1
       /\ generations
            (store (snd (transaction
                           (createImageTransaction Demo.env Demo.ctx
                              Demo.otherInput
                              (configForDatabase Demo.env
                                 (params Demo.otherInput)))
                           Demo.emptyWorld)))
          = generations (store Demo.emptyWorld) ++ gens2
       /\ map gen_seed gens1 = map gen_seed gens2
       /\ map gen_seed gens1
          = map (fun index =>
                   default None
                     (map Some
                        (generateUniqueSeeds Demo.env (imageNum Demo.input))
                      !! index))
                (seq 0 (arrayLength (imageNum Demo.input))).
Proof.
  split; [reflexivity |]. split; [reflexivity |].
  eapply (seed_value_never_used Demo.env Demo.ctx Demo.input Demo.otherInput
            None (Some 42%Z) Demo.emptyWorld Demo.emptyWorld
            Demo.batch Demo.items Demo.committed).
  - reflexivity.
  - reflexivity.
  - reflexivity.
  - vm_compute. reflexivity.
  - vm_compute. reflexivity.
Defined.

(** C4 at a failing input: the caller cannot be built and the status write
    of the second task is rejected.  The request still succeeds and issues
    no remote call; both tasks get their write to Error; the first row
    takes it, the second keeps Pending; and the console holds the dispatch
    failure only -- [Promise.allSettled] absorbed the rejected write, so the
    [catch] that would report it is never entered. *)
Theorem fallback_write_failure_is_not_logged :
  let r := createImage Demo.env Demo.noCaller Demo.ctx Demo.input
             Demo.emptyWorld in
  response r = inr Demo.reply
  /\ dispatched (trace r) = []
  /\ map fst (statusWrites (trace r)) = ["id-6"; "id-9"]
  /\ Forall (fun tv => upd_status (snd tv) = Error) (statusWrites (trace r))
  /\ map task_status (asyncTasks (db r)) = [Error; Pending]
  /\ updateFault Demo.noCaller "id-9" = Some (ErrorInstance "connection lost")
  /\ consoleErrors (trace r)
     = [ProcessAsyncTasksFailed (ErrorInstance "caller unavailable")].
Proof.
  vm_compute. repeat split; repeat constructor.
Qed.

(* ===================================================================== *)
(** ** The database after the settlements *)
(* ===================================================================== *)

Lemma settle_rows bg ctx call s :
  generationBatches (fst (settle bg ctx call s)) = generationBatches s
  /\ generations (fst (settle bg ctx call s)) = generations s
  /\ asyncTasks (fst (settle bg ctx call s))
     = map (settleRow bg ctx call) (asyncTasks s).
Proof.
  unfold settle, settleRow.
  destruct (createImageCall bg call) as [| e |];
    try (simpl; rewrite map_id; repeat split; reflexivity).
  unfold onRejected, asyncTaskModel_update.
  destruct (updateFault bg (taskId call)) as [ue |] eqn:Hf; simpl.
  - repeat split. symmetry. erewrite map_ext; [apply map_id |].
    intros t. simpl. rewrite decide_False; [reflexivity |].
    intros (_ & _ & [=]).
  - repeat split. apply map_ext. intros t.
    destruct (decide (task_id t = taskId call /\ task_userId t = userId ctx))
      as [[Hid Hu] | Hmiss].
    + rewrite decide_True by (repeat split; assumption). reflexivity.
    + rewrite decide_False; [reflexivity |].
      intros (Hid & Hu & _). apply Hmiss. split; assumption.
Qed.

Lemma background_rows bg ctx order : forall r,
  generationBatches (db (background bg ctx order r)) = generationBatches (db r)
  /\ generations (db (background bg ctx order r)) = generations (db r)
  /\ asyncTasks (db (background bg ctx order r))
     = map (settledRow bg ctx order) (asyncTasks (db r)).
Proof.
  induction order as [| call order IH]; intros r; simpl.
  - rewrite map_id. repeat split; reflexivity.
  - destruct (settle_rows bg ctx call (db r)) as (Hb & Hg & Ht).
    destruct (settle bg ctx call (db r)) as [s effects]. simpl in *.
    destruct (IH {| response := response r; db := s;
                    trace := trace r ++ effects |}) as (Hb' & Hg' & Ht').
    simpl in *. rewrite Hb', Hg', Ht', Hb, Hg, Ht, map_map.
    repeat split; reflexivity.
Qed.

Lemma settleRow_identity bg ctx call t :
  task_id (settleRow bg ctx call t) = task_id t
  /\ task_userId (settleRow bg ctx call t) = task_userId t.
Proof.
  unfold settleRow. destruct (createImageCall bg call); try (split; reflexivity).
  case_decide; split; reflexivity.
Qed.

Lemma settleRow_miss bg ctx call t :
  task_id t <> taskId call -> settleRow bg ctx call t = t.
Proof.
  intros Hne. unfold settleRow.
  destruct (createImageCall bg call); try reflexivity.
  rewrite decide_False; [reflexivity |]. intros (Hid & _). exact (Hne Hid).
Qed.

Lemma settledRow_miss bg ctx order : forall t,
  task_id t ∉ map taskId order -> settledRow bg ctx order t = t.
Proof.
  induction order as [| call order IH]; intros t Hmiss; [reflexivity |].
  simpl in *. apply not_elem_of_cons in Hmiss as [Hne Hmiss].
  rewrite settleRow_miss by exact Hne. apply IH, Hmiss.
Qed.

Lemma settledRow_hit bg ctx order : forall call t,
  NoDup (map taskId order) -> call ∈ order -> task_id t = taskId call ->
  settledRow bg ctx order t = settleRow bg ctx call t.
Proof.
  induction order as [| c order IH]; intros call t Hnd Hin Hid;
    [inversion Hin |].
  simpl in *. apply NoDup_cons in Hnd as [Hnew Hnd].
  apply elem_of_cons in Hin as [<- | Hin].
  - apply settledRow_miss.
    destruct (settleRow_identity bg ctx call t) as [-> _].
    rewrite Hid. exact Hnew.
  - assert (Hne : task_id t <> taskId c).
    { intros Heq. apply Hnew. rewrite <- Heq, Hid.
      apply list_elem_of_fmap. eauto. }
    rewrite settleRow_miss by exact Hne. apply IH; assumption.
Qed.

Lemma settledRow_perm bg ctx order order' t :
  NoDup (map taskId order) -> order ≡ₚ order' ->
  settledRow bg ctx order t = settledRow bg ctx order' t.
Proof.
  intros Hnd Hperm.
  assert (Hnd' : NoDup (map taskId order')).
  { eapply NoDup_Permutation_proper; [| exact Hnd].
    symmetry. apply fmap_Permutation, Hperm. }
  destruct (decide (task_id t ∈ map taskId order)) as [Hin | Hout].
  - apply list_elem_of_fmap in Hin as (call & Hid & Hin).
    rewrite (settledRow_hit bg ctx order call t Hnd Hin Hid).
    symmetry. apply settledRow_hit; [exact Hnd' | | exact Hid].
    rewrite <- Hperm. exact Hin.
  - rewrite settledRow_miss by exact Hout.
    symmetry. apply settledRow_miss. intros Hin. apply Hout.
    eapply elem_of_Permutation_proper; [| exact Hin].
    apply fmap_Permutation, Hperm.
Qed.

(** What a committed request knows about the calls that may settle. *)
Lemma committed_calls env bg ctx input w batch items wc order :
  transaction
    (createImageTransaction env ctx input
       (configForDatabase env (params input))) w
  = (inr (batch, items), wc) ->
  NoDup order ->
  order ⊆ dispatched (trace (createImage env bg ctx input w)) ->
  NoDup (map taskId order)
  /\ (forall call, call ∈ order -> taskId call ∈ map snd items)
  /\ (order <> [] -> createAsyncCaller bg = inr tt).
Proof.
  intros Htx Hnd Hsub.
  pose proof Htx as Hshape.
  apply transaction_commit, commit_shape in Hshape
    as (tasks & _ & _ & _ & _ & _ & _ & _ & Hsnd & _ & Hndt & _).
  rewrite (createImage_committed env bg ctx input w batch items wc Htx)
    in Hsub.
  simpl in Hsub. unfold dispatch in Hsub.
  destruct (createAsyncCaller bg) as [e | []]; simpl in Hsub.
  - unfold onDispatchFailure in Hsub.
    pose proof (issueFallbackUpdates_effects bg ctx e items (store wc)) as Hef.
    destruct (issueFallbackUpdates bg ctx e items (store wc)) as [[s' st] ef].
    simpl in *. subst ef.
    destruct (writes_only_trace snd (fun _ => fallbackUpdate e) items)
      as (H1 & _).
    rewrite H1 in Hsub.
    assert (order = []) as ->.
    { destruct order as [| c order]; [reflexivity |].
      specialize (Hsub c ltac:(left)). inversion Hsub. }
    repeat split; [constructor | | congruence].
    intros call Hin. inversion Hin.
  - destruct (calls_only_trace (payloadFor input) items) as (H1 & _).
    rewrite H1 in Hsub.
    assert (Hids : map taskId (map (payloadFor input) items) = map snd items).
    { rewrite map_map. reflexivity. }
    repeat split.
    + apply (NoDup_fmap_subseteq _ _ _ Hnd Hsub).
      rewrite Hids, Hsnd. exact Hndt.
    + intros call Hin. rewrite <- Hids. apply list_elem_of_fmap.
      exists call. split; [reflexivity | apply Hsub, Hin].
Qed.

(** The database when the handler returns, after a commit with the caller
    built: the committed one. *)
Lemma createImage_db_dispatched env bg ctx input w batch items wc :
  transaction
    (createImageTransaction env ctx input
       (configForDatabase env (params input))) w
  = (inr (batch, items), wc) ->
  createAsyncCaller bg = inr tt ->
  db (createImage env bg ctx input w) = store wc.
Proof.
  intros Htx Hcaller.
  rewrite (createImage_committed env bg ctx input w batch items wc Htx).
  simpl. unfold dispatch. rewrite Hcaller. reflexivity.
Qed.

(** X1: the order in which the remote calls settle does not matter for the
    database. *)
Theorem settlement_order_irrelevant
    env bg ctx input w batch items wc order order' :
  transaction
    (createImageTransaction env ctx input
       (configForDatabase env (params input))) w
  = (inr (batch, items), wc) ->
  NoDup order ->
  order ⊆ dispatched (trace (createImage env bg ctx input w)) ->
  order ≡ₚ order' ->
  db (background bg ctx order (createImage env bg ctx input w))
  = db (background bg ctx order' (createImage env bg ctx input w)).
Proof.
  intros Htx Hnd Hsub Hperm.
  destruct (committed_calls env bg ctx input w batch items wc order
              Htx Hnd Hsub) as (Hids & _ & _).
  destruct (background_rows bg ctx order (createImage env bg ctx input w))
    as (Hb & Hg & Ht).
  destruct (background_rows bg ctx order' (createImage env bg ctx input w))
    as (Hb' & Hg' & Ht').
  destruct (db (background bg ctx order (createImage env bg ctx input w)))
    as [b1 g1 t1].
  destruct (db (background bg ctx order' (createImage env bg ctx input w)))
    as [b2 g2 t2].
  simpl in *. subst. f_equal.
  apply map_ext. intros t. apply settledRow_perm; assumption.
Qed.

Lemma settledRow_identity bg ctx order : forall t,
  task_id (settledRow bg ctx order t) = task_id t
  /\ task_userId (settledRow bg ctx order t) = task_userId t.
Proof.
  induction order as [| call order IH]; intros t; [split; reflexivity |].
  simpl. destruct (IH (settleRow bg ctx call t)) as [-> ->].
  apply settleRow_identity.
Qed.

(** The task rows of a committed request, by identifier. *)
Lemma committed_task_rows env ctx input w batch items wc :
  transaction
    (createImageTransaction env ctx input
       (configForDatabase env (params input))) w
  = (inr (batch, items), wc) ->
  (forall tid, tid ∈ map snd items ->
     exists t, t ∈ asyncTasks (store wc) /\ task_id t = tid)
  /\ (forall t, t ∈ asyncTasks (store wc) -> task_id t ∈ map snd items ->
        pendingTaskOf (userId ctx) t)
  /\ NoDup (map snd items).
Proof.
  intros Htx.
  apply transaction_commit, commit_shape in Htx
    as (tasks & _ & _ & Ht & _ & _ & _ & _ & Hsnd & Hpend & Hnd & Hnew & _).
  rewrite Ht, Hsnd. split; [| split; [| exact Hnd]].
  - intros tid Hin. apply list_elem_of_fmap in Hin as (t & -> & Hin).
    exists t. split; [| reflexivity]. apply elem_of_app. right. exact Hin.
  - intros t Hin Hid. apply elem_of_app in Hin as [Hold | Hin].
    + exfalso. apply list_elem_of_fmap in Hid as (t' & Heq & Hin').
      apply (Hnew t' Hin'). rewrite <- Heq.
      apply list_elem_of_fmap. eauto.
    + rewrite Forall_forall in Hpend. apply Hpend, Hin.
Qed.

(** X2: a rejected call whose status write goes through leaves its task in
    Error with the message of the rejection, wherever the call stands in
    the settlement order. *)
Theorem rejected_task_ends_in_error
    env bg ctx input w batch items wc order call e :
  transaction
    (createImageTransaction env ctx input
       (configForDatabase env (params input))) w
  = (inr (batch, items), wc) ->
  NoDup order ->
  order ⊆ dispatched (trace (createImage env bg ctx input w)) ->
  call ∈ order ->
  createImageCall bg call = Rejected e ->
  updateFault bg (taskId call) = None ->
  let final := db (background bg ctx order (createImage env bg ctx input w)) in
  (exists t, t ∈ asyncTasks final /\ task_id t = taskId call)
  /\ (forall t, t ∈ asyncTasks final -> task_id t = taskId call ->
        task_status t = Error
        /\ task_error t
           = Some (mkAsyncTaskError ServerError
                     (messageOr e "Unknown error"))).
Proof.
  intros Htx Hnd Hsub Hin Hrej Hok final. subst final.
  destruct (committed_calls env bg ctx input w batch items wc order
              Htx Hnd Hsub) as (Hids & Hnew & Hcaller).
  assert (Hc : createAsyncCaller bg = inr tt).
  { apply Hcaller. intros ->. inversion Hin. }
  destruct (background_rows bg ctx order (createImage env bg ctx input w))
    as (_ & _ & ->).
  rewrite (createImage_db_dispatched env bg ctx input w batch items wc Htx Hc).
  destruct (committed_task_rows env ctx input w batch items wc Htx)
    as (Hexists & Hpending & _).
  assert (Hrow : forall t0, t0 ∈ asyncTasks (store wc) ->
            task_id t0 = taskId call ->
            settledRow bg ctx order t0 = applyUpdate (rejectionUpdate e) t0).
  { intros t0 Ht0 Hid.
    rewrite (settledRow_hit bg ctx order call t0 Hids Hin Hid).
    unfold settleRow. rewrite Hrej.
    destruct (Hpending t0 Ht0) as (Hu & _).
    { rewrite Hid. apply Hnew, Hin. }
    rewrite decide_True by (repeat split; assumption). reflexivity. }
  split.
  - destruct (Hexists (taskId call) (Hnew call Hin)) as (t0 & Ht0 & Hid).
    exists (settledRow bg ctx order t0). split.
    + apply list_elem_of_fmap. eauto.
    + destruct (settledRow_identity bg ctx order t0) as [-> _]. exact Hid.
  - intros t Ht Hid. apply list_elem_of_fmap in Ht as (t0 & -> & Ht0).
    destruct (settledRow_identity bg ctx order t0) as [Hsame _].
    rewrite Hsame in Hid. rewrite (Hrow t0 Ht0 Hid). split; reflexivity.
Qed.

(** X3: the handler never records success.  With the caller built, the task
    of a call that is fulfilled, or has not settled, is still Pending and
    without error when the other calls have settled. *)
Theorem unrejected_task_stays_pending
    env bg ctx input w batch items wc order item :
  transaction
    (createImageTransaction env ctx input
       (configForDatabase env (params input))) w
  = (inr (batch, items), wc) ->
  createAsyncCaller bg = inr tt ->
  NoDup order ->
  order ⊆ dispatched (trace (createImage env bg ctx input w)) ->
  item ∈ items ->
  (payloadFor input item ∉ order
   \/ forall e, createImageCall bg (payloadFor input item) <> Rejected e) ->
  let final := db (background bg ctx order (createImage env bg ctx input w)) in
  (exists t, t ∈ asyncTasks final /\ task_id t = snd item)
  /\ (forall t, t ∈ asyncTasks final -> task_id t = snd item ->
        task_status t = Pending /\ task_error t = None).
Proof.
  intros Htx Hc Hnd Hsub Hitem Hquiet final. subst final.
  destruct (committed_calls env bg ctx input w batch items wc order
              Htx Hnd Hsub) as (Hids & Hnew & _).
  destruct (background_rows bg ctx order (createImage env bg ctx input w))
    as (_ & _ & ->).
  assert (Hcalls : dispatched (trace (createImage env bg ctx input w))
                   = map (payloadFor input) items).
  { rewrite (createImage_committed env bg ctx input w batch items wc Htx).
    simpl. unfold dispatch. rewrite Hc. simpl.
    apply (calls_only_trace (payloadFor input) items). }
  rewrite Hcalls in Hsub.
  rewrite (createImage_db_dispatched env bg ctx input w batch items wc Htx Hc).
  destruct (committed_task_rows env ctx input w batch items wc Htx)
    as (Hexists & Hpending & Hndi).
  assert (Hin : snd item ∈ map snd items).
  { apply list_elem_of_fmap. eauto. }
  assert (Hrow : forall t0, t0 ∈ asyncTasks (store wc) ->
            task_id t0 = snd item -> settledRow bg ctx order t0 = t0).
  { intros t0 Ht0 Hid.
    destruct (decide (task_id t0 ∈ map taskId order)) as [Hhit | Hmiss];
      [| apply settledRow_miss, Hmiss].
    apply list_elem_of_fmap in Hhit as (call & Hcid & Hcall).
    rewrite (settledRow_hit bg ctx order call t0 Hids Hcall Hcid).
    assert (call = payloadFor input item) as ->.
    { pose proof (Hsub call Hcall) as Hd.
      apply list_elem_of_fmap in Hd as (item' & -> & Hitem').
      f_equal. simpl in Hcid. rewrite Hid in Hcid.
      clear -Hndi Hitem Hitem' Hcid.
      induction items as [| x items IH]; [inversion Hitem |].
      simpl in Hndi. apply NoDup_cons in Hndi as [Hx Hndi].
      apply elem_of_cons in Hitem as [-> | Hitem];
        apply elem_of_cons in Hitem' as [-> | Hitem'].
      - reflexivity.
      - exfalso. apply Hx. rewrite Hcid. apply list_elem_of_fmap. eauto.
      - exfalso. apply Hx. rewrite <- Hcid. apply list_elem_of_fmap. eauto.
      - apply IH; assumption. }
    destruct Hquiet as [Hout | Hquiet]; [contradiction |].
    unfold settleRow.
    destruct (createImageCall bg (payloadFor input item)) as [| e |] eqn:Ho;
      try reflexivity.
    exfalso. exact (Hquiet e eq_refl). }
  split.
  - destruct (Hexists (snd item) Hin) as (t0 & Ht0 & Hid).
    exists t0. split; [| exact Hid].
    apply list_elem_of_fmap. exists t0. split; [| exact Ht0].
    symmetry. apply Hrow; assumption.
  - intros t Ht Hid. apply list_elem_of_fmap in Ht as (t0 & -> & Ht0).
    destruct (settledRow_identity bg ctx order t0) as [Hsame _].
    rewrite Hsame in Hid. rewrite (Hrow t0 Ht0 Hid).
    destruct (Hpending t0 Ht0) as (_ & Hst & _ & Her).
    { rewrite Hid. exact Hin. }
    split; assumption.
Qed.

Lemma fallback_rows_map bg ctx e items s :
  asyncTasks (fst (fst (issueFallbackUpdates bg ctx e items s)))
  = map (fun t => if decide (reached bg ctx items t)
                  then applyUpdate (fallbackUpdate e) t else t)
        (asyncTasks s).
Proof.
  pose proof (issueFallbackUpdates_rows bg ctx e items s) as Hrows.
  pose proof (issueFallbackUpdates_statusStep bg ctx e items s) as Hlen.
  apply Forall2_length in Hlen. simpl in Hrows.
  apply list_eq. intros i. rewrite list_lookup_fmap.
  destruct (asyncTasks s !! i) as [t |] eqn:Hi.
  - rewrite (Hrows i t Hi). reflexivity.
  - simpl. apply lookup_ge_None. apply lookup_ge_None in Hi. lia.
Qed.

(** X4: a request leaves every row that existed before it as it was: the
    tables after the handler and all settlements are the old tables
    followed by rows of this request. *)
Theorem earlier_rows_untouched env bg ctx input w batch items wc order :
  transaction
    (createImageTransaction env ctx input
       (configForDatabase env (params input))) w
  = (inr (batch, items), wc) ->
  NoDup order ->
  order ⊆ dispatched (trace (createImage env bg ctx input w)) ->
  let final := db (background bg ctx order (createImage env bg ctx input w)) in
  generationBatches final = generationBatches (store w) ++ [batch]
  /\ generations final = generations (store w) ++ map linked items
  /\ exists tasks,
       asyncTasks final = asyncTasks (store w) ++ tasks
       /\ map task_id tasks = map snd items.
Proof.
  intros Htx Hnd Hsub final. subst final.
  destruct (committed_calls env bg ctx input w batch items wc order
              Htx Hnd Hsub) as (_ & Hnew & _).
  destruct (background_rows bg ctx order (createImage env bg ctx input w))
    as (-> & -> & ->).
  rewrite (createImage_committed env bg ctx input w batch items wc Htx).
  simpl.
  destruct (dispatch_frame bg ctx input items (store wc)) as [-> ->].
  pose proof Htx as Hshape.
  apply transaction_commit, commit_shape in Hshape
    as (tasks & Hb & Hg & Ht & _ & _ & _ & _ & Hsnd & _ & _ & Hfresh & _).
  split; [exact Hb |]. split; [exact Hg |].
  assert (Hold : forall t, t ∈ asyncTasks (store w) ->
            task_id t ∉ map snd items).
  { intros t Hin Hid. rewrite Hsnd in Hid.
    apply list_elem_of_fmap in Hid as (t' & Heq & Hin').
    apply (Hfresh t' Hin'). rewrite <- Heq. apply list_elem_of_fmap. eauto. }
  assert (Hsettled : forall t, t ∈ asyncTasks (store w) ->
            settledRow bg ctx order t = t).
  { intros t Hin. apply settledRow_miss. intros Hid.
    apply list_elem_of_fmap in Hid as (call & Heq & Hcall).
    apply (Hold t Hin). rewrite Heq. apply Hnew, Hcall. }
  unfold dispatch. destruct (createAsyncCaller bg) as [e | []]; simpl.
  - unfold onDispatchFailure.
    pose proof (fallback_rows_map bg ctx e items (store wc)) as Hrows.
    destruct (issueFallbackUpdates bg ctx e items (store wc)) as [[s' st] ef].
    simpl in *. rewrite Hrows, Ht, !map_app.
    eexists. split.
    + f_equal. rewrite map_map. rewrite <- (map_id (asyncTasks (store w))) at 2.
      apply map_ext_in. intros t Hin. apply list_elem_of_In in Hin.
      rewrite decide_False.
      * apply Hsettled, Hin.
      * intros (Hid & _). exact (Hold t Hin Hid).
    + rewrite !map_map. rewrite Hsnd. apply map_ext. intros t.
      destruct (settledRow_identity bg ctx order
                  (if decide (reached bg ctx items t)
                   then applyUpdate (fallbackUpdate e) t else t)) as [-> _].
      case_decide; reflexivity.
  - rewrite Ht, map_app. eexists. split.
    + f_equal. rewrite <- (map_id (asyncTasks (store w))) at 2.
      apply map_ext_in. intros t Hin. apply list_elem_of_In in Hin.
      apply Hsettled, Hin.
    + rewrite map_map, Hsnd. apply map_ext. intros t.
      apply settledRow_identity.
Qed.

(** X5: the generation rows handed back to the caller are the rows as they
    were inserted, without a task; the committed rows are those rows with
    the task identifiers filled in. *)
Theorem returned_generations_are_unlinked env bg ctx input w resp :
  response (createImage env bg ctx input w) = inr resp ->
  exists wc taskIds,
    snd (transaction
           (createImageTransaction env ctx input
              (configForDatabase env (params input))) w) = wc
    /\ length taskIds = length (data_generations resp)
    /\ generations (store wc)
       = generations (store w)
         ++ zip_with setAsyncTaskId taskIds (data_generations resp)
    /\ Forall (fun g => gen_asyncTaskId g = None) (data_generations resp)
    /\ success resp = true.
Proof.
  intros Hresp.
  apply createImage_success in Hresp as (items & wc & Htx & Hr).
  exists wc, (map snd items). rewrite Htx. split; [reflexivity |].
  apply transaction_commit, commit_shape in Htx
    as (tasks & _ & Hg & _ & _ & _ & Hfresh & _).
  rewrite Hr. simpl. rewrite !length_map. split; [reflexivity |].
  split; [| split; [| reflexivity]].
  - rewrite Hg. f_equal. clear.
    induction items as [| [g t] items IH]; [reflexivity |].
    simpl. rewrite <- IH. reflexivity.
  - eapply Forall_impl; [exact Hfresh |]. intros g (_ & _ & Hnone). exact Hnone.
Qed.

Lemma insertBatch_row env nb w row w' :
  insertBatch env nb w = Ok row w' ->
  row = {| batch_id := batch_id row; batch_userId := nb_userId nb;
           batch_generationTopicId := nb_generationTopicId nb;
           batch_provider := nb_provider nb; batch_model := nb_model nb;
           batch_prompt := nb_prompt nb; batch_width := nb_width nb;
           batch_height := nb_height nb; batch_config := nb_config nb |}.
Proof.
  unfold insertBatch. intros H.
  tx_bind H as u w1 H1. tx_bind H as used w2 H2. tx_bind H as id w3 H3.
  tx_bind H as u' w4 H4. apply ret_Ok in H as [<- _]. reflexivity.
Qed.

Lemma configForDatabase_untouched env p :
  imageUrls p = None \/ imageUrls p = Some [] ->
  configForDatabase env p = p.
Proof.
  intros [H | H]; unfold configForDatabase; rewrite H; reflexivity.
Qed.

(** X6: the batch row of a successful request carries the caller's user id,
    the topic, provider and model of the request, and prompt, width and
    height lifted out of the parameters.  Its configuration holds the
    resolved keys as [imageUrls], and every other parameter as received,
    when [imageUrls] is a non-empty array whose URLs all resolve; it is
    the parameters as received when there is no such array, when the
    array is empty, and when resolving some URL throws. *)
Theorem batch_row_fields env bg ctx input w resp :
  response (createImage env bg ctx input w) = inr resp ->
  let batch := data_batch resp in
  batch ∈ generationBatches (db (createImage env bg ctx input w))
  /\ batch_userId batch = userId ctx
  /\ batch_generationTopicId batch = generationTopicId input
  /\ batch_provider batch = provider input
  /\ batch_model batch = model input
  /\ batch_prompt batch = prompt (params input)
  /\ batch_width batch = width (params input)
  /\ batch_height batch = height (params input)
  /\ (forall urls keys,
        imageUrls (params input) = Some urls -> urls <> [] ->
        Forall2 (fun url key => getKeyFromFullUrl env url = inr key)
                urls keys ->
        imageUrls (batch_config batch) = Some keys
        /\ prompt (batch_config batch) = prompt (params input)
        /\ width (batch_config batch) = width (params input)
        /\ height (batch_config batch) = height (params input)
        /\ seed (batch_config batch) = seed (params input)
        /\ steps (batch_config batch) = steps (params input)
        /\ cfg (batch_config batch) = cfg (params input)
        /\ passthrough (batch_config batch) = passthrough (params input))
  /\ (imageUrls (params input) = None
      \/ imageUrls (params input) = Some []
      \/ (exists urls url e,
            imageUrls (params input) = Some urls /\ url ∈ urls
            /\ getKeyFromFullUrl env url = inl e) ->
      batch_config batch = params input)
  /\ batch_id batch ∉ map batch_id (generationBatches (store w)).
Proof.
  intros Hresp batch. subst batch.
  apply createImage_success in Hresp as (items & wc & Htx & _).
  rewrite (createImage_committed env bg ctx input w _ items wc Htx). simpl.
  destruct (dispatch_frame bg ctx input items (store wc)) as [-> _].
  apply transaction_commit in Htx.
  pose proof Htx as Hshape. apply commit_shape in Hshape as (_ & Hb & _).
  unfold createImageTransaction in Htx.
  tx_bind Htx as b w1 H1. tx_bind Htx as gens w2 H2.
  tx_bind Htx as gwt w3 H3. apply ret_Ok in Htx as [Heq <-].
  injection Heq as Hbatch _. rewrite <- Hbatch in *.
  pose proof (insertBatch_row _ _ _ _ _ H1) as Hrow.
  apply insertBatch_Ok in H1 as (_ & _ & _ & _ & _ & Hnew).
  split; [rewrite Hb; apply elem_of_app; right; left |].
  rewrite Hrow. simpl.
  split; [reflexivity |]. split; [reflexivity |]. split; [reflexivity |].
  split; [reflexivity |]. split; [reflexivity |]. split; [reflexivity |].
  split; [reflexivity |]. split; [| split; [| exact Hnew]].
  - intros urls keys Hurls Hne Hkeys.
    rewrite (configForDatabase_keys env (params input) urls keys
               Hurls Hne Hkeys).
    simpl. split; [reflexivity |]. split; [reflexivity |].
    split; [reflexivity |]. split; [reflexivity |].
    split; [reflexivity |]. split; [reflexivity |].
    split; reflexivity.
  - intros [Hnone | [Hempty | (urls & url & e & Hurls & Hin & He)]].
    + apply configForDatabase_untouched. left. exact Hnone.
    + apply configForDatabase_untouched. right. exact Hempty.
    + exact (configForDatabase_throw env (params input) urls url e
               Hurls Hin He).
Qed.

(* ===================================================================== *)
(** ** The status of a task over time *)
(* ===================================================================== *)








(* ===================================================================== *)
(** ** The client store *)
(* ===================================================================== *)

Lemma append_cons (a : ascii) (s t : string) :
  String a s +:+ t = String a (s +:+ t).
Proof. reflexivity. Qed.

Lemma append_nil (t : string) : EmptyString +:+ t = t.
Proof. reflexivity. Qed.

Lemma append_inv_head (s a b : string) : s +:+ a = s +:+ b -> a = b.
Proof.
  induction s as [| c s IH]; intros H; [exact H |].
  rewrite !append_cons in H. injection H as H. exact (IH H).
Qed.

(** A decimal numeral ends where the first dash stands. *)
Lemma numeral_then_dash d1 : forall d2 t1 t2,
  NilEmpty.string_of_uint d1 +:+ "-" +:+ t1
  = NilEmpty.string_of_uint d2 +:+ "-" +:+ t2 ->
  d1 = d2 /\ t1 = t2.
Proof.
  induction d1 as [| d1 IH | d1 IH | d1 IH | d1 IH | d1 IH | d1 IH
                   | d1 IH | d1 IH | d1 IH | d1 IH];
    intros [| d2 | d2 | d2 | d2 | d2 | d2 | d2 | d2 | d2 | d2] t1 t2 H;
    simpl NilEmpty.string_of_uint in H;
    rewrite ?append_cons, ?append_nil in H;
    try discriminate;
    injection H as H;
    try (destruct (IH _ _ _ H) as [-> ->]; split; reflexivity).
  split; [reflexivity | exact H].
Qed.

Lemma decimal_inj a b : Client.decimal a = Client.decimal b -> a = b.
Proof.
  unfold Client.decimal. intros H.
  apply (f_equal NilEmpty.uint_of_string) in H.
  rewrite !NilEmpty.usu in H. injection H as H.
  apply DecimalN.Unsigned.to_uint_inj, H.
Qed.

(** Two identifiers [prefix-<clock>-<index>] are equal only if clock
    reading and index agree. *)
Lemma temp_id_inj (prefix : string) a i b j :
  prefix +:+ Client.decimal a +:+ "-" +:+ Client.decimal i
  = prefix +:+ Client.decimal b +:+ "-" +:+ Client.decimal j ->
  a = b /\ i = j.
Proof.
  intros H. apply append_inv_head in H. unfold Client.decimal in H.
  apply numeral_then_dash in H as [Ha Hi]. split.
  - apply DecimalN.Unsigned.to_uint_inj, Ha.
  - apply decimal_inj, Hi.
Qed.

(** What every placeholder generation looks like. *)
Lemma tempGenerations_spec now count : forall i k,
  let gens := fst (Client.tempGenerations now count i k) in
  length gens = count
  /\ Forall (fun g =>
               Client.tg_asset g = None /\ Client.tg_seed g = None
               /\ Client.tg_asyncTaskId g = None
               /\ Client.tt_status (Client.tg_task g) = Pending
               /\ exists a b j,
                    i <= j
                    /\ Client.tg_id g
                       = "temp-gen-" +:+ Client.decimal a +:+ "-"
                         +:+ Client.decimal (N.of_nat j)
                    /\ Client.tt_id (Client.tg_task g)
                       = "temp-task-" +:+ Client.decimal b +:+ "-"
                         +:+ Client.decimal (N.of_nat j)) gens
  /\ NoDup (map Client.tg_id gens)
  /\ NoDup (map (fun g => Client.tt_id (Client.tg_task g)) gens).
Proof.
  induction count as [| count IH]; intros i k; simpl.
  - repeat split; constructor.
  - specialize (IH (S i) (S (S (S k)))).
    destruct (Client.tempGenerations now count (S i) (S (S (S k))))
      as [rest k'].
    simpl in *. destruct IH as (Hlen & Hall & Hnd1 & Hnd2).
    split; [rewrite Hlen; reflexivity |]. split; [| split].
    + constructor.
      * repeat split. eexists _, _, i. repeat split. lia.
      * eapply Forall_impl; [exact Hall |].
        intros g (H1 & H2 & H3 & H4 & a & b & j & Hj & H5 & H6).
        repeat split; try assumption. exists a, b, j.
        repeat split; try assumption. lia.
    + constructor; [| exact Hnd1]. intros Hin.
      apply list_elem_of_fmap in Hin as (g & Hid & Hg).
      rewrite Forall_forall in Hall.
      destruct (Hall g Hg) as (_ & _ & _ & _ & a & b & j & Hj & H5 & _).
      rewrite H5 in Hid. apply temp_id_inj in Hid as [_ Hij]. lia.
    + constructor; [| exact Hnd2]. intros Hin.
      apply list_elem_of_fmap in Hin as (g & Hid & Hg).
      rewrite Forall_forall in Hall.
      destruct (Hall g Hg) as (_ & _ & _ & _ & a & b & j & Hj & _ & H6).
      rewrite H6 in Hid. apply temp_id_inj in Hid as [_ Hij]. lia.
Qed.

(** What the requests of the two actions rely on. *)
Lemma createTempBatch_fields
    now provider model prompt config imageNum width height k :
  let batch :=
    fst (Client.createTempBatch now provider model prompt config imageNum
           width height k) in
  length (Client.tb_generations batch) = Z.to_nat imageNum
  /\ Client.tb_provider batch = provider
  /\ Client.tb_model batch = model
  /\ Client.tb_prompt batch = prompt
  /\ Client.tb_config batch = config.
Proof.
  unfold Client.createTempBatch.
  pose proof (tempGenerations_spec now (Z.to_nat imageNum) 0 (S k)) as Hspec.
  destruct (Client.tempGenerations now (Z.to_nat imageNum) 0 (S k))
    as [gens k'].
  simpl in *. destruct Hspec as (Hlen & _).
  repeat split; try reflexivity. exact Hlen.
Qed.

(** X8: the optimistic batch holds one placeholder per requested image --
    none for a count below one -- each Pending and without asset, seed or
    task link; provider, model, prompt and configuration are the ones
    given; a width or height that is missing or zero is stored as null. *)
Theorem createTempBatch_placeholders
    now provider model prompt config imageNum width height k :
  let batch :=
    fst (Client.createTempBatch now provider model prompt config imageNum
           width height k) in
  length (Client.tb_generations batch) = Z.to_nat imageNum
  /\ Forall (fun g =>
               Client.tg_asset g = None /\ Client.tg_seed g = None
               /\ Client.tg_asyncTaskId g = None
               /\ Client.tt_status (Client.tg_task g) = Pending)
            (Client.tb_generations batch)
  /\ Client.tb_provider batch = provider
  /\ Client.tb_model batch = model
  /\ Client.tb_prompt batch = prompt
  /\ Client.tb_config batch = config
  /\ (Client.tb_width batch = None <-> width = None \/ width = Some 0%Z)
  /\ (Client.tb_height batch = None <-> height = None \/ height = Some 0%Z)
  /\ (forall v, v <> 0%Z -> width = Some v ->
        Client.tb_width batch = Some v)
  /\ (forall v, v <> 0%Z -> height = Some v ->
        Client.tb_height batch = Some v).
Proof.
  unfold Client.createTempBatch.
  pose proof (tempGenerations_spec now (Z.to_nat imageNum) 0 (S k)) as Hspec.
  destruct (Client.tempGenerations now (Z.to_nat imageNum) 0 (S k))
    as [gens k'].
  simpl in *. destruct Hspec as (Hlen & Hall & _).
  split; [exact Hlen |]. split.
  { eapply Forall_impl; [exact Hall |].
    intros g (H1 & H2 & H3 & H4 & _). repeat split; assumption. }
  repeat split; try reflexivity.
  - destruct width as [[| p | p] |]; simpl; intros H;
      try discriminate; auto.
  - destruct width as [[| p | p] |]; simpl; intros [H | H];
      try discriminate; reflexivity.
  - destruct height as [[| p | p] |]; simpl; intros H;
      try discriminate; auto.
  - destruct height as [[| p | p] |]; simpl; intros [H | H];
      try discriminate; reflexivity.
  - intros v Hv ->. destruct v; [contradiction | |]; reflexivity.
  - intros v Hv ->. destruct v; [contradiction | |]; reflexivity.
Qed.

(** X9: within one optimistic batch the generation ids are pairwise
    distinct and so are the task ids, whatever the clock reads -- even when
    it does not advance between two iterations. *)
Theorem createTempBatch_ids_distinct
    now provider model prompt config imageNum width height k :
  let batch :=
    fst (Client.createTempBatch now provider model prompt config imageNum
           width height k) in
  NoDup (map Client.tg_id (Client.tb_generations batch))
  /\ NoDup (map (fun g => Client.tt_id (Client.tg_task g))
                (Client.tb_generations batch)).
Proof.
  unfold Client.createTempBatch.
  pose proof (tempGenerations_spec now (Z.to_nat imageNum) 0 (S k)) as Hspec.
  destruct (Client.tempGenerations now (Z.to_nat imageNum) 0 (S k))
    as [gens k'].
  simpl in *. destruct Hspec as (_ & _ & Hnd1 & Hnd2). split; assumption.
Qed.

Lemma isCreatingAfter_app b cs1 cs2 :
  Client.isCreatingAfter b (cs1 ++ cs2)
  = Client.isCreatingAfter (Client.isCreatingAfter b cs1) cs2.
Proof. unfold Client.isCreatingAfter. apply fold_left_app. Qed.

Lemma requests_app cs1 cs2 :
  Client.requests (cs1 ++ cs2) = Client.requests cs1 ++ Client.requests cs2.
Proof. unfold Client.requests. apply omap_app. Qed.

(** The shared tail of the two actions. *)
Lemma requestAndRefresh_spec sv payload before :
  let o := Client.requestAndRefresh sv payload before in
  exists tail,
    Client.calls o
    = before ++ Client.ImageServiceCreateImage payload :: tail
    /\ Client.requests tail = []
    /\ Client.isCreatingAfter true (Client.calls o) = false
    /\ (In Client.RefreshGenerationBatches tail
        <-> Client.imageService_createImage sv payload = inr tt)
    /\ (Client.result o = inr tt
        <-> Client.imageService_createImage sv payload = inr tt
            /\ Client.refreshGenerationBatches sv = inr tt)
    /\ (forall e, Client.imageService_createImage sv payload = inl e ->
          Client.result o = inl e).
Proof.
  unfold Client.requestAndRefresh.
  destruct (Client.imageService_createImage sv payload) as [e | []] eqn:Hs;
    [| destruct (Client.refreshGenerationBatches sv) as [e | []] eqn:Hr];
    simpl; eexists; (split; [reflexivity |]);
    (split; [reflexivity |]);
    (split; [rewrite isCreatingAfter_app; reflexivity |]).
  - split; [| split].
    + split; [| discriminate]. intros [H | []]. discriminate.
    + split; [discriminate |]. intros [H _]. discriminate.
    + intros e' [= ->]. reflexivity.
  - split; [| split].
    + split; [reflexivity |]. intros _. left. reflexivity.
    + split; [discriminate |]. intros [_ H]. discriminate.
    + intros e' [=].
  - split; [| split].
    + split; [reflexivity |]. intros _. left. reflexivity.
    + split; [intros _; split; reflexivity | reflexivity].
    + intros e' [=].
Qed.

Lemma requestAndRefresh_requests sv payload before b :
  Client.requests before = [] ->
  Client.requests (Client.calls (Client.requestAndRefresh sv payload before))
  = [payload]
  /\ Client.isCreatingAfter b
       (Client.calls (Client.requestAndRefresh sv payload before)) = false.
Proof.
  intros Hbefore. unfold Client.requestAndRefresh.
  destruct (Client.imageService_createImage sv payload) as [e | []];
    [| destruct (Client.refreshGenerationBatches sv) as [e | []]];
    simpl; rewrite requests_app, Hbefore, isCreatingAfter_app;
    split; reflexivity.
Qed.

(** X10: [isCreating] is reset exactly when the action got as far as the
    request to the image service.  Both actions send at most one request;
    when they send none they fail, and the flag they raised at the start
    stays raised. *)
Theorem isCreating_reset_iff_requested sv store generationBatchId b :
  let outcomes :=
    [Client.createImage sv store;
     Client.recreateImage sv store generationBatchId] in
  Forall (fun o =>
            Client.isCreatingAfter b (Client.calls o)
            = match Client.requests (Client.calls o) with
              | [] => true
              | _ :: _ => false
              end
            /\ length (Client.requests (Client.calls o)) <= 1
            /\ (Client.requests (Client.calls o) = [] ->
                exists e, Client.result o = inl e)) outcomes.
Proof.
  intros outcomes. subst outcomes.
  assert (Htail : forall payload before,
            Client.requests before = [] ->
            let o := Client.requestAndRefresh sv payload before in
            Client.isCreatingAfter b (Client.calls o)
            = match Client.requests (Client.calls o) with
              | [] => true
              | _ :: _ => false
              end
            /\ length (Client.requests (Client.calls o)) <= 1
            /\ (Client.requests (Client.calls o) = [] ->
                exists e, Client.result o = inl e)).
  { intros payload before Hbefore o. subst o.
    destruct (requestAndRefresh_requests sv payload before b Hbefore)
      as [-> ->].
    split; [reflexivity |]. split; [simpl; lia | discriminate]. }
  constructor; [| constructor; [| constructor]].
  - unfold Client.createImage.
    destruct (Client.s_parameters store) as [parameters |];
      [| simpl; eauto].
    case_decide; [simpl; eauto |].
    destruct (Client.present (Client.s_activeGenerationTopicId store))
      as [topic |]; [apply Htail; reflexivity |].
    destruct (Client.createGenerationTopic sv [prompt parameters])
      as [e | topic]; [simpl; eauto |].
    apply Htail. reflexivity.
  - unfold Client.recreateImage.
    destruct (Client.present (Client.s_activeGenerationTopicId store))
      as [topic |]; [| simpl; eauto].
    destruct (Client.removeGenerationBatch sv generationBatchId topic)
      as [e | []]; [simpl; eauto |].
    destruct (Client.s_generationBatch store generationBatchId)
      as [batch |]; [| simpl; eauto].
    apply Htail. reflexivity.
Qed.

Lemma requestAndRefresh_calls sv payload before :
  exists tail,
    Client.calls (Client.requestAndRefresh sv payload before)
    = before ++ Client.ImageServiceCreateImage payload :: tail.
Proof.
  destruct (requestAndRefresh_spec sv payload before) as (tail & H & _).
  exists tail. exact H.
Qed.

(** X11: a request of [createImage] is preceded by the optimistic batch for
    the same topic, built from the same parameters and count.  The topic is
    the active one, or -- only when none is active -- a newly created one,
    which is switched to after the batch has been added. *)
Theorem createImage_request_matches_optimistic_batch sv store payload :
  payload ∈ Client.requests (Client.calls (Client.createImage sv store)) ->
  exists parameters batch before after tail,
    Client.s_parameters store = Some parameters
    /\ prompt parameters <> EmptyString
    /\ Client.calls (Client.createImage sv store)
       = before
         ++ [Client.AddOptimisticGenerationBatch (generationTopicId payload)
               batch]
         ++ after ++ [Client.ImageServiceCreateImage payload] ++ tail
    /\ payload
       = {| generationTopicId := generationTopicId payload;
            provider := Client.s_provider store;
            model := Client.s_model store;
            imageNum := Client.s_imageNum store;
            params := parameters |}
    /\ length (Client.tb_generations batch) = Z.to_nat (imageNum payload)
    /\ Client.tb_provider batch = provider payload
    /\ Client.tb_model batch = model payload
    /\ Client.tb_prompt batch = prompt (params payload)
    /\ Client.tb_config batch = params payload
    /\ match Client.present (Client.s_activeGenerationTopicId store) with
       | Some topic =>
           generationTopicId payload = topic
           /\ before = [Client.SetIsCreating true] /\ after = []
       | None =>
           Client.createGenerationTopic sv [prompt parameters]
           = inr (generationTopicId payload)
           /\ before = [Client.SetIsCreating true;
                        Client.CreateGenerationTopic [prompt parameters]]
           /\ after = [Client.SwitchGenerationTopic
                         (generationTopicId payload)]
       end.
Proof.
  unfold Client.createImage.
  destruct (Client.s_parameters store) as [parameters |];
    [| intros Hin; inversion Hin].
  case_decide as Hprompt; [intros Hin; inversion Hin |].
  pose proof (createTempBatch_fields (Client.now sv)
                (Client.s_provider store) (Client.s_model store)
                (prompt parameters) parameters (Client.s_imageNum store)
                (width parameters) (height parameters) 0)
    as (Hlen & Hp & Hm & Hpr & Hc).
  destruct (Client.present (Client.s_activeGenerationTopicId store))
    as [topic |].
  - match goal with
    | |- context [Client.requestAndRefresh sv ?p ?b] =>
        destruct (requestAndRefresh_calls sv p b) as (tail & Hcalls);
        destruct (requestAndRefresh_requests sv p b false eq_refl)
          as [Hreq _]
    end.
    rewrite Hreq, Hcalls. intros Hin.
    apply list_elem_of_singleton in Hin. subst payload.
    exists parameters,
      (fst (Client.createTempBatch (Client.now sv) (Client.s_provider store)
              (Client.s_model store) (prompt parameters) parameters
              (Client.s_imageNum store) (width parameters)
              (height parameters) 0)),
      [Client.SetIsCreating true], [], tail.
    simpl. repeat split; try assumption; try reflexivity.
  - destruct (Client.createGenerationTopic sv [prompt parameters])
      as [e | topic] eqn:Htopic; [intros Hin; inversion Hin |].
    match goal with
    | |- context [Client.requestAndRefresh sv ?p ?b] =>
        destruct (requestAndRefresh_calls sv p b) as (tail & Hcalls);
        destruct (requestAndRefresh_requests sv p b false eq_refl)
          as [Hreq _]
    end.
    rewrite Hreq, Hcalls. intros Hin.
    apply list_elem_of_singleton in Hin. subst payload.
    exists parameters,
      (fst (Client.createTempBatch (Client.now sv) (Client.s_provider store)
              (Client.s_model store) (prompt parameters) parameters
              (Client.s_imageNum store) (width parameters)
              (height parameters) 0)),
      [Client.SetIsCreating true;
       Client.CreateGenerationTopic [prompt parameters]],
      [Client.SwitchGenerationTopic topic], tail.
    simpl. repeat split; try assumption; try reflexivity.
Qed.

(** X12: [recreateImage] asks for the removal of the old batch before
    anything else, then adds the optimistic batch and sends the request.
    The request repeats provider, model and configuration of the old batch
    with the image count selected now. *)
Theorem recreateImage_request_repeats_old_batch
    sv store generationBatchId payload :
  payload
  ∈ Client.requests
      (Client.calls (Client.recreateImage sv store generationBatchId)) ->
  exists topic old batch tail,
    Client.present (Client.s_activeGenerationTopicId store) = Some topic
    /\ Client.s_generationBatch store generationBatchId = Some old
    /\ Client.removeGenerationBatch sv generationBatchId topic = inr tt
    /\ Client.calls (Client.recreateImage sv store generationBatchId)
       = [Client.SetIsCreating true;
          Client.RemoveGenerationBatch generationBatchId topic;
          Client.AddOptimisticGenerationBatch topic batch;
          Client.ImageServiceCreateImage payload] ++ tail
    /\ payload
       = {| generationTopicId := topic;
            provider := Client.tb_provider old;
            model := Client.tb_model old;
            imageNum := Client.s_imageNum store;
            params := Client.tb_config old |}
    /\ length (Client.tb_generations batch)
       = Z.to_nat (Client.s_imageNum store)
    /\ Client.tb_prompt batch = Client.tb_prompt old
    /\ Client.tb_config batch = Client.tb_config old.
Proof.
  unfold Client.recreateImage.
  destruct (Client.present (Client.s_activeGenerationTopicId store))
    as [topic |]; [| intros Hin; inversion Hin].
  destruct (Client.removeGenerationBatch sv generationBatchId topic)
    as [e | []] eqn:Hremoved; [intros Hin; inversion Hin |].
  destruct (Client.s_generationBatch store generationBatchId) as [old |];
    [| intros Hin; inversion Hin].
  pose proof (createTempBatch_fields (Client.now sv)
                (Client.tb_provider old) (Client.tb_model old)
                (Client.tb_prompt old) (Client.tb_config old)
                (Client.s_imageNum store) (Client.tb_width old)
                (Client.tb_height old) 0)
    as (Hlen & _ & _ & Hpr & Hc).
  match goal with
  | |- context [Client.requestAndRefresh sv ?p ?b] =>
      destruct (requestAndRefresh_calls sv p b) as (tail & Hcalls);
      destruct (requestAndRefresh_requests sv p b false eq_refl)
        as [Hreq _]
  end.
  rewrite Hreq, Hcalls. intros Hin.
  apply list_elem_of_singleton in Hin. subst payload.
  exists topic, old,
    (fst (Client.createTempBatch (Client.now sv) (Client.tb_provider old)
            (Client.tb_model old) (Client.tb_prompt old)
            (Client.tb_config old) (Client.s_imageNum store)
            (Client.tb_width old) (Client.tb_height old) 0)),
    tail.
  simpl. repeat split; try assumption; try reflexivity.
Qed.

Lemma requestAndRefresh_ends sv payload before :
  Client.requests before = [] ->
  ~ In Client.RefreshGenerationBatches before ->
  Client.endsAsRequested sv (Client.requestAndRefresh sv payload before).
Proof.
  intros Hreq Hnone. unfold Client.endsAsRequested, Client.requestAndRefresh.
  destruct (Client.imageService_createImage sv payload) as [e | []] eqn:Hs;
    [| destruct (Client.refreshGenerationBatches sv) as [e | []] eqn:Hr];
    simpl; rewrite requests_app, Hreq; simpl.
  - split; [| split].
    + intros Hin. apply in_app_iff in Hin as [Hin | Hin]; [tauto |].
      simpl in Hin. destruct Hin as [Hin | [Hin | []]]; discriminate.
    + discriminate.
    + intros p e' Hp Hfail. apply list_elem_of_singleton in Hp. subst p.
      rewrite Hs in Hfail. injection Hfail as <-. split; [reflexivity |].
      intros Hin. apply in_app_iff in Hin as [Hin | Hin]; [tauto |].
      simpl in Hin. destruct Hin as [Hin | [Hin | []]]; discriminate.
  - split; [| split].
    + intros _. exists payload. split; [apply list_elem_of_here | exact Hs].
    + discriminate.
    + intros p e' Hp Hfail. apply list_elem_of_singleton in Hp. subst p.
      rewrite Hs in Hfail. discriminate.
  - split; [| split].
    + intros _. exists payload. split; [apply list_elem_of_here | exact Hs].
    + intros _. exists before, payload. repeat split; assumption.
    + intros p e' Hp Hfail. apply list_elem_of_singleton in Hp. subst p.
      rewrite Hs in Hfail. discriminate.
Qed.

Lemma early_failure_ends sv e cs :
  Client.requests cs = [] ->
  ~ In Client.RefreshGenerationBatches cs ->
  Client.endsAsRequested sv {| Client.result := inl e; Client.calls := cs |}.
Proof.
  intros Hreq Hnone. unfold Client.endsAsRequested. simpl. rewrite Hreq.
  split; [tauto |]. split; [discriminate |].
  intros p e' Hp. inversion Hp.
Qed.

(** X19: both actions refresh the batches only after the image service has
    accepted the request, and succeed only when request and refresh have
    both succeeded, ending with the reset of [isCreating].  A rejection of
    the request is passed on unchanged -- the [finally] block does not
    replace it -- and no refresh is attempted after it. *)
Theorem refresh_only_after_accepted_request sv store generationBatchId :
  Forall (Client.endsAsRequested sv)
    [Client.createImage sv store;
     Client.recreateImage sv store generationBatchId].
Proof.
  assert (Hno : forall cs,
            Forall (fun c => c <> Client.RefreshGenerationBatches) cs ->
            ~ In Client.RefreshGenerationBatches cs).
  { intros cs Hall Hin. rewrite Forall_forall in Hall.
    apply (Hall _ (proj2 (list_elem_of_In _ _) Hin)). reflexivity. }
  constructor; [| constructor; [| constructor]].
  - unfold Client.createImage.
    destruct (Client.s_parameters store) as [parameters |].
    2: { apply early_failure_ends; [reflexivity |].
         apply Hno. repeat constructor; discriminate. }
    case_decide.
    { apply early_failure_ends; [reflexivity |].
      apply Hno. repeat constructor; discriminate. }
    destruct (Client.present (Client.s_activeGenerationTopicId store))
      as [topic |].
    { apply requestAndRefresh_ends; [reflexivity |].
      apply Hno. repeat constructor; discriminate. }
    destruct (Client.createGenerationTopic sv [prompt parameters])
      as [e | topic].
    { apply early_failure_ends; [reflexivity |].
      apply Hno. repeat constructor; discriminate. }
    apply requestAndRefresh_ends; [reflexivity |].
    apply Hno. repeat constructor; discriminate.
  - unfold Client.recreateImage.
    destruct (Client.present (Client.s_activeGenerationTopicId store))
      as [topic |].
    2: { apply early_failure_ends; [reflexivity |].
         apply Hno. repeat constructor; discriminate. }
    destruct (Client.removeGenerationBatch sv generationBatchId topic)
      as [e | []].
    { apply early_failure_ends; [reflexivity |].
      apply Hno. repeat constructor; discriminate. }
    destruct (Client.s_generationBatch store generationBatchId)
      as [batch |].
    2: { apply early_failure_ends; [reflexivity |].
         apply Hno. repeat constructor; discriminate. }
    apply requestAndRefresh_ends; [reflexivity |].
    apply Hno. repeat constructor; discriminate.
Qed.

(* ===================================================================== *)
(** ** The MCP system dependency check *)
(* ===================================================================== *)

Lemma checkSystemDependency_result rt k dep :
  let r := McpDeps.checkSystemDependency rt k dep in
  McpDeps.res_name r = McpDeps.dep_name dep
  /\ (McpDeps.res_meetRequirement r = true -> McpDeps.res_installed r = true)
  /\ (McpDeps.res_installed r = true <-> McpDeps.res_error r = None).
Proof.
  unfold McpDeps.checkSystemDependency.
  destruct (McpDeps.execPromise rt k (McpDeps.checkCommandOf dep))
    as [e | [stdout stderr]]; simpl.
  - repeat split; discriminate.
  - case_decide; simpl; repeat split; try discriminate; reflexivity.
Qed.

Lemma checkAll_names rt deps : forall k,
  map McpDeps.res_name (McpDeps.checkAll rt k deps)
  = map McpDeps.dep_name deps.
Proof.
  induction deps as [| dep deps IH]; intros k; [reflexivity |].
  simpl. rewrite IH.
  destruct (checkSystemDependency_result rt k dep) as [-> _]. reflexivity.
Qed.

Lemma checkAll_lookup rt deps : forall k i dep,
  deps !! i = Some dep ->
  McpDeps.checkAll rt k deps !! i
  = Some (McpDeps.checkSystemDependency rt (k + i) dep).
Proof.
  induction deps as [| d deps IH]; intros k i dep Hi; [discriminate |].
  destruct i as [| i]; simpl in *.
  - injection Hi as ->. rewrite Nat.add_0_r. reflexivity.
  - rewrite (IH (S k) i dep Hi). do 2 f_equal. lia.
Qed.

Lemma checkAll_installed rt deps : forall k,
  Forall (fun r => McpDeps.res_meetRequirement r = true ->
                   McpDeps.res_installed r = true
                   /\ McpDeps.res_error r = None)
         (McpDeps.checkAll rt k deps).
Proof.
  induction deps as [| dep deps IH]; intros k; constructor; [| apply IH].
  destruct (checkSystemDependency_result rt k dep) as (_ & Hm & Hi).
  intros Hmeet. split; [exact (Hm Hmeet) |]. apply Hi, Hm, Hmeet.
Qed.

(** The result of [checkDeployOption], whatever the checker said. *)
Lemma checkDeployOption_inr rt checkers k option r :
  McpDeps.checkDeployOption rt checkers k option = inr r ->
  McpDeps.systemDependencies r
  = McpDeps.checkAll rt k
      (default [] (McpDeps.opt_systemDependencies option))
  /\ McpDeps.allDependenciesMet r
     = forallb McpDeps.res_meetRequirement (McpDeps.systemDependencies r).
Proof.
  unfold McpDeps.checkDeployOption.
  assert (Hdeps : match McpDeps.opt_systemDependencies option with
                  | Some deps => McpDeps.checkAll rt k deps
                  | None => []
                  end
                  = McpDeps.checkAll rt k
                      (default [] (McpDeps.opt_systemDependencies option))).
  { destruct (McpDeps.opt_systemDependencies option); reflexivity. }
  rewrite Hdeps.
  destruct (checkers !! McpDeps.opt_installationMethod option) as [checker |].
  - destruct (checker (McpDeps.opt_installationDetails option)) as [e | p];
      [discriminate |].
    intros [= <-]. simpl. split; reflexivity.
  - intros [= <-]. simpl. split; reflexivity.
Qed.

(** X13: the results come in the order of the listed dependencies, one per
    dependency and under its name, and [allDependenciesMet] holds exactly
    when every one of them was found installed, without error, and meets
    its requirement -- in particular when none is listed. *)
Theorem allDependenciesMet_iff_all_installed rt checkers k option r :
  McpDeps.checkDeployOption rt checkers k option = inr r ->
  map McpDeps.res_name (McpDeps.systemDependencies r)
  = map McpDeps.dep_name
      (default [] (McpDeps.opt_systemDependencies option))
  /\ (McpDeps.allDependenciesMet r = true
      <-> Forall (fun d => McpDeps.res_installed d = true
                           /\ McpDeps.res_error d = None
                           /\ McpDeps.res_meetRequirement d = true)
                 (McpDeps.systemDependencies r)).
Proof.
  intros Hr. apply checkDeployOption_inr in Hr as [Hdeps Hall].
  rewrite Hall, Hdeps. split; [apply checkAll_names |].
  rewrite forallb_forall, Forall_forall.
  pose proof (checkAll_installed rt
                (default [] (McpDeps.opt_systemDependencies option)) k)
    as Hinst.
  rewrite Forall_forall in Hinst. split.
  - intros Hmeet d Hd. pose proof (Hmeet d (proj1 (list_elem_of_In _ _) Hd)) as Hm.
    destruct (Hinst d Hd Hm) as [Hi He]. repeat split; assumption.
  - intros Hall' d Hd. apply list_elem_of_In in Hd.
    destruct (Hall' d Hd) as (_ & _ & Hm). exact Hm.
Qed.

(** X14: one dependency whose command cannot be run, or only writes to the
    error stream, is reported as not installed and makes the whole option
    fail its dependencies; the check itself still returns a result. *)
Theorem failing_command_fails_the_option
    rt checkers k option r deps i dep :
  McpDeps.checkDeployOption rt checkers k option = inr r ->
  McpDeps.opt_systemDependencies option = Some deps ->
  deps !! i = Some dep ->
  (match McpDeps.execPromise rt (k + i) (McpDeps.checkCommandOf dep) with
   | inl _ => True
   | inr (stdout, stderr) => stderr <> EmptyString /\ stdout = EmptyString
   end) ->
  McpDeps.allDependenciesMet r = false
  /\ exists d,
       McpDeps.systemDependencies r !! i = Some d
       /\ McpDeps.res_name d = McpDeps.dep_name dep
       /\ McpDeps.res_installed d = false
       /\ McpDeps.res_meetRequirement d = false
       /\ McpDeps.res_version d = None
       /\ McpDeps.res_error d
          = Some match McpDeps.execPromise rt (k + i)
                         (McpDeps.checkCommandOf dep) with
                 | inl e => errorMessageOr e "Unknown error"
                 | inr (_, stderr) => stderr
                 end.
Proof.
  intros Hr Hdeps Hi Hfail.
  apply checkDeployOption_inr in Hr as [Hres Hall].
  rewrite Hdeps in Hres. simpl in Hres.
  pose proof (checkAll_lookup rt deps k i dep Hi) as Hlook.
  rewrite <- Hres in Hlook.
  assert (Hd : McpDeps.checkSystemDependency rt (k + i) dep
               = {| McpDeps.res_error :=
                      Some match McpDeps.execPromise rt (k + i)
                                   (McpDeps.checkCommandOf dep) with
                           | inl e => errorMessageOr e "Unknown error"
                           | inr (_, stderr) => stderr
                           end;
                    McpDeps.res_installed := false;
                    McpDeps.res_meetRequirement := false;
                    McpDeps.res_name := McpDeps.dep_name dep;
                    McpDeps.res_version := None |}).
  { unfold McpDeps.checkSystemDependency.
    destruct (McpDeps.execPromise rt (k + i) (McpDeps.checkCommandOf dep))
      as [e | [stdout stderr]]; [reflexivity |].
    rewrite decide_True by exact Hfail. reflexivity. }
  rewrite Hd in Hlook. split.
  - rewrite Hall. apply not_true_is_false. intros Htrue.
    rewrite forallb_forall in Htrue.
    apply list_elem_of_lookup_2, list_elem_of_In in Hlook.
    specialize (Htrue _ Hlook). discriminate.
  - eexists. split; [exact Hlook |]. repeat split.
Qed.

Lemma operator_not_digit c :
  McpDeps.isOperator c = true -> McpDeps.isDigit c = false.
Proof.
  unfold McpDeps.isOperator. intros H.
  apply orb_true_iff in H as [H | H]; [apply orb_true_iff in H as [H | H] |];
    apply Ascii.eqb_eq in H; subst c; reflexivity.
Qed.

Lemma numberAt_not_digit c rest :
  McpDeps.isDigit c = false -> McpDeps.numberAt (String c rest) = None.
Proof. intros H. simpl. rewrite H. reflexivity. Qed.

(** Behind a run of operator characters that a digit ends, the run is
    what [operatorRun] takes. *)
Lemma operatorRun_run ops : forall c rest,
  McpDeps.allChars McpDeps.isOperator ops = true ->
  McpDeps.isDigit c = true ->
  McpDeps.operatorRun (ops +:+ String c rest) = (ops, String c rest).
Proof.
  induction ops as [| o ops IH]; intros c rest Hops Hc.
  - change (EmptyString +:+ String c rest) with (String c rest). simpl.
    destruct (McpDeps.isOperator c) eqn:Ho; [| reflexivity].
    apply operator_not_digit in Ho. congruence.
  - simpl in Hops. apply andb_true_iff in Hops as [Ho Hops].
    change (String o ops +:+ String c rest)
      with (String o (ops +:+ String c rest)).
    simpl. rewrite Ho, (IH c rest Hops Hc). reflexivity.
Qed.

(** The requirement pattern at a run of operator characters that a digit
    ends. *)
Lemma requirementAt_run ops c rest :
  McpDeps.allChars McpDeps.isOperator ops = true ->
  McpDeps.isDigit c = true ->
  McpDeps.requirementAt (ops +:+ String c rest)
  = Some (match ops with EmptyString => None | _ => Some ops end,
          String c (McpDeps.numberTail rest)).
Proof.
  intros Hops Hc. unfold McpDeps.requirementAt.
  rewrite (operatorRun_run ops c rest Hops Hc).
  destruct ops as [| o ops].
  - change (EmptyString +:+ String c rest) with (String c rest).
    simpl. rewrite Hc. reflexivity.
  - simpl. rewrite Hc. reflexivity.
Qed.

(** Where no digit follows directly, what [operatorRun] leaves starts
    without a digit. *)
Lemma operatorRun_no_digit junk : forall sep tail,
  McpDeps.allChars McpDeps.notDigit junk = true ->
  McpDeps.isDigit sep = false ->
  McpDeps.isOperator sep = false ->
  McpDeps.numberAt (snd (McpDeps.operatorRun (junk +:+ String sep tail)))
  = None.
Proof.
  induction junk as [| j junk IH]; intros sep tail Hjunk Hd Ho.
  - change (EmptyString +:+ String sep tail) with (String sep tail).
    simpl. rewrite Ho. simpl. rewrite Hd. reflexivity.
  - simpl in Hjunk. apply andb_true_iff in Hjunk as [Hj Hjunk].
    apply negb_true_iff in Hj.
    change (String j junk +:+ String sep tail)
      with (String j (junk +:+ String sep tail)).
    simpl. destruct (McpDeps.isOperator j).
    + specialize (IH sep tail Hjunk Hd Ho).
      destruct (McpDeps.operatorRun (junk +:+ String sep tail)) as [run after].
      exact IH.
    + simpl. rewrite Hj. reflexivity.
Qed.

Lemma requirementAt_no_digit junk sep tail :
  McpDeps.allChars McpDeps.notDigit junk = true ->
  McpDeps.isDigit sep = false ->
  McpDeps.isOperator sep = false ->
  McpDeps.requirementAt (junk +:+ String sep tail) = None.
Proof.
  intros Hjunk Hd Ho. unfold McpDeps.requirementAt.
  pose proof (operatorRun_no_digit junk sep tail Hjunk Hd Ho) as Hafter.
  destruct (McpDeps.operatorRun (junk +:+ String sep tail)) as [run after].
  simpl in Hafter. rewrite Hafter.
  assert (Hfront : McpDeps.numberAt (junk +:+ String sep tail) = None).
  { destruct junk as [| j junk].
    - change (EmptyString +:+ String sep tail) with (String sep tail).
      apply numberAt_not_digit, Hd.
    - simpl in Hjunk. apply andb_true_iff in Hjunk as [Hj _].
      apply negb_true_iff in Hj.
      change (String j junk +:+ String sep tail)
        with (String j (junk +:+ String sep tail)).
      apply numberAt_not_digit, Hj. }
  rewrite Hfront. destruct run; reflexivity.
Qed.

(** The leftmost match skips a prefix without digits that a character
    ends which is neither a digit nor an operator character. *)
Lemma matchRequirement_skip junk : forall sep tail,
  McpDeps.allChars McpDeps.notDigit junk = true ->
  McpDeps.isDigit sep = false ->
  McpDeps.isOperator sep = false ->
  McpDeps.matchRequirement (junk +:+ String sep tail)
  = McpDeps.matchRequirement tail.
Proof.
  induction junk as [| j junk IH]; intros sep tail Hjunk Hd Ho.
  - change (EmptyString +:+ String sep tail) with (String sep tail).
    cbn [McpDeps.matchRequirement].
    pose proof (requirementAt_no_digit EmptyString sep tail eq_refl Hd Ho)
      as Hat.
    change (EmptyString +:+ String sep tail) with (String sep tail) in Hat.
    rewrite Hat. reflexivity.
  - pose proof (requirementAt_no_digit (String j junk) sep tail Hjunk Hd Ho)
      as Hat.
    change (String j junk +:+ String sep tail)
      with (String j (junk +:+ String sep tail)) in *.
    cbn [McpDeps.matchRequirement]. rewrite Hat.
    simpl in Hjunk. apply andb_true_iff in Hjunk as [_ Hjunk].
    apply IH; assumption.
Qed.

Lemma matchRequirement_run ops c rest :
  McpDeps.allChars McpDeps.isOperator ops = true ->
  McpDeps.isDigit c = true ->
  McpDeps.matchRequirement (ops +:+ String c rest)
  = Some (match ops with EmptyString => None | _ => Some ops end,
          String c (McpDeps.numberTail rest)).
Proof.
  intros Hops Hc.
  pose proof (requirementAt_run ops c rest Hops Hc) as Hat.
  destruct ops as [| o ops].
  - change (EmptyString +:+ String c rest) with (String c rest) in *.
    cbn [McpDeps.matchRequirement]. rewrite Hat. reflexivity.
  - change (String o ops +:+ String c rest)
      with (String o (ops +:+ String c rest)) in *.
    cbn [McpDeps.matchRequirement]. rewrite Hat. reflexivity.
Qed.

Lemma operatorRun_none s :
  McpDeps.allChars McpDeps.notDigit s = true ->
  McpDeps.numberAt (snd (McpDeps.operatorRun s)) = None.
Proof.
  induction s as [| c s IH]; intros Hs; [reflexivity |].
  simpl in Hs. apply andb_true_iff in Hs as [Hc Hs].
  apply negb_true_iff in Hc. specialize (IH Hs).
  cbn [McpDeps.operatorRun]. destruct (McpDeps.isOperator c).
  - destruct (McpDeps.operatorRun s) as [run after]. exact IH.
  - simpl. rewrite Hc. reflexivity.
Qed.

Lemma matchRequirement_none s :
  McpDeps.allChars McpDeps.notDigit s = true ->
  McpDeps.matchRequirement s = None.
Proof.
  induction s as [| c s IH]; intros Hs; [reflexivity |].
  pose proof (operatorRun_none (String c s) Hs) as Hafter.
  simpl in Hs. apply andb_true_iff in Hs as [Hc Hs].
  apply negb_true_iff in Hc.
  cbn [McpDeps.matchRequirement].
  assert (Hat : McpDeps.requirementAt (String c s) = None).
  { unfold McpDeps.requirementAt.
    destruct (McpDeps.operatorRun (String c s)) as [run after].
    simpl in Hafter. rewrite Hafter.
    rewrite (numberAt_not_digit c s Hc). destruct run; reflexivity. }
  rewrite Hat. apply IH, Hs.
Qed.

Lemma append_assoc_char junk sep tail :
  (junk +:+ String sep EmptyString) +:+ tail = junk +:+ String sep tail.
Proof.
  induction junk as [| j junk IH]; [reflexivity |].
  change (String j ((junk +:+ String sep EmptyString) +:+ tail)
          = String j (junk +:+ String sep tail)).
  f_equal. exact IH.
Qed.

Lemma nonempty_cases (s : string) :
  s <> EmptyString -> exists c rest, s = String c rest.
Proof. destruct s as [| c rest]; [congruence | eauto]. Qed.

(** X15: how a required version is read.  The number is the first run of
    digits and dot-separated digit groups; the operator is the whole run
    of the characters [<], [=], [>] that stands directly before it, and
    [=] when there is none.  So a space between operator and number
    turns any requirement into an equality, and every operator other
    than [>=], [>], [<=], [<] is an equality as well. *)
Theorem requirement_operator_must_touch_number
    rt dep version pre ops c rest :
  McpDeps.dep_requiredVersion dep = Some (pre +:+ ops +:+ String c rest) ->
  McpDeps.skipped pre ->
  McpDeps.allChars McpDeps.isOperator ops = true ->
  McpDeps.isDigit c = true ->
  let current := McpDeps.parseFloat rt (McpDeps.stripV version) in
  let required :=
    McpDeps.parseFloat rt (String c (McpDeps.numberTail rest)) in
  McpDeps.meetsRequirement rt dep version
  = McpDeps.compareVersions rt
      (match ops with EmptyString => "=" | _ => ops end) current required
  /\ (ops <> ">=" -> ops <> ">" -> ops <> "<=" -> ops <> "<" ->
      McpDeps.meetsRequirement rt dep version
      = McpDeps.strictEqual rt current required).
Proof.
  intros Hreq Hpre Hops Hc current required.
  assert (Hmatch : McpDeps.matchRequirement (pre +:+ ops +:+ String c rest)
                   = Some (match ops with EmptyString => None | _ => Some ops end,
                           String c (McpDeps.numberTail rest))).
  { destruct Hpre as [-> | (junk & sep & -> & Hjunk & Hd & Ho)].
    - change (EmptyString +:+ ops +:+ String c rest)
        with (ops +:+ String c rest).
      apply matchRequirement_run; assumption.
    - rewrite append_assoc_char, (matchRequirement_skip junk) by assumption.
      apply matchRequirement_run; assumption. }
  assert (Hne : exists a s, pre +:+ ops +:+ String c rest = String a s).
  { apply nonempty_cases. intros Hempty. rewrite Hempty in Hmatch.
    discriminate. }
  destruct Hne as (a & s & Hne).
  assert (Hmeets : McpDeps.meetsRequirement rt dep version
                   = McpDeps.compareVersions rt
                       (match ops with EmptyString => "=" | _ => ops end)
                       current required).
  { unfold McpDeps.meetsRequirement. rewrite Hreq, Hne, <- Hne, Hmatch.
    destruct ops; reflexivity. }
  split; [exact Hmeets |].
  intros H1 H2 H3 H4. rewrite Hmeets. unfold McpDeps.compareVersions.
  destruct ops as [| o ops].
  - repeat (rewrite decide_False by discriminate). reflexivity.
  - repeat (rewrite decide_False by assumption). reflexivity.
Qed.

Lemma isV_not_digit c : McpDeps.isV c = true -> McpDeps.isDigit c = false.
Proof.
  unfold McpDeps.isV. intros H.
  apply orb_true_iff in H as [H | H]; apply Ascii.eqb_eq in H; subst c;
    reflexivity.
Qed.

(** The leftmost match of the version pattern in an output whose first
    digit is [c]. *)
Lemma matchVersion_first_digit pre : forall c rest,
  McpDeps.allChars McpDeps.notDigit pre = true ->
  McpDeps.isDigit c = true ->
  McpDeps.matchVersion (pre +:+ String c rest)
  = Some (McpDeps.lastV pre +:+ String c (McpDeps.numberTail rest)).
Proof.
  induction pre as [| a pre IH]; intros c rest Hpre Hc.
  - change (EmptyString +:+ String c rest) with (String c rest).
    change (McpDeps.lastV EmptyString +:+ String c (McpDeps.numberTail rest))
      with (String c (McpDeps.numberTail rest)).
    cbn [McpDeps.matchVersion McpDeps.versionAt].
    destruct (McpDeps.isV c) eqn:Hv.
    + apply isV_not_digit in Hv. congruence.
    + simpl. rewrite Hc. reflexivity.
  - simpl in Hpre. apply andb_true_iff in Hpre as [Ha Hpre].
    apply negb_true_iff in Ha.
    change (String a pre +:+ String c rest)
      with (String a (pre +:+ String c rest)).
    cbn [McpDeps.matchVersion]. destruct pre as [| b pre].
    + change (EmptyString +:+ String c rest) with (String c rest) in *.
      cbn [McpDeps.versionAt McpDeps.lastV].
      destruct (McpDeps.isV a) eqn:Hv.
      * simpl. rewrite Hc. reflexivity.
      * rewrite (numberAt_not_digit a _ Ha).
        exact (IH c rest eq_refl Hc).
    + assert (Hat : McpDeps.versionAt
                      (String a (String b pre +:+ String c rest)) = None).
      { simpl in Hpre. apply andb_true_iff in Hpre as [Hb _].
        apply negb_true_iff in Hb.
        change (String b pre +:+ String c rest)
          with (String b (pre +:+ String c rest)).
        unfold McpDeps.versionAt.
        rewrite (numberAt_not_digit b _ Hb), (numberAt_not_digit a _ Ha).
        destruct (McpDeps.isV a); reflexivity. }
      rewrite Hat. rewrite (IH c rest Hpre Hc). reflexivity.
Qed.

Lemma stripV_lastV pre c tail :
  McpDeps.isDigit c = true ->
  McpDeps.stripV (McpDeps.lastV pre +:+ String c tail) = String c tail.
Proof.
  intros Hc.
  assert (Hcases : McpDeps.lastV pre = EmptyString
                   \/ exists v, McpDeps.isV v = true
                                /\ McpDeps.lastV pre = String v EmptyString).
  { induction pre as [| a pre IH]; [left; reflexivity |].
    destruct pre as [| b pre]; [| exact IH].
    simpl. destruct (McpDeps.isV a) eqn:Hv; [right; eauto | left; reflexivity]. }
  destruct Hcases as [-> | (v & Hv & ->)].
  - change (EmptyString +:+ String c tail) with (String c tail).
    simpl. destruct (McpDeps.isV c) eqn:Hv; [| reflexivity].
    apply isV_not_digit in Hv. congruence.
  - change (String v EmptyString +:+ String c tail)
      with (String v (String c tail)).
    simpl. rewrite Hv. reflexivity.
Qed.

(** X16: with version parsing required, the reported version is the first
    number of the trimmed output -- its first digit with the digits and
    dot-separated digit groups behind it -- together with a [V] or [v]
    standing directly before it; the prefix is dropped again before the
    version is compared, so the compared text is the number alone. *)
Theorem parsed_version_is_first_number rt dep stdout pre c rest :
  McpDeps.dep_versionParsingRequired dep = true ->
  McpDeps.trim rt stdout = pre +:+ String c rest ->
  McpDeps.allChars McpDeps.notDigit pre = true ->
  McpDeps.isDigit c = true ->
  McpDeps.versionOf rt dep stdout
  = McpDeps.lastV pre +:+ String c (McpDeps.numberTail rest)
  /\ McpDeps.stripV (McpDeps.versionOf rt dep stdout)
     = String c (McpDeps.numberTail rest).
Proof.
  intros Hparse Htrim Hpre Hc.
  assert (Hv : McpDeps.versionOf rt dep stdout
               = McpDeps.lastV pre +:+ String c (McpDeps.numberTail rest)).
  { unfold McpDeps.versionOf.
    rewrite Hparse, Htrim, (matchVersion_first_digit pre c rest Hpre Hc).
    reflexivity. }
  split; [exact Hv |]. rewrite Hv. apply stripV_lastV, Hc.
Qed.

(** X17: a dependency found installed whose required version is missing,
    empty or holds no digit meets its requirement, whatever version the
    command printed. *)
Theorem requirement_without_number_is_met rt k dep stdout stderr :
  McpDeps.execPromise rt k (McpDeps.checkCommandOf dep)
  = inr (stdout, stderr) ->
  stdout <> EmptyString \/ stderr = EmptyString ->
  (forall required, McpDeps.dep_requiredVersion dep = Some required ->
                    McpDeps.allChars McpDeps.notDigit required = true) ->
  McpDeps.checkSystemDependency rt k dep
  = {| McpDeps.res_error := None;
       McpDeps.res_installed := true;
       McpDeps.res_meetRequirement := true;
       McpDeps.res_name := McpDeps.dep_name dep;
       McpDeps.res_version := Some (McpDeps.versionOf rt dep stdout) |}.
Proof.
  intros Hexec Hout Hreq. unfold McpDeps.checkSystemDependency.
  rewrite Hexec. rewrite decide_False.
  2: { intros [Herr Hempty]. destruct Hout as [Hout | Hout]; congruence. }
  f_equal. unfold McpDeps.meetsRequirement.
  destruct (McpDeps.dep_requiredVersion dep) as [[| c s] |]; try reflexivity.
  rewrite (matchRequirement_none (String c s)); [reflexivity |].
  apply Hreq. reflexivity.
Qed.

(** X18: the checker registered last for an installation method is the one
    [checkDeployOption] asks, with the option's installation details:
    its answer is the reported [packageInstalled] and its rejection is
    the rejection of the whole check.  Options of another method are
    checked as before the registration, and with no checker registered
    the package counts as not installed. *)
Theorem registered_checker_decides_packageInstalled
    rt checkers k method checker option :
  let registered := McpDeps.registerChecker method checker checkers in
  (McpDeps.opt_installationMethod option = method ->
   match checker (McpDeps.opt_installationDetails option) with
   | inl e => McpDeps.checkDeployOption rt registered k option = inl e
   | inr p =>
       exists r,
         McpDeps.checkDeployOption rt registered k option = inr r
         /\ McpDeps.packageInstalled r = McpDeps.pkg_installed p
   end)
  /\ (McpDeps.opt_installationMethod option <> method ->
      McpDeps.checkDeployOption rt registered k option
      = McpDeps.checkDeployOption rt checkers k option)
  /\ (checkers !! McpDeps.opt_installationMethod option = None ->
      exists r,
        McpDeps.checkDeployOption rt checkers k option = inr r
        /\ McpDeps.packageInstalled r = false).
Proof.
  intros registered. subst registered.
  unfold McpDeps.registerChecker, McpDeps.checkDeployOption.
  split; [| split].
  - intros Hm. rewrite Hm, lookup_insert_eq.
    destruct (checker (McpDeps.opt_installationDetails option)) as [e | p];
      [reflexivity |].
    eexists. split; reflexivity.
  - intros Hne. rewrite lookup_insert_ne by congruence. reflexivity.
  - intros Hnone. unfold McpDeps.InstallationChecker in *.
    rewrite Hnone. eexists. split; reflexivity.
Qed.

Lemma Numeral_head m :
  McpDeps.Numeral m ->
  exists d rest, m = String d rest /\ McpDeps.isDigit d = true.
Proof. intros [c Hc | c m' Hc _ | c m' Hc _]; eauto. Qed.

Lemma numberTail_digit d rest :
  McpDeps.isDigit d = true ->
  McpDeps.numberTail (String d rest) = String d (McpDeps.numberTail rest).
Proof. intros Hd. simpl. rewrite Hd. reflexivity. Qed.

Lemma numberTail_group d rest :
  McpDeps.isDigit d = true ->
  McpDeps.numberTail (String "." (String d rest))
  = String "." (String d (McpDeps.numberTail rest)).
Proof.
  intros Hd. cbn [McpDeps.numberTail].
  change (McpDeps.isDigit ".") with false. cbn iota.
  change ("." =? ".")%char with true. cbn iota.
  rewrite Hd. reflexivity.
Qed.

(** What [numberTail] takes behind a digit makes a numeral. *)
Lemma numberTail_Numeral (n : nat) : forall rest c,
  String.length rest <= n ->
  McpDeps.isDigit c = true ->
  McpDeps.Numeral (String c (McpDeps.numberTail rest)).
Proof.
  induction n as [| n IH]; intros rest c Hlen Hc.
  - destruct rest; [| simpl in Hlen; lia]. apply McpDeps.Numeral_digit, Hc.
  - destruct rest as [| d rest]; [apply McpDeps.Numeral_digit, Hc |].
    simpl in Hlen. destruct (McpDeps.isDigit d) eqn:Hd.
    + rewrite (numberTail_digit d rest Hd).
      apply McpDeps.Numeral_more; [exact Hc |]. apply IH; [lia | exact Hd].
    + cbn [McpDeps.numberTail]. rewrite Hd.
      destruct (d =? ".")%char eqn:Hdot;
        [| apply McpDeps.Numeral_digit, Hc].
      apply Ascii.eqb_eq in Hdot. subst d.
      destruct rest as [| e rest]; [apply McpDeps.Numeral_digit, Hc |].
      destruct (McpDeps.isDigit e) eqn:He;
        [| apply McpDeps.Numeral_digit, Hc].
      rewrite (numberTail_digit e rest He).
      apply McpDeps.Numeral_group; [exact Hc |].
      apply IH; [simpl in Hlen; lia | exact He].
Qed.

(** [numberTail] takes a prefix. *)
Lemma numberTail_prefix rest :
  exists t, rest = McpDeps.numberTail rest +:+ t.
Proof.
  induction rest as [| d rest [t IH]]; [exists EmptyString; reflexivity |].
  cbn [McpDeps.numberTail]. destruct (McpDeps.isDigit d).
  - exists t. rewrite append_cons. f_equal. exact IH.
  - destruct (d =? ".")%char; [| exists (String d rest); reflexivity].
    destruct rest as [| e rest]; [exists (String d EmptyString); reflexivity |].
    destruct (McpDeps.isDigit e); [| exists (String d (String e rest));
                                     reflexivity].
    exists t. rewrite append_cons. f_equal. exact IH.
Qed.

(** Every numeral at the front of the text is part of what is taken. *)
Lemma numberTail_longest m :
  McpDeps.Numeral m ->
  forall c rest t,
    String c rest = m +:+ t ->
    exists u, String c (McpDeps.numberTail rest) = m +:+ u.
Proof.
  induction 1 as [c0 Hc0 | c0 m Hc0 Hm IH | c0 m Hc0 Hm IH];
    intros c rest t Heq; rewrite append_cons in Heq;
    injection Heq as -> Hrest.
  - exists (McpDeps.numberTail rest). rewrite append_cons, append_nil.
    reflexivity.
  - destruct (Numeral_head m Hm) as (d & m' & -> & Hd).
    rewrite append_cons in Hrest. subst rest.
    rewrite (numberTail_digit d _ Hd).
    destruct (IH d (m' +:+ t) t) as [u Hu];
      [rewrite append_cons; reflexivity |].
    exists u. rewrite append_cons. f_equal. exact Hu.
  - destruct (Numeral_head m Hm) as (d & m' & -> & Hd).
    rewrite !append_cons in Hrest. subst rest.
    rewrite (numberTail_group d _ Hd).
    destruct (IH d (m' +:+ t) t) as [u Hu];
      [rewrite append_cons; reflexivity |].
    exists u. rewrite !append_cons. do 2 f_equal.
    rewrite append_cons in Hu. exact Hu.
Qed.

(** X20: the number read from a required version or from an output is the
    longest text of digit groups separated by single dots that starts at
    the digit: it is such a text, it stands at the front of the input, and
    every such text at the front of the input is a part of it.  Where the
    input does not start with a digit there is none. *)
Theorem numberAt_is_longest_numeral s :
  match McpDeps.numberAt s with
  | Some m =>
      McpDeps.Numeral m
      /\ (exists t, s = m +:+ t)
      /\ (forall m' t', McpDeps.Numeral m' -> s = m' +:+ t' ->
            exists u, m = m' +:+ u)
  | None => forall m' t', McpDeps.Numeral m' -> s <> m' +:+ t'
  end.
Proof.
  destruct s as [| c rest]; simpl.
  - intros m' t' Hm' Heq. destruct (Numeral_head m' Hm') as (d & r & -> & _).
    rewrite append_cons in Heq. discriminate.
  - destruct (McpDeps.isDigit c) eqn:Hc.
    + split; [| split].
      * apply (numberTail_Numeral (String.length rest)); [lia | exact Hc].
      * destruct (numberTail_prefix rest) as [t Ht]. exists t.
        rewrite append_cons. f_equal. exact Ht.
      * intros m' t' Hm' Heq.
        apply (numberTail_longest m' Hm' c rest t' Heq).
    + intros m' t' Hm' Heq.
      destruct (Numeral_head m' Hm') as (d & r & -> & Hd).
      rewrite append_cons in Heq. injection Heq as -> _. congruence.
Qed.

(* ===================================================================== *)
(** ** The statements above on the sample data *)
(* ===================================================================== *)

Lemma demo_order_dispatched :
  [Demo.call2; Demo.call1]
  ⊆ dispatched (trace (createImage Demo.env Demo.firstRejects Demo.ctx
                         Demo.input Demo.emptyWorld)).
Proof. apply (bool_decide_unpack _). vm_compute. exact I. Qed.

Lemma demo_order_NoDup : NoDup [Demo.call2; Demo.call1].
Proof. apply (bool_decide_unpack _). vm_compute. exact I. Qed.

Lemma demo_commit :
  transaction
    (createImageTransaction Demo.env Demo.ctx Demo.input
       (configForDatabase Demo.env (params Demo.input))) Demo.emptyWorld
  = (inr (Demo.batch, Demo.items), Demo.committed).
Proof. vm_compute. reflexivity. Qed.

Lemma settlement_order_irrelevant_witness :
  [Demo.call2; Demo.call1] ≡ₚ [Demo.call1; Demo.call2]
  /\ db (background Demo.firstRejects Demo.ctx [Demo.call2; Demo.call1]
           (createImage Demo.env Demo.firstRejects Demo.ctx Demo.input
              Demo.emptyWorld))
     = db (background Demo.firstRejects Demo.ctx [Demo.call1; Demo.call2]
             (createImage Demo.env Demo.firstRejects Demo.ctx Demo.input
                Demo.emptyWorld)).
Proof.
  split; [apply perm_swap |].
  apply (settlement_order_irrelevant Demo.env Demo.firstRejects Demo.ctx
           Demo.input Demo.emptyWorld Demo.batch Demo.items Demo.committed
           [Demo.call2; Demo.call1] [Demo.call1; Demo.call2]).
  - exact demo_commit.
  - exact demo_order_NoDup.
  - exact demo_order_dispatched.
  - apply perm_swap.
Defined.

Lemma rejected_task_ends_in_error_witness :
  createImageCall Demo.firstRejects Demo.call1 = Rejected Demo.lostReply
  /\ let final :=
       db (background Demo.firstRejects Demo.ctx [Demo.call2; Demo.call1]
             (createImage Demo.env Demo.firstRejects Demo.ctx Demo.input
                Demo.emptyWorld)) in
     (exists t, t ∈ asyncTasks final /\ task_id t = taskId Demo.call1)
     /\ (forall t, t ∈ asyncTasks final -> task_id t = taskId Demo.call1 ->
           task_status t = Error
           /\ task_error t
              = Some (mkAsyncTaskError ServerError
                        (messageOr Demo.lostReply "Unknown error"))).
Proof.
  split; [vm_compute; reflexivity |].
  apply (rejected_task_ends_in_error Demo.env Demo.firstRejects Demo.ctx
           Demo.input Demo.emptyWorld Demo.batch Demo.items Demo.committed
           [Demo.call2; Demo.call1] Demo.call1 Demo.lostReply).
  - exact demo_commit.
  - exact demo_order_NoDup.
  - exact demo_order_dispatched.
  - apply (bool_decide_unpack _). vm_compute. exact I.
  - vm_compute. reflexivity.
  - reflexivity.
Defined.

Lemma unrejected_task_stays_pending_witness :
  createImageCall Demo.firstRejects Demo.call2 = Fulfilled
  /\ let final :=
       db (background Demo.firstRejects Demo.ctx [Demo.call2; Demo.call1]
             (createImage Demo.env Demo.firstRejects Demo.ctx Demo.input
                Demo.emptyWorld)) in
     (exists t, t ∈ asyncTasks final
                /\ task_id t = snd (Demo.generation2, "id-9"))
     /\ (forall t, t ∈ asyncTasks final ->
           task_id t = snd (Demo.generation2, "id-9") ->
           task_status t = Pending /\ task_error t = None).
Proof.
  split; [vm_compute; reflexivity |].
  apply (unrejected_task_stays_pending Demo.env Demo.firstRejects Demo.ctx
           Demo.input Demo.emptyWorld Demo.batch Demo.items Demo.committed
           [Demo.call2; Demo.call1] (Demo.generation2, "id-9")).
  - exact demo_commit.
  - reflexivity.
  - exact demo_order_NoDup.
  - exact demo_order_dispatched.
  - apply (bool_decide_unpack _). vm_compute. exact I.
  - right. intros e. vm_compute. discriminate.
Defined.

Lemma earlier_rows_untouched_witness :
  exists batch items wc,
    transaction
      (createImageTransaction Demo.env Demo.ctx Demo.input
         (configForDatabase Demo.env (params Demo.input))) Demo.committed
    = (inr (batch, items), wc)
    /\ let final :=
         db (background RouterDemo.allReject Demo.ctx
               (dispatched (trace RouterDemo.second)) RouterDemo.second) in
       generationBatches final
       = generationBatches (store Demo.committed) ++ [batch]
       /\ generations final
          = generations (store Demo.committed) ++ map linked items
       /\ exists tasks,
            asyncTasks final = asyncTasks (store Demo.committed) ++ tasks
            /\ map task_id tasks = map snd items.
Proof.
  destruct (transaction
              (createImageTransaction Demo.env Demo.ctx Demo.input
                 (configForDatabase Demo.env (params Demo.input)))
              Demo.committed) as [[e | [batch items]] wc] eqn:Htx;
    [vm_compute in Htx; discriminate |].
  exists batch, items, wc. split; [reflexivity |].
  apply (earlier_rows_untouched Demo.env RouterDemo.allReject Demo.ctx
           Demo.input Demo.committed batch items wc
           (dispatched (trace RouterDemo.second))).
  - exact Htx.
  - apply (bool_decide_unpack _). vm_compute. exact I.
  - reflexivity.
Defined.

Lemma returned_generations_are_unlinked_witness :
  response (createImage Demo.env Demo.quiet Demo.ctx Demo.input
              Demo.emptyWorld) = inr Demo.reply
  /\ exists wc taskIds,
       snd (transaction
              (createImageTransaction Demo.env Demo.ctx Demo.input
                 (configForDatabase Demo.env (params Demo.input)))
              Demo.emptyWorld) = wc
       /\ length taskIds = length (data_generations Demo.reply)
       /\ generations (store wc)
          = generations (store Demo.emptyWorld)
            ++ zip_with setAsyncTaskId taskIds (data_generations Demo.reply)
       /\ Forall (fun g => gen_asyncTaskId g = None)
                 (data_generations Demo.reply)
       /\ success Demo.reply = true.
Proof.
  split; [vm_compute; reflexivity |].
  apply (returned_generations_are_unlinked Demo.env Demo.quiet Demo.ctx
           Demo.input Demo.emptyWorld Demo.reply).
  vm_compute. reflexivity.
Defined.

Lemma batch_row_fields_witness :
  response (createImage Demo.env Demo.quiet Demo.ctx Demo.input
              Demo.emptyWorld) = inr Demo.reply
  /\ imageUrls (params Demo.input) = Some ["https://cdn/x.png"]
  /\ imageUrls (batch_config (data_batch Demo.reply))
     = Some ["files/x.png"]
  /\ let batch := data_batch Demo.reply in
     batch ∈ generationBatches
               (db (createImage Demo.env Demo.quiet Demo.ctx Demo.input
                      Demo.emptyWorld))
     /\ batch_userId batch = userId Demo.ctx
     /\ batch_generationTopicId batch = generationTopicId Demo.input
     /\ batch_provider batch = provider Demo.input
     /\ batch_model batch = model Demo.input
     /\ batch_prompt batch = prompt (params Demo.input)
     /\ batch_width batch = width (params Demo.input)
     /\ batch_height batch = height (params Demo.input)
     /\ batch_id batch
        ∉ map batch_id (generationBatches (store Demo.emptyWorld)).
Proof.
  split; [vm_compute; reflexivity |]. split; [reflexivity |].
  destruct (batch_row_fields Demo.env Demo.quiet Demo.ctx Demo.input
              Demo.emptyWorld Demo.reply)
    as (Hin & Hu & Ht & Hp & Hm & Hpr & Hw & Hh & Hkeys & _ & Hnew);
    [vm_compute; reflexivity |].
  split.
  - apply (Hkeys ["https://cdn/x.png"] ["files/x.png"]);
      [reflexivity | discriminate |].
    constructor; [reflexivity | constructor].
  - cbv zeta. split; [exact Hin |]. split; [exact Hu |]. split; [exact Ht |].
    split; [exact Hp |]. split; [exact Hm |]. split; [exact Hpr |].
    split; [exact Hw |]. split; [exact Hh | exact Hnew].
Defined.

Lemma fallback_marks_every_task_witness :
  createAsyncCaller Demo.noCaller
  = inl (ErrorInstance "caller unavailable")
  /\ map (fun t => (task_id t, task_status t, task_error t))
         (asyncTasks (db (createImage Demo.env Demo.noCaller Demo.ctx
                            Demo.input Demo.emptyWorld)))
     = [("id-6", Error,
         Some (mkAsyncTaskError ServerError "caller unavailable"));
        ("id-9", Pending, None)]
  /\ exists msg,
       (forall m, ErrorInstance "caller unavailable" = ErrorInstance m ->
                  msg = m)
       /\ (forall m, ErrorInstance "caller unavailable" = OtherValue m ->
                     msg = "Failed to process async tasks")
       /\ let value :=
            {| upd_error := Some (mkAsyncTaskError ServerError msg);
               upd_status := Error |} in
          let r := createImage Demo.env Demo.noCaller Demo.ctx Demo.input
                     Demo.emptyWorld in
          response r = inr {| success := true; data_batch := Demo.batch;
                              data_generations := map fst Demo.items |}
          /\ dispatched (trace r) = []
          /\ statusWrites (trace r)
             = map (fun item => (snd item, value)) Demo.items
          /\ consoleErrors (trace r)
             = [ProcessAsyncTasksFailed (ErrorInstance "caller unavailable")]
          /\ forall (i : nat) t,
               asyncTasks (store Demo.committed) !! i = Some t ->
               asyncTasks (db r) !! i
               = Some (if decide (task_id t ∈ map snd Demo.items
                                  /\ task_userId t = userId Demo.ctx
                                  /\ updateFault Demo.noCaller (task_id t)
                                     = None)
                       then {| task_id := task_id t;
                               task_userId := task_userId t;
                               task_status := Error;
                               task_type := task_type t;
                               task_error :=
                                 Some (mkAsyncTaskError ServerError msg) |}
                       else t).
Proof.
  split; [reflexivity |]. split; [vm_compute; reflexivity |].
  apply (fallback_marks_every_task Demo.env Demo.noCaller Demo.ctx Demo.input
           Demo.emptyWorld Demo.batch Demo.items Demo.committed
           (ErrorInstance "caller unavailable")).
  - exact demo_commit.
  - reflexivity.
Defined.

Lemma createImage_request_matches_optimistic_batch_witness :
  Client.requests
    (Client.calls (Client.createImage ClientDemo.services ClientDemo.store))
  = [ClientDemo.request]
  /\ exists parameters batch before after tail,
       Client.s_parameters ClientDemo.store = Some parameters
       /\ prompt parameters <> EmptyString
       /\ Client.calls
            (Client.createImage ClientDemo.services ClientDemo.store)
          = before
            ++ [Client.AddOptimisticGenerationBatch
                  (generationTopicId ClientDemo.request) batch]
            ++ after ++ [Client.ImageServiceCreateImage ClientDemo.request]
            ++ tail
       /\ ClientDemo.request
          = {| generationTopicId := generationTopicId ClientDemo.request;
               provider := Client.s_provider ClientDemo.store;
               model := Client.s_model ClientDemo.store;
               imageNum := Client.s_imageNum ClientDemo.store;
               params := parameters |}
       /\ length (Client.tb_generations batch)
          = Z.to_nat (imageNum ClientDemo.request)
       /\ Client.tb_provider batch = provider ClientDemo.request
       /\ Client.tb_model batch = model ClientDemo.request
       /\ Client.tb_prompt batch = prompt (params ClientDemo.request)
       /\ Client.tb_config batch = params ClientDemo.request
       /\ match Client.present
                  (Client.s_activeGenerationTopicId ClientDemo.store) with
          | Some topic =>
              generationTopicId ClientDemo.request = topic
              /\ before = [Client.SetIsCreating true] /\ after = []
          | None =>
              Client.createGenerationTopic ClientDemo.services
                [prompt parameters]
              = inr (generationTopicId ClientDemo.request)
              /\ before = [Client.SetIsCreating true;
                           Client.CreateGenerationTopic [prompt parameters]]
              /\ after = [Client.SwitchGenerationTopic
                            (generationTopicId ClientDemo.request)]
          end.
Proof.
  assert (Hreq : Client.requests
                   (Client.calls
                      (Client.createImage ClientDemo.services
                         ClientDemo.store))
                 = [ClientDemo.request]).
  { vm_compute. reflexivity. }
  split; [exact Hreq |].
  apply (createImage_request_matches_optimistic_batch ClientDemo.services
           ClientDemo.store ClientDemo.request).
  rewrite Hreq. apply list_elem_of_here.
Defined.

Lemma recreateImage_request_repeats_old_batch_witness :
  Client.requests
    (Client.calls
       (Client.recreateImage ClientDemo.services ClientDemo.storeWithTopic
          "batch-1"))
  = [ClientDemo.repeated]
  /\ exists topic old batch tail,
       Client.present
         (Client.s_activeGenerationTopicId ClientDemo.storeWithTopic)
       = Some topic
       /\ Client.s_generationBatch ClientDemo.storeWithTopic "batch-1"
          = Some old
       /\ Client.removeGenerationBatch ClientDemo.services "batch-1" topic
          = inr tt
       /\ Client.calls
            (Client.recreateImage ClientDemo.services
               ClientDemo.storeWithTopic "batch-1")
          = [Client.SetIsCreating true;
             Client.RemoveGenerationBatch "batch-1" topic;
             Client.AddOptimisticGenerationBatch topic batch;
             Client.ImageServiceCreateImage ClientDemo.repeated] ++ tail
       /\ ClientDemo.repeated
          = {| generationTopicId := topic;
               provider := Client.tb_provider old;
               model := Client.tb_model old;
               imageNum := Client.s_imageNum ClientDemo.storeWithTopic;
               params := Client.tb_config old |}
       /\ length (Client.tb_generations batch)
          = Z.to_nat (Client.s_imageNum ClientDemo.storeWithTopic)
       /\ Client.tb_prompt batch = Client.tb_prompt old
       /\ Client.tb_config batch = Client.tb_config old.
Proof.
  assert (Hreq : Client.requests
                   (Client.calls
                      (Client.recreateImage ClientDemo.services
                         ClientDemo.storeWithTopic "batch-1"))
                 = [ClientDemo.repeated]).
  { vm_compute. reflexivity. }
  split; [exact Hreq |].
  apply (recreateImage_request_repeats_old_batch ClientDemo.services
           ClientDemo.storeWithTopic "batch-1" ClientDemo.repeated).
  rewrite Hreq. apply list_elem_of_here.
Defined.

Lemma demo_checked :
  McpDeps.checkDeployOption McpDemo.runtime McpDemo.checkers 0
    McpDemo.deployment
  = inr McpDemo.checked.
Proof. vm_compute. reflexivity. Qed.

Lemma allDependenciesMet_iff_all_installed_witness :
  McpDeps.checkDeployOption McpDemo.runtime McpDemo.checkers 0
    McpDemo.deployment
  = inr McpDemo.checked
  /\ map McpDeps.res_name (McpDeps.systemDependencies McpDemo.checked)
     = map McpDeps.dep_name
         (default [] (McpDeps.opt_systemDependencies McpDemo.deployment))
  /\ (McpDeps.allDependenciesMet McpDemo.checked = true
      <-> Forall (fun d => McpDeps.res_installed d = true
                           /\ McpDeps.res_error d = None
                           /\ McpDeps.res_meetRequirement d = true)
                 (McpDeps.systemDependencies McpDemo.checked)).
Proof.
  split; [exact demo_checked |].
  apply (allDependenciesMet_iff_all_installed McpDemo.runtime
           McpDemo.checkers 0 McpDemo.deployment McpDemo.checked).
  exact demo_checked.
Defined.

Lemma failing_command_fails_the_option_witness :
  McpDeps.execPromise McpDemo.runtime 2 (McpDeps.checkCommandOf McpDemo.uv)
  = inl (ErrorInstance "command not found")
  /\ McpDeps.allDependenciesMet McpDemo.checked = false
  /\ exists d,
       McpDeps.systemDependencies McpDemo.checked !! 2 = Some d
       /\ McpDeps.res_name d = McpDeps.dep_name McpDemo.uv
       /\ McpDeps.res_installed d = false
       /\ McpDeps.res_meetRequirement d = false
       /\ McpDeps.res_version d = None
       /\ McpDeps.res_error d
          = Some match McpDeps.execPromise McpDemo.runtime (0 + 2)
                         (McpDeps.checkCommandOf McpDemo.uv) with
                 | inl e => errorMessageOr e "Unknown error"
                 | inr (_, stderr) => stderr
                 end.
Proof.
  split; [vm_compute; reflexivity |].
  apply (failing_command_fails_the_option McpDemo.runtime McpDemo.checkers 0
           McpDemo.deployment McpDemo.checked
           [McpDemo.node; McpDemo.python; McpDemo.uv] 2 McpDemo.uv).
  - exact demo_checked.
  - reflexivity.
  - reflexivity.
  - vm_compute. exact I.
Defined.

Lemma requirement_operator_must_touch_number_witness :
  McpDeps.meetsRequirement McpDemo.runtime McpDemo.node "v20.11.0" = false
  /\ let current :=
       McpDeps.parseFloat McpDemo.runtime (McpDeps.stripV "v20.11.0") in
     let required :=
       McpDeps.parseFloat McpDemo.runtime
         (String "1" (McpDeps.numberTail "8")) in
     McpDeps.meetsRequirement McpDemo.runtime McpDemo.node "v20.11.0"
     = McpDeps.compareVersions McpDemo.runtime "=" current required
     /\ (EmptyString <> ">=" -> EmptyString <> ">" ->
         EmptyString <> "<=" -> EmptyString <> "<" ->
         McpDeps.meetsRequirement McpDemo.runtime McpDemo.node "v20.11.0"
         = McpDeps.strictEqual McpDemo.runtime current required).
Proof.
  split; [vm_compute; reflexivity |].
  apply (requirement_operator_must_touch_number McpDemo.runtime McpDemo.node
           "v20.11.0" ">= " EmptyString "1"%char "8").
  - reflexivity.
  - right. exists ">=", " "%char. repeat split; reflexivity.
  - reflexivity.
  - reflexivity.
Defined.

Lemma requirement_without_number_is_met_witness :
  McpDeps.dep_requiredVersion McpDemo.python = Some "latest"
  /\ McpDeps.checkSystemDependency McpDemo.runtime 1 McpDemo.python
     = {| McpDeps.res_error := None;
          McpDeps.res_installed := true;
          McpDeps.res_meetRequirement := true;
          McpDeps.res_name := McpDeps.dep_name McpDemo.python;
          McpDeps.res_version :=
            Some (McpDeps.versionOf McpDemo.runtime McpDemo.python
                    "Python 3.11.4") |}.
Proof.
  split; [reflexivity |].
  apply (requirement_without_number_is_met McpDemo.runtime 1 McpDemo.python
           "Python 3.11.4" EmptyString).
  - vm_compute. reflexivity.
  - right. reflexivity.
  - intros required [= <-]. vm_compute. reflexivity.
Defined.

Lemma parsed_version_is_first_number_witness :
  McpDeps.trim McpDemo.runtime "Python 3.11.4" = "Python 3.11.4"
  /\ McpDeps.versionOf McpDemo.runtime McpDemo.python "Python 3.11.4"
     = McpDeps.lastV "Python " +:+ String "3" (McpDeps.numberTail ".11.4")
  /\ McpDeps.stripV
       (McpDeps.versionOf McpDemo.runtime McpDemo.python "Python 3.11.4")
     = String "3" (McpDeps.numberTail ".11.4").
Proof.
  split; [reflexivity |].
  apply (parsed_version_is_first_number McpDemo.runtime McpDemo.python
           "Python 3.11.4" "Python " "3"%char ".11.4").
  - reflexivity.
  - reflexivity.
  - reflexivity.
  - reflexivity.
Defined.

